(** * The back-end request handlers of the launcher (src/back/responses.ts)

    A shallow embedding of [registerRequestCallbacks], [difObjects],
    [deletePlaylist] and [queryGames], and the properties of the query
    cache, the playlist file-name allocation, the preferences diff and the
    init-event subscriptions that follow from the code.

    Conventions.
    - A JavaScript string is a [string]: one [ascii] per code unit, so the
      strings covered are those whose code units are below 256 (Latin-1).
    - A JavaScript number that the code uses as an index, a count or an
      offset is a [Z].
    - [async] handlers are run to completion one at a time; an [await] is
      the sequencing of the handler monad. *)

From stdpp Require Import gmap strings list.
From Stdlib Require Import Ascii ZArith DecimalString Lia.

Open Scope string_scope.
Open Scope list_scope.
Open Scope Z_scope.

(** ** JavaScript strings *)

Module JS.

Definition dquote : ascii := "034"%char.
Definition backslash : ascii := "\"%char.

Definition code (c : ascii) : N := N_of_ascii c.

(** [String.prototype.toLowerCase] on one code unit below 256:
    A-Z, and the Latin-1 capitals U+00C0-U+00DE without U+00D7. *)
Definition lowerChar (c : ascii) : ascii :=
  let n := code c in
  if ((65 <=? n) && (n <=? 90))%N then ascii_of_N (n + 32)
  else if ((192 <=? n) && (n <=? 222) && negb (n =? 215))%N then ascii_of_N (n + 32)
  else c.

Fixpoint toLowerCase (s : string) : string :=
  match s with
  | EmptyString => EmptyString
  | String c r => String (lowerChar c) (toLowerCase r)
  end.

(** [s.startsWith(p)] *)
Fixpoint startsWith (s p : string) : bool :=
  match p with
  | EmptyString => true
  | String b p' =>
      match s with
      | EmptyString => false
      | String a s' => if Ascii.eqb a b then startsWith s' p' else false
      end
  end.

(** [s.endsWith(p)] for a one-character [p]. *)
Fixpoint endsWithChar (s : string) (c : ascii) : bool :=
  match s with
  | EmptyString => false
  | String a EmptyString => Ascii.eqb a c
  | String _ r => endsWithChar r c
  end.

(** [s.lastIndexOf(c)] for a one-character [c]: [-1] when absent. *)
Fixpoint lastIndexOfFrom (s : string) (c : ascii) (i : Z) (found : Z) : Z :=
  match s with
  | EmptyString => found
  | String a r => lastIndexOfFrom r c (i + 1) (if Ascii.eqb a c then i else found)
  end.

Definition lastIndexOf (s : string) (c : ascii) : Z := lastIndexOfFrom s c 0 (-1).

Definition strlen (s : string) : Z := Z.of_nat (String.length s).

(** [s.substr(start, len)] and [s.substr(start)] for [0 <= start]. *)
Definition substr (s : string) (start : Z) (len : Z) : string :=
  String.substring (Z.to_nat start) (Z.to_nat (Z.min len (strlen s - start))) s.

Definition substrFrom (s : string) (start : Z) : string :=
  substr s start (strlen s - start).

(** [String(n)] for a non-negative integer. *)
Definition numberToString (n : Z) : string :=
  NilZero.string_of_uint (N.to_uint (Z.to_N n)).

Definition isDigit (c : ascii) : bool :=
  let n := code c in ((48 <=? n) && (n <=? 57))%N.

Definition digitValue (c : ascii) : Z := Z.of_N (code c - 48).

End JS.

(** ** [JSON.stringify] of a query

    [QuoteJSONString] of ECMA-262: the quotation mark and the reverse
    solidus are escaped with a reverse solidus, the control characters
    U+0008, U+0009, U+000A, U+000C, U+000D have short escapes, the other
    code units below U+0020 are written [\u00xx] in lower-case hexadecimal,
    and every other code unit stands for itself. *)

Module JSON.
Import JS.

Definition hexDigit (n : N) : ascii :=
  if (n <? 10)%N then ascii_of_N (48 + n) else ascii_of_N (87 + n).

Definition QuoteJSONChar (c : ascii) : string :=
  let n := code c in
  if (n =? 8)%N then String backslash "b"
  else if (n =? 9)%N then String backslash "t"
  else if (n =? 10)%N then String backslash "n"
  else if (n =? 12)%N then String backslash "f"
  else if (n =? 13)%N then String backslash "r"
  else if (n =? 34)%N then String backslash (String dquote "")
  else if (n =? 92)%N then String backslash (String backslash "")
  else if (n <? 32)%N then
    String backslash (String "u" (String "0" (String "0"
      (String (hexDigit (n / 16)) (String (hexDigit (n mod 16)) "")))))
  else String c "".

Fixpoint QuoteJSONBody (s : string) : string :=
  match s with
  | EmptyString => EmptyString
  | String c r => QuoteJSONChar c +:+ QuoteJSONBody r
  end.

Definition QuoteJSONString (s : string) : string :=
  String dquote (QuoteJSONBody s +:+ String dquote "").

Definition ofBool (b : bool) : string := if b then "true" else "false".

(** One property of [SerializeJSONObject]: the quoted key, a colon and
    the serialized value. *)
Definition member (key value : string) : string :=
  QuoteJSONString key +:+ ":" +:+ value.

End JSON.

(** ** JavaScript values

    The values that preferences and configuration data are made of. An
    object is the list of its own enumerable properties in [for-in]
    order, each key once. (An array is an object keyed by its indices.)
    The keys are ordinary property names: what an object inherits from
    [Object.prototype] is read and assigned only where a key comes from a
    request or from the catalog ([state.services[id]],
    [platforms[library]]), and is modelled there. *)

(** A number is an integer or [NaN]. Under [===] a fraction or an infinity
    behaves as an integer does: it is equal to itself; [NaN] is not. *)
Inductive number : Type :=
| Int (z : Z)
| NaN.

Coercion Int : Z >-> number.

(** [x === y] on numbers. *)
Definition numberEq (x y : number) : bool :=
  match x, y with
  | Int a, Int b => Z.eqb a b
  | _, _ => false
  end.

#[local] Set Warnings "-register-all".

Inductive value : Type :=
| VUndefined
| VNull
| VBool (b : bool)
| VNum (n : number)
| VStr (s : string)
| VObj (props : list (string * value)).

#[local] Set Warnings "register-all".

(** [typeof v === 'object'] *)
Definition typeofObject (v : value) : bool :=
  match v with
  | VNull | VObj _ => true
  | _ => false
  end.

Fixpoint lookupProp (props : list (string * value)) (key : string) : value :=
  match props with
  | [] => VUndefined
  | (k, v) :: rest => if String.eqb k key then v else lookupProp rest key
  end.

(** [s[key]] for a string primitive: its length, or the code unit at a
    canonical index. *)
Fixpoint stringIndex (s : string) (key : string) (i : Z) : value :=
  match s with
  | EmptyString => VUndefined
  | String c r =>
      if String.eqb key (JS.numberToString i) then VStr (String c EmptyString)
      else stringIndex r key (i + 1)
  end.

(** [o[key]]: a [TypeError] ([None]) when [o] is [null] or [undefined];
    a string primitive has its length and its code units; a boolean or a
    number has no property of its own. *)
Definition getProp (o : value) (key : string) : option value :=
  match o with
  | VObj props => Some (lookupProp props key)
  | VNull | VUndefined => None
  | VStr s =>
      Some (if String.eqb key "length" then VNum (JS.strlen s) else stringIndex s key 0)
  | _ => Some VUndefined
  end.

(** [o[key] = v] on the properties of an object: an existing key keeps
    its place, a new key goes last. *)
Fixpoint setProp {V : Type} (props : list (string * V)) (key : string) (v : V)
  : list (string * V) :=
  match props with
  | [] => [(key, v)]
  | (k, w) :: rest =>
      if String.eqb k key then (k, v) :: rest else (k, w) :: setProp rest key v
  end.

(** ** [difObjects] (responses.ts, lines 762-780) *)

Section DiffEngine.

(** [strictEq x y] is [x === y]. Two objects are strictly equal when they
    are the same object, which a tree of properties does not record:
    [sameObject] decides it. *)
Variable sameObject : value -> value -> bool.

Definition strictEq (x y : value) : bool :=
  match x, y with
  | VUndefined, VUndefined => true
  | VNull, VNull => true
  | VBool a, VBool b => Bool.eqb a b
  | VNum a, VNum b => numberEq a b
  | VStr a, VStr b => String.eqb a b
  | VObj _, VObj _ => sameObject x y
  | _, _ => false
  end.

(** [let dif; ... if (!dif) { dif = {}; } dif[key] = v;] with [dif] held
    as [None] while it is [undefined]. *)
Definition assign (dif : option (list (string * value))) (key : string) (v : value)
  : option (list (string * value)) :=
  Some (setProp (default [] dif) key v).

Definition difValue (dif : option (list (string * value))) : value :=
  match dif with
  | None => VUndefined
  | Some props => VObj props
  end.

(** The result is [None] when a property read throws, [Some VUndefined]
    when the function returns [undefined]. The [for-in] loop visits the
    properties of an object template; a [null] template has none. *)
Fixpoint difObjects (template a b : value) {struct template} : option value :=
  match template with
  | VObj tprops =>
      (fix loop (keys : list (string * value)) (dif : option (list (string * value)))
         {struct keys} : option value :=
         match keys with
         | [] => Some (difValue dif)
         | (key, tkey) :: keys' =>
             match getProp a key, getProp b key with
             | Some akey, Some bkey =>
                 if negb (strictEq akey bkey) && negb (strictEq bkey VUndefined) then
                   if typeofObject tkey && typeofObject akey && typeofObject bkey then
                     match difObjects tkey akey bkey with
                     | None => None
                     | Some (VObj sub) => loop keys' (assign dif key (VObj sub))
                     | Some _ => loop keys' dif
                     end
                   else loop keys' (assign dif key bkey)
                 else loop keys' dif
             | _, _ => None
             end
         end) tprops None
  | _ => Some VUndefined
  end.

End DiffEngine.

(** A value has the shape of the template when it is an object wherever
    the template is one, with every key of the template, and a value of
    the template's kind at every other place: a number that is not [NaN]
    where the template has a number. *)
Fixpoint matchesShape (template v : value) {struct template} : bool :=
  match template, v with
  | VObj tprops, VObj vprops =>
      forallb (fun kt => matchesShape (snd kt) (lookupProp vprops (fst kt))) tprops
  | VUndefined, VUndefined => true
  | VNull, VNull => true
  | VBool _, VBool _ => true
  | VNum _, VNum (Int _) => true
  | VStr _, VStr _ => true
  | _, _ => false
  end.

(** The same with [typeof] alone deciding the kind of a number: [NaN] is a
    number. *)
Fixpoint sameKinds (template v : value) {struct template} : bool :=
  match template, v with
  | VObj tprops, VObj vprops =>
      forallb (fun kt => sameKinds (snd kt) (lookupProp vprops (fst kt))) tprops
  | VUndefined, VUndefined => true
  | VNull, VNull => true
  | VBool _, VBool _ => true
  | VNum _, VNum _ => true
  | VStr _, VStr _ => true
  | _, _ => false
  end.

(** ** The data of the back end (@shared/back/types, ./types) *)

Module AdditionalApplication.
Record t : Type := mk {
  id : string;
  name : string;
  (** [parentGame.platform], when there is a parent game. *)
  parentGamePlatform : option string;
}.
End AdditionalApplication.

Module Game.
Record t : Type := mk {
  id : string;
  title : string;
  platform : string;
  tags : string;
  developer : string;
  publisher : string;
  library : string;
  extreme : bool;
  broken : bool;
  addApps : list AdditionalApplication.t;
}.
End Game.

Module ViewGame.
Record t : Type := mk {
  id : string;
  title : string;
  platform : string;
  genre : string;
  developer : string;
  publisher : string;
}.
End ViewGame.

Module GamePlaylist.
Record t : Type := mk {
  filename : string;
  title : string;
  games : list string;
}.
End GamePlaylist.

(** [BackQuery]: [library] and [playlistId] are optional, [None] is
    [undefined]. [orderBy] and [orderReverse] are string enumerations. *)
Module BackQuery.
Record t : Type := mk {
  extreme : bool;
  broken : bool;
  library : option string;
  search : string;
  orderBy : string;
  orderReverse : string;
  playlistId : option string;
}.
End BackQuery.

Module BackQueryChache.
Record t : Type := mk {
  query : BackQuery.t;
  games : list Game.t;
  viewGames : list ViewGame.t;
}.
End BackQueryChache.

Module FilterGameOpts.
Record t : Type := mk {
  search : string;
  extreme : bool;
  broken : bool;
  playlist : option GamePlaylist.t;
}.
End FilterGameOpts.

Module SearchGamesOpts.
Record t : Type := mk {
  extreme : bool;
  broken : bool;
  playlist : option GamePlaylist.t;
  query : string;
  orderBy : string;
  orderReverse : string;
  library : option string;
}.
End SearchGamesOpts.

(** [JSON.stringify(query)] for the object literal that the three browse
    handlers build: the seven properties in the order they are written,
    a property whose value is [undefined] left out. *)
Definition JSON_stringify_query (q : BackQuery.t) : string :=
  "{" +:+ JSON.member "extreme" (JSON.ofBool (BackQuery.extreme q))
  +:+ "," +:+ JSON.member "broken" (JSON.ofBool (BackQuery.broken q))
  +:+ match BackQuery.library q with
      | Some l => "," +:+ JSON.member "library" (JSON.QuoteJSONString l)
      | None => ""
      end
  +:+ "," +:+ JSON.member "search" (JSON.QuoteJSONString (BackQuery.search q))
  +:+ "," +:+ JSON.member "orderBy" (JSON.QuoteJSONString (BackQuery.orderBy q))
  +:+ "," +:+ JSON.member "orderReverse" (JSON.QuoteJSONString (BackQuery.orderReverse q))
  +:+ match BackQuery.playlistId q with
      | Some p => "," +:+ JSON.member "playlistId" (JSON.QuoteJSONString p)
      | None => ""
      end
  +:+ "}".

(** ** [Array.prototype.slice(start, end)] with integer arguments *)

Definition relativeIndex (len i : Z) : Z :=
  if i <? 0 then Z.max (len + i) 0 else Z.min i len.

Definition slice {A : Type} (l : list A) (start end_ : Z) : list A :=
  let len := Z.of_nat (length l) in
  let k := relativeIndex len start in
  let final := relativeIndex len end_ in
  take (Z.to_nat (Z.max (final - k) 0)) (drop (Z.to_nat k) l).

Module Config.
Record t : Type := mk {
  flashpointPath : string;
  imageFolderPath : string;
  nativePlatforms : list string;
}.
End Config.

Inductive ProcessAction : Type := START | STOP | RESTART | UNHANDLED.

(** The socket a request came from ([event.target]). *)
Definition Channel : Type := nat.

(** ** Requests and responses *)

Module BackIn.
Inductive t : Type :=
| ADD_LOG (data : value)
| GET_MAIN_INIT_DATA
| GET_RENDERER_INIT_DATA
| INIT_LISTEN
| GET_SUGGESTIONS
| GET_GAMES_TOTAL
| SET_LOCALE (data : string)
| GET_EXEC
| LAUNCH_ADDAPP (id : string)
| LAUNCH_GAME (id : string)
| SAVE_GAME (game : Game.t) (library : option string)
| DELETE_GAME (id : string)
| DUPLICATE_GAME (id : string) (dupeImages : bool)
| EXPORT_GAME (id : string) (location : string) (metaOnly : bool)
| GET_GAME (id : string)
| GET_ALL_GAMES
| RANDOM_GAMES (count : Z)
| BROWSE_VIEW_PAGE (query : BackQuery.t) (offset limit : Z)
| BROWSE_VIEW_INDEX (query : BackQuery.t) (gameId : string)
| SAVE_IMAGE (folder id content : string)
| DELETE_IMAGE (folder id : string)
| QUICK_SEARCH (query : BackQuery.t) (search : string)
| UPDATE_CONFIG (data : value)
| UPDATE_PREFERENCES (data : value)
| SERVICE_ACTION (id : string) (action : ProcessAction)
| GET_PLAYLISTS
| SAVE_PLAYLIST (playlist : GamePlaylist.t) (prevFilename : option string)
| DELETE_PLAYLIST (data : string)
| IMPORT_CURATION (curation : value) (log : bool) (date : option Z) (saveCuration : bool)
| LAUNCH_CURATION (key : string) (meta : value) (addApps : value) (platform : string)
| LAUNCH_CURATION_ADDAPP (curationKey : string) (curation : value) (platform : string)
| QUIT.
End BackIn.

Module BackOut.
Inductive t : Type :=
| GENERIC_RESPONSE
| GET_MAIN_INIT_DATA
| INIT_EVENT
| LOCALE_UPDATE
| BROWSE_CHANGE
| BROWSE_VIEW_PAGE_RESPONSE
| IMAGE_CHANGE
| UPDATE_PREFERENCES_RESPONSE
| LANGUAGE_CHANGE
| QUIT.
End BackOut.

Module WrappedRequest.
Record t : Type := mk {
  id : string;
  data : BackIn.t;
}.
End WrappedRequest.

Module RendererInitData.
Record t : Type := mk {
  preferences : value;
  config : Config.t;
  fileServerPort : Z;
  log : list value;
  services : list value;
  languages : value;
  language : value;
  themes : list (string * value);
  playlists : option (list GamePlaylist.t);
  libraries : list string;
  platforms : list (string * list string);
  localeCode : string;
}.
End RendererInitData.

Inductive ResponseData : Type :=
| DUndefined
| DMainInit (preferences : value) (config : Config.t)
| DRendererInit (d : RendererInitData.t)
| DInitEvent (done : list string)
| DSuggestions (suggestions appPaths : value)
| DGamesTotal (total : Z)
| DLocaleUpdate (code : string)
| DExec (mappings : value)
| DBrowseChange (library : option string) (gamesTotal : Z)
| DGame (game : option Game.t)
| DAllGames (games : list Game.t)
| DRandomGames (games : list Game.t)
| DBrowseViewPage (games : list ViewGame.t) (offset total : Z)
| DBrowseViewIndex (index : Z)
| DImageChange (id folder : string)
| DQuickSearch (id : option string) (index : option Z)
| DPreferences (preferences : value)
| DLanguageChange (container : value)
| DPlaylists (playlists : list GamePlaylist.t)
| DImportCuration (error : option value).

Module WrappedResponse.
Record t : Type := mk {
  id : string;
  type : BackOut.t;
  data : ResponseData;
}.
End WrappedResponse.

(** A listener added with [state.initEmitter.once(init, ...)] by the
    INIT_LISTEN handler: the event it waits for and the socket that the
    closure answers to. *)
Module InitListener.
Record t : Type := mk {
  event : string;
  target : Channel;
}.
End InitListener.

(** ** The state of the back end ([BackState]) *)

Module BackState.
Record t : Type := mk {
  queries : gmap string BackQueryChache.t;
  playlists : list GamePlaylist.t;
  (** [state.init], a [Record<BackInit, boolean>] in [for-in] order. *)
  init : list (string * bool);
  initEmitter : list InitListener.t;
  (** [state.preferences], an object: its properties. *)
  preferences : list (string * value);
  config : Config.t;
  configFolder : string;
  localeCode : string;
  languages : value;
  languageContainer : value;
  themeFiles : list (string * value);
  execMappings : value;
  log : list value;
  fileServerPort : Z;
  (** [state.services], by key ([server], [redirector], ...). *)
  services : list (string * value);
  (** [state.playlistWatcher.getFolder()] *)
  playlistFolder : option string;
}.

Definition set_queries (q : gmap string BackQueryChache.t) (s : t) : t :=
  mk q (playlists s) (init s) (initEmitter s) (preferences s) (config s)
     (configFolder s) (localeCode s) (languages s) (languageContainer s)
     (themeFiles s) (execMappings s) (log s) (fileServerPort s) (services s)
     (playlistFolder s).

Definition set_init (i : list (string * bool)) (s : t) : t :=
  mk (queries s) (playlists s) i (initEmitter s) (preferences s) (config s)
     (configFolder s) (localeCode s) (languages s) (languageContainer s)
     (themeFiles s) (execMappings s) (log s) (fileServerPort s) (services s)
     (playlistFolder s).

Definition set_initEmitter (l : list InitListener.t) (s : t) : t :=
  mk (queries s) (playlists s) (init s) l (preferences s) (config s)
     (configFolder s) (localeCode s) (languages s) (languageContainer s)
     (themeFiles s) (execMappings s) (log s) (fileServerPort s) (services s)
     (playlistFolder s).

Definition set_preferences (p : list (string * value)) (s : t) : t :=
  mk (queries s) (playlists s) (init s) (initEmitter s) p (config s)
     (configFolder s) (localeCode s) (languages s) (languageContainer s)
     (themeFiles s) (execMappings s) (log s) (fileServerPort s) (services s)
     (playlistFolder s).

Definition set_localeCode (c : string) (s : t) : t :=
  mk (queries s) (playlists s) (init s) (initEmitter s) (preferences s) (config s)
     (configFolder s) c (languages s) (languageContainer s)
     (themeFiles s) (execMappings s) (log s) (fileServerPort s) (services s)
     (playlistFolder s).

Definition set_languageContainer (c : value) (s : t) : t :=
  mk (queries s) (playlists s) (init s) (initEmitter s) (preferences s) (config s)
     (configFolder s) (localeCode s) (languages s) c
     (themeFiles s) (execMappings s) (log s) (fileServerPort s) (services s)
     (playlistFolder s).

Definition set_log (l : list value) (s : t) : t :=
  mk (queries s) (playlists s) (init s) (initEmitter s) (preferences s) (config s)
     (configFolder s) (localeCode s) (languages s) (languageContainer s)
     (themeFiles s) (execMappings s) l (fileServerPort s) (services s)
     (playlistFolder s).
End BackState.

(** ** What a handler does to the outside

    The calls a handler makes to the socket server and to its
    collaborators, in the order they are made. *)

Inductive LaunchCall : Type :=
| LaunchGame (game : Game.t) (native : bool)
| LaunchAdditionalApplication (addApp : AdditionalApplication.t) (native : bool)
| LaunchCuration (key : string) (native : bool)
| LaunchAddAppCuration (curationKey : string) (native : bool)
| ImportCuration (curation : value).

Inductive Effect : Type :=
(** [respond(target, response)] *)
| Sent (target : Channel) (response : WrappedResponse.t)
(** [state.socketServer.broadcast(response)] *)
| Broadcast (response : WrappedResponse.t)
(** [log(state, entry, id)] *)
| Logged (entry : value) (id : option string)
| ConsoleError
| ConsoleWarn
| Launched (call : LaunchCall)
| ProcessCall (id : string) (action : ProcessAction)
(** [GameManager.findGames(opts)] *)
| FoundGames (opts : option FilterGameOpts.t)
| WroteFile (path : string)
| CopiedFile (src dst : string)
| MadeDir (path : string)
(** [unlink(path)], called: the call fails when there is no such file *)
| Unlinked (path : string)
| Exited.

(** The catalog behind [GameManager], the files, the calls made so far,
    and the choices that the code does not make itself (whether a call
    inside a [try] block throws, what [Math.random] and [uuid] return),
    read in turn from [oracle]. *)
Module World.
Record t : Type := mk {
  state : BackState.t;
  db : list Game.t;
  fs : gset string;
  trace : list Effect;
  oracle : nat -> nat;
  tick : nat;
}.
End World.

(** ** The handler monad

    A handler is a function of the world that returns or throws. An
    [await] is a [bind]: one handler runs from its first statement to its
    last before another starts. *)

Inductive outcome (A : Type) : Type :=
| Ok (a : A)
| Throw (e : value).

Arguments Ok {A} a.
Arguments Throw {A} e.

Definition M (A : Type) : Type := World.t -> outcome A * World.t.

Definition ret {A : Type} (a : A) : M A := fun w => (Ok a, w).

Definition bind {A B : Type} (m : M A) (k : A -> M B) : M B :=
  fun w =>
    match m w with
    | (Ok a, w') => k a w'
    | (Throw e, w') => (Throw e, w')
    end.

Definition throw {A : Type} (e : value) : M A := fun w => (Throw e, w).

(** [try { body } catch (e) { handler e }] *)
Definition try_catch {A : Type} (body : M A) (handler : value -> M A) : M A :=
  fun w =>
    match body w with
    | (Ok a, w') => (Ok a, w')
    | (Throw e, w') => handler e w'
    end.

Declare Scope handler_scope.
Delimit Scope handler_scope with handler.
Bind Scope handler_scope with M.

Notation "x <- m ;; k" := (bind m (fun x => k))
  (at level 100, m at next level, k at level 200, right associativity) : handler_scope.
Notation "m ;;; k" := (bind m (fun _ => k))
  (at level 100, k at level 200, right associativity) : handler_scope.

Open Scope handler_scope.

Definition getState : M BackState.t := fun w => (Ok (World.state w), w).

Definition modifyState (f : BackState.t -> BackState.t) : M unit :=
  fun w => (Ok tt, World.mk (f (World.state w)) (World.db w) (World.fs w)
                            (World.trace w) (World.oracle w) (World.tick w)).

Definition getDb : M (list Game.t) := fun w => (Ok (World.db w), w).

Definition setDb (d : list Game.t) : M unit :=
  fun w => (Ok tt, World.mk (World.state w) d (World.fs w)
                            (World.trace w) (World.oracle w) (World.tick w)).

Definition getFs : M (gset string) := fun w => (Ok (World.fs w), w).

Definition setFs (f : gset string) : M unit :=
  fun w => (Ok tt, World.mk (World.state w) (World.db w) f
                            (World.trace w) (World.oracle w) (World.tick w)).

Definition emit (e : Effect) : M unit :=
  fun w => (Ok tt, World.mk (World.state w) (World.db w) (World.fs w)
                            (World.trace w ++ [e]) (World.oracle w) (World.tick w)).

Definition choose : M nat :=
  fun w => (Ok (World.oracle w (World.tick w)),
            World.mk (World.state w) (World.db w) (World.fs w)
                     (World.trace w) (World.oracle w) (S (World.tick w))).

(** A call written inside a [try] block: it throws when the oracle says
    so, before it has done anything. A collaborator call written outside
    a [try] block is followed on the runs on which it returns. *)
Definition mayThrow {A : Type} (m : M A) : M A :=
  n <- choose ;;
  match n with
  | O => m
  | S k => throw (VNum (Z.of_nat k))
  end.

Definition liftOption {A : Type} (o : option A) : M A :=
  match o with
  | Some a => ret a
  | None => throw (VStr "TypeError")
  end.

Fixpoint forEach {A : Type} (l : list A) (f : A -> M unit) : M unit :=
  match l with
  | [] => ret tt
  | x :: rest => f x ;;; forEach rest f
  end.

Definition when (b : bool) (m : M unit) : M unit := if b then m else ret tt.

(** ** The socket server and the collaborators *)

Definition respond (target : Channel) (response : WrappedResponse.t) : M unit :=
  emit (Sent target response).

Definition broadcast (response : WrappedResponse.t) : M unit :=
  emit (Broadcast response).

(** Modelled from the spec: [log] (./util/misc) is not among the
    sources. It is the operation append-log-entry: the entry is appended
    to [state.log]. The call is recorded as one event; what [log] sends,
    if anything, is not known and is not part of the trace. *)
Definition log (entry : value) (id : option string) : M unit :=
  modifyState (fun s => BackState.set_log (BackState.log s ++ [entry]) s) ;;;
  emit (Logged entry id).

(** Modelled from the spec: [pathExists] (./util/misc) is not among the
    sources; it tells whether the path is in the file system. *)
Definition pathExists (p : string) : M bool :=
  f <- getFs ;; ret (bool_decide (p ∈ f)).

Definition writeFile (p : string) : M unit :=
  f <- getFs ;; setFs ({[ p ]} ∪ f) ;;; emit (WroteFile p).

Definition copyFile (src dst : string) : M unit :=
  f <- getFs ;; setFs ({[ dst ]} ∪ f) ;;; emit (CopiedFile src dst).

Definition mkdir (p : string) : M unit :=
  emit (MadeDir p).

Definition ENOENT : value := VStr "ENOENT".

(** [unlink(p)] of Node's [fs]: the call is recorded; it deletes the file,
    and fails with [ENOENT] when there is no such file. *)
Definition unlink (p : string) : M unit :=
  emit (Unlinked p) ;;;
  f <- getFs ;;
  if bool_decide (p ∈ f) then setFs (f ∖ {[ p ]}) else throw ENOENT.

(** [(await stat(p)).isFile()]: [stat] throws [ENOENT] for a path that
    does not exist. *)
Definition statIsFile (p : string) : M bool :=
  f <- getFs ;;
  if bool_decide (p ∈ f) then ret true else throw ENOENT.

(** Modelled from the spec: [PlaylistFile.saveFile], [ConfigFile.saveFile]
    and [PreferencesFile.saveFile] are not among the sources; each writes
    the file at the path it is given. *)
Definition saveFile (p : string) : M unit := writeFile p.

(** The functions of collaborators that compute without changing the
    state of the back end; their code is not among the sources. *)
Module Env.
Record t : Type := mk {
  (** [createHash('sha256').update(s).digest('base64')] *)
  sha256_base64 : string -> string;
  sanitizeFilename : string -> string;
  path_join : list string -> string;
  path_dirname : string -> string;
  path_resolve : string -> string;
  (** [uuid()], from the oracle's choice. *)
  uuid : nat -> string;
  (** The games that [GameManager.findGames(opts)] finds in a catalog. *)
  filterGames : option FilterGameOpts.t -> list Game.t -> list Game.t;
  librariesOf : list Game.t -> list string;
  platformsOf : list Game.t -> string -> list string;
  getSuggestions : list Game.t -> list string -> value;
  findMostUsedApplicationPaths : list Game.t -> value;
  createContainer : value -> value -> string -> value -> value;
  procToService : value -> value;
  overwriteConfigData : Config.t -> value -> Config.t;
  overwritePreferenceData : list (string * value) -> value -> list (string * value);
  defaultPreferencesData : value;
  (** [isNativeError(e) ? copyError(e) : e] *)
  errorData : value -> value;
  (** The constants of @shared/constants and ./constants. *)
  LOGOS : string;
  SCREENSHOTS : string;
  CONFIG_FILENAME : string;
  PREFERENCES_FILENAME : string;
  (** The key of [BackInit.PLAYLISTS] in [state.init]. *)
  BackInit_PLAYLISTS : string;
  (** Whether two values are one object (see [strictEq]). *)
  sameObject : value -> value -> bool;
  (** What [importCuration] (./importGame), which is handed the game
      manager, the Flashpoint path and the image folder, makes of the
      catalog and of the files. *)
  importedCatalog : value -> list Game.t -> list Game.t;
  importedFiles : value -> gset string -> gset string;
}.
End Env.

(** [GameManager] is not among the sources. It is the catalog store of
    the spec: find(filter), findOne(id), count(), update(entry),
    remove(id), listLibraries(), listPlatforms(library), over the list of
    games [World.db]. *)
Module GameManager.

(** Modelled from the spec: findOne(id) of the catalog store, the game of
    the catalog with that id. *)
Definition findGame (id : string) : M (option Game.t) :=
  d <- getDb ;; ret (find (fun g => String.eqb (Game.id g) id) d).

(** Modelled from the spec: find(filter) of the catalog store; the filter
    itself is [Env.filterGames]. *)
Definition findGames (E : Env.t) (opts : option FilterGameOpts.t) : M (list Game.t) :=
  d <- getDb ;; emit (FoundGames opts) ;;; ret (Env.filterGames E opts d).

(** Modelled from the spec: count() of the catalog store. *)
Definition countGames : M Z :=
  d <- getDb ;; ret (Z.of_nat (length d)).

Fixpoint upsert (g : Game.t) (d : list Game.t) : list Game.t :=
  match d with
  | [] => [g]
  | h :: rest =>
      if String.eqb (Game.id h) (Game.id g) then g :: rest else h :: upsert g rest
  end.

(** Modelled from the spec: update(entry) of the catalog store, which
    replaces the game with the id of the entry or adds the entry. *)
Definition updateGame (g : Game.t) : M unit :=
  d <- getDb ;; setDb (upsert g d).

(** Modelled from the spec: remove(id) of the catalog store. *)
Definition removeGameAndAddApps (id : string) : M unit :=
  d <- getDb ;; setDb (List.filter (fun g => negb (String.eqb (Game.id g) id)) d).

(** Modelled from the spec: findOne(id) for an additional application of
    a game of the catalog. *)
Definition findAddApp (id : string) : M (option AdditionalApplication.t) :=
  d <- getDb ;;
  ret (find (fun a => String.eqb (AdditionalApplication.id a) id)
            (concat (map Game.addApps d))).

(** Modelled from the spec: listLibraries() of the catalog store. *)
Definition findLibraries (E : Env.t) : M (list string) :=
  d <- getDb ;; ret (Env.librariesOf E d).

(** Modelled from the spec: listPlatforms(library) of the catalog store. *)
Definition findPlatforms (E : Env.t) (library : string) : M (list string) :=
  d <- getDb ;; ret (Env.platformsOf E d library).

End GameManager.

(** [v] in a condition. *)
Definition truthy (v : value) : bool :=
  match v with
  | VUndefined | VNull => false
  | VBool b => b
  | VNum (Int n) => negb (n =? 0)
  | VNum NaN => false
  | VStr s => negb (String.eqb s "")
  | VObj _ => true
  end.

Definition nonEmpty (s : string) : bool := negb (String.eqb s "").

(** ** The match of [/ \d+$/] and [parseInt] *)

Fixpoint allDigits (s : string) : bool :=
  match s with
  | EmptyString => true
  | String c r => JS.isDigit c && allDigits r
  end.

(** [s.match(/ \d+$/)]: the text before the match and the match, a space
    and the digits that end the string. *)
Fixpoint matchTrailingNumber (s : string) : option (string * string) :=
  match s with
  | EmptyString => None
  | String c r =>
      if Ascii.eqb c " " && nonEmpty r && allDigits r then Some (EmptyString, s)
      else match matchTrailingNumber r with
           | Some (before, m) => Some (String c before, m)
           | None => None
           end
  end.

Fixpoint parseDigits (s : string) (acc : Z) : Z :=
  match s with
  | EmptyString => acc
  | String c r => if JS.isDigit c then parseDigits r (10 * acc + JS.digitValue c) else acc
  end.

Fixpoint skipSpaces (s : string) : string :=
  match s with
  | String " " r => skipSpaces r
  | _ => s
  end.

(** [parseInt(s)] for white space followed by decimal digits; [None] is
    [NaN]. *)
Definition parseInt (s : string) : option Z :=
  match skipSpaces s with
  | String c r => if JS.isDigit c then Some (parseDigits (String c r) 0) else None
  | EmptyString => None
  end.

(** ** [searchGames], [queryGames], [deletePlaylist] (lines 796-851) *)

Section Back.

Variable E : Env.t.

Definition path_join2 (a b : string) : string := Env.path_join E [a; b].

Definition searchGames (opts : SearchGamesOpts.t) : M (list Game.t) :=
  let filterOpts :=
    FilterGameOpts.mk (SearchGamesOpts.query opts) (SearchGamesOpts.extreme opts)
                      (SearchGamesOpts.broken opts) (SearchGamesOpts.playlist opts) in
  GameManager.findGames E (Some filterOpts).

Definition viewGame (g : Game.t) : ViewGame.t :=
  ViewGame.mk (Game.id g) (Game.title g) (Game.platform g) (Game.tags g)
              (Game.developer g) (Game.publisher g).

Definition queryGames (query : BackQuery.t) : M BackQueryChache.t :=
  s <- getState ;;
  let playlist :=
    find (fun p => match BackQuery.playlistId query with
                   | Some i => String.eqb (GamePlaylist.filename p) i
                   | None => false
                   end) (BackState.playlists s) in
  results <- searchGames
    (SearchGamesOpts.mk (BackQuery.extreme query) (BackQuery.broken query) playlist
       (BackQuery.search query) (BackQuery.orderBy query)
       (BackQuery.orderReverse query) (BackQuery.library query)) ;;
  let viewGames := map viewGame results in
  ret (BackQueryChache.mk query results viewGames).

Definition deletePlaylist (id : string) (folder : string)
  (playlists : list GamePlaylist.t) : M unit :=
  if nonEmpty id then
    match find (fun p => String.eqb (GamePlaylist.filename p) id) playlists with
    | Some playlist =>
        let filepath := path_join2 folder (GamePlaylist.filename playlist) in
        if (JS.strlen folder <? JS.strlen filepath) && JS.startsWith filepath folder
        then unlink filepath
        else ret tt
    | None => ret tt
    end
  else ret tt.

(** ** The query cache (lines 373-385, 399-411, 484-496)

    The three browse handlers copy the seven fields of the query of the
    request, hash its JSON text, and look the hash up in [state.queries]. *)

Definition copyQuery (q : BackQuery.t) : BackQuery.t :=
  BackQuery.mk (BackQuery.extreme q) (BackQuery.broken q) (BackQuery.library q)
               (BackQuery.search q) (BackQuery.orderBy q) (BackQuery.orderReverse q)
               (BackQuery.playlistId q).

Definition hash_BROWSE_VIEW_PAGE (q : BackQuery.t) : string :=
  let query := copyQuery q in
  Env.sha256_base64 E (JSON_stringify_query query).

Definition hash_BROWSE_VIEW_INDEX (q : BackQuery.t) : string :=
  let query := copyQuery q in
  Env.sha256_base64 E (JSON_stringify_query query).

Definition hash_QUICK_SEARCH (q : BackQuery.t) : string :=
  let query := copyQuery q in
  Env.sha256_base64 E (JSON_stringify_query query).

(** [let cache = state.queries[hash];
     if (!cache) { state.queries[hash] = cache = await queryGames(state, query); }] *)
Definition cachedQuery (hash : string) (query : BackQuery.t) : M BackQueryChache.t :=
  s <- getState ;;
  match BackState.queries s !! hash with
  | Some cache => ret cache
  | None =>
      cache <- queryGames query ;;
      modifyState (fun s => BackState.set_queries (<[hash := cache]> (BackState.queries s)) s) ;;;
      ret cache
  end.

(** ** The playlist file name (lines 598-636) *)

(** [while (n < 100) { ... }], at most [fuel] times. *)
Fixpoint probe (fuel : nat) (folder part0 part1 : string) (n : Z) : M string :=
  match fuel with
  | O => ret ""
  | S fuel' =>
      if n <? 100 then
        let str := part0 +:+ JS.numberToString n +:+ part1 in
        taken <- pathExists (path_join2 folder str) ;;
        if taken then probe fuel' folder part0 part1 (n + 1) else ret str
      else ret ""
  end.

(** The last element of [parts] and [parts] with it replaced. *)
Definition lastPart (parts : list string) : string := List.last parts "".

Definition setLastPart (parts : list string) (s : string) : list string :=
  match parts with
  | [] => []
  | _ => removelast parts ++ [s]
  end.

(** The statements between the test of the name and the loop: [parts]
    after the split at the last dot, the number taken from the last part,
    and the space added to the first part. The result is [n], [parts[0] ||
    ''] and [parts[1] || '']; [n] is [None] when it is [NaN]. *)
Definition numberedParts (filename : string) : option Z * string * string :=
  let dotIndex := JS.lastIndexOf filename "." in
  let parts :=
    if 0 <=? dotIndex
    then [JS.substr filename 0 dotIndex; JS.substrFrom filename dotIndex]
    else [filename] in
  let '(n, parts) :=
    match matchTrailingNumber (lastPart parts) with
    | Some (before, m) => (option_map (Z.add 1) (parseInt m), setLastPart parts before)
    | None => (Some 2, parts)
    end in
  let parts :=
    match parts with
    | p0 :: _ :: _ =>
        if nonEmpty p0 && negb (JS.endsWithChar p0 " ")
        then (p0 +:+ " ") :: tl parts
        else parts
    | _ => parts
    end in
  (n, nth 0 parts "", nth 1 parts "").

Definition coolFilename (folder filename : string) : M string :=
  taken <- pathExists (path_join2 folder filename) ;;
  if taken then
    let '(n, part0, part1) := numberedParts filename in
    match n with
    | Some n => probe (Z.to_nat (100 - n)) folder part0 part1 n
    | None => ret ""
    end
  else ret filename.

End Back.

(** ** [registerRequestCallbacks] (lines 41-751)

    One definition per registered callback, named after its [BackIn]
    code; [target] is [event.target] and [id] is [req.id]. *)

Section Handlers.

Variable E : Env.t.

Definition response (id : string) (type : BackOut.t) (data : ResponseData)
  : WrappedResponse.t := WrappedResponse.mk id type data.

Definition isNative (s : BackState.t) (platform : string) : bool :=
  existsb (fun p => String.eqb p platform) (Config.nativePlatforms (BackState.config s)).

(** [state.init[key]] in a condition. *)
Definition initDone (s : BackState.t) (key : string) : bool :=
  match find (fun kv => String.eqb (fst kv) key) (BackState.init s) with
  | Some kv => snd kv
  | None => false
  end.

Definition errorEntry (e : value) : value :=
  VObj [("source", VStr "Launcher"); ("content", e)].

(* lines 42-44 *)
Definition on_ADD_LOG (target : Channel) (id : string) (data : value) : M unit :=
  log data (Some id).

(* lines 46-55 *)
Definition on_GET_MAIN_INIT_DATA (target : Channel) (id : string) : M unit :=
  s <- getState ;;
  respond target (response id BackOut.GET_MAIN_INIT_DATA
    (DMainInit (VObj (BackState.preferences s)) (BackState.config s))).

(** [platforms[library] = p] on a plain object: the key [__proto__] is
    the accessor of [Object.prototype], and the assignment of an array to
    it replaces the prototype and adds no property. *)
Definition setRecord {V : Type} (props : list (string * V)) (key : string) (v : V)
  : list (string * V) :=
  if String.eqb key "__proto__" then props else setProp props key v.

Fixpoint findAllPlatforms (libraries : list string)
  (platforms : list (string * list string)) : M (list (string * list string)) :=
  match libraries with
  | [] => ret platforms
  | library :: rest =>
      p <- GameManager.findPlatforms E library ;;
      findAllPlatforms rest (setRecord platforms library p)
  end.

(* lines 57-93 *)
Definition on_GET_RENDERER_INIT_DATA (target : Channel) (id : string) : M unit :=
  s <- getState ;;
  let services :=
    (if truthy (lookupProp (BackState.services s) "server")
     then [Env.procToService E (lookupProp (BackState.services s) "server")] else [])
    ++ (if truthy (lookupProp (BackState.services s) "redirector")
        then [Env.procToService E (lookupProp (BackState.services s) "redirector")] else []) in
  modifyState (BackState.set_languageContainer
    (Env.createContainer E (BackState.languages s)
       (lookupProp (BackState.preferences s) "currentLanguage")
       (BackState.localeCode s)
       (lookupProp (BackState.preferences s) "fallbackLanguage"))) ;;;
  libraries <- GameManager.findLibraries E ;;
  platforms <- findAllPlatforms libraries [] ;;
  s <- getState ;;
  respond target (response id BackOut.GENERIC_RESPONSE
    (DRendererInit (RendererInitData.mk
       (VObj (BackState.preferences s)) (BackState.config s)
       (BackState.fileServerPort s) (BackState.log s) services
       (BackState.languages s) (BackState.languageContainer s)
       (BackState.themeFiles s)
       (if initDone s (Env.BackInit_PLAYLISTS E)
        then Some (BackState.playlists s) else None)
       libraries platforms (BackState.localeCode s)))).

(** [state.initEmitter.once(init, () => respond(event.target, ...))] *)
Definition once (init : string) (target : Channel) : M unit :=
  modifyState (fun s =>
    BackState.set_initEmitter (BackState.initEmitter s ++ [InitListener.mk init target]) s).

(** The answer of a listener added by [once], when its event is emitted. *)
Definition initEvent (init : string) : WrappedResponse.t :=
  response "" BackOut.INIT_EVENT (DInitEvent [init]).

Fixpoint initListenLoop (target : Channel) (keys : list (string * bool))
  (done : list string) : M (list string) :=
  match keys with
  | [] => ret done
  | (init, isDone) :: rest =>
      if isDone then initListenLoop target rest (done ++ [init])
      else once init target ;;; initListenLoop target rest done
  end.

(* lines 95-117 *)
Definition on_INIT_LISTEN (target : Channel) (id : string) : M unit :=
  s <- getState ;;
  done <- initListenLoop target (BackState.init s) [] ;;
  respond target (response id BackOut.INIT_EVENT (DInitEvent done)).

(* lines 119-129 *)
Definition on_GET_SUGGESTIONS (target : Channel) (id : string) : M unit :=
  games <- GameManager.findGames E None ;;
  libraries <- GameManager.findLibraries E ;;
  respond target (response id BackOut.GENERIC_RESPONSE
    (DSuggestions (Env.getSuggestions E games libraries)
                  (Env.findMostUsedApplicationPaths E games))).

(* lines 131-137 *)
Definition on_GET_GAMES_TOTAL (target : Channel) (id : string) : M unit :=
  total <- GameManager.countGames ;;
  respond target (response id BackOut.GENERIC_RESPONSE (DGamesTotal total)).

(* lines 139-149 *)
Definition on_SET_LOCALE (target : Channel) (id : string) (data : string) : M unit :=
  modifyState (BackState.set_localeCode data) ;;;
  respond target (response id BackOut.LOCALE_UPDATE (DLocaleUpdate data)).

(* lines 151-157 *)
Definition on_GET_EXEC (target : Channel) (id : string) : M unit :=
  s <- getState ;;
  respond target (response id BackOut.GENERIC_RESPONSE (DExec (BackState.execMappings s))).

(* lines 159-180 *)
Definition on_LAUNCH_ADDAPP (target : Channel) (id : string) (addAppId : string) : M unit :=
  addApp <- GameManager.findAddApp addAppId ;;
  match addApp with
  | Some addApp =>
      s <- getState ;;
      emit (Launched (LaunchAdditionalApplication addApp
        match AdditionalApplication.parentGamePlatform addApp with
        | Some platform => isNative s platform
        | None => false
        end))
  | None => ret tt
  end ;;;
  respond target (response id BackOut.GENERIC_RESPONSE DUndefined).

(* lines 182-204 *)
Definition on_LAUNCH_GAME (target : Channel) (id : string) (gameId : string) : M unit :=
  game <- GameManager.findGame gameId ;;
  match game with
  | Some game =>
      s <- getState ;;
      emit (Launched (LaunchGame game (isNative s (Game.platform game))))
  | None => ret tt
  end ;;;
  respond target (response id BackOut.GENERIC_RESPONSE DUndefined).

Definition clearQueries : M unit := modifyState (BackState.set_queries ∅).

(* lines 206-220 *)
Definition on_SAVE_GAME (target : Channel) (id : string)
  (game : Game.t) (library : option string) : M unit :=
  GameManager.updateGame game ;;;
  clearQueries ;;;
  gamesTotal <- GameManager.countGames ;;
  respond target (response id BackOut.BROWSE_CHANGE (DBrowseChange library gamesTotal)).

(* lines 222-236 *)
Definition on_DELETE_GAME (target : Channel) (id : string) (gameId : string) : M unit :=
  GameManager.removeGameAndAddApps gameId ;;;
  clearQueries ;;;
  gamesTotal <- GameManager.countGames ;;
  respond target (response id BackOut.BROWSE_CHANGE (DBrowseChange None gamesTotal)).

Fixpoint copyAddApps (addApps : list AdditionalApplication.t)
  : M (list AdditionalApplication.t) :=
  match addApps with
  | [] => ret []
  | a :: rest =>
      n <- choose ;;
      rest' <- copyAddApps rest ;;
      ret (AdditionalApplication.mk (Env.uuid E n) (AdditionalApplication.name a)
             (AdditionalApplication.parentGamePlatform a) :: rest')
  end.

(** The path of the image of a game below an image folder. *)
Definition imageLast (gameId : string) : string :=
  Env.path_join E [JS.substr gameId 0 2; JS.substr gameId 2 2; gameId +:+ ".png"].

(** [try { if (await pathExists(old)) { await mkdir(dirname(new)); await
    copyFile(old, new); } } catch (e) { console.error(e); }] *)
Definition copyImage (withDir : bool) (oldPath newPath : string) : M unit :=
  try_catch
    (found <- mayThrow (pathExists oldPath) ;;
     if found then
       when withDir (mayThrow (mkdir (Env.path_dirname E newPath))) ;;;
       mayThrow (copyFile oldPath newPath)
     else ret tt)
    (fun _ => emit ConsoleError).

(* lines 238-291. [GameManager.updateGame(newGame)] is called without
   [await] (line 253): the update is taken here to land before the next
   statement of the handler. *)
Definition on_DUPLICATE_GAME (target : Channel) (id : string)
  (gameId : string) (dupeImages : bool) : M unit :=
  game <- GameManager.findGame gameId ;;
  match game with
  | Some game =>
      n <- choose ;;
      newAddApps <- copyAddApps (Game.addApps game) ;;
      let newGame :=
        Game.mk (Env.uuid E n) (Game.title game) (Game.platform game) (Game.tags game)
                (Game.developer game) (Game.publisher game) (Game.library game)
                (Game.extreme game) (Game.broken game) newAddApps in
      GameManager.updateGame newGame ;;;
      when dupeImages
        (s <- getState ;;
         let imageFolder := path_join2 E (Config.flashpointPath (BackState.config s))
                                         (Config.imageFolderPath (BackState.config s)) in
         let oldLast := imageLast (Game.id game) in
         let newLast := imageLast (Game.id newGame) in
         copyImage true (Env.path_join E [imageFolder; Env.LOGOS E; oldLast])
                        (Env.path_join E [imageFolder; Env.LOGOS E; newLast]) ;;;
         copyImage true (Env.path_join E [imageFolder; Env.SCREENSHOTS E; oldLast])
                        (Env.path_join E [imageFolder; Env.SCREENSHOTS E; newLast])) ;;;
      clearQueries
  | None => ret tt
  end ;;;
  gamesTotal <- GameManager.countGames ;;
  respond target (response id BackOut.BROWSE_CHANGE (DBrowseChange None gamesTotal)).

(* lines 293-330 *)
Definition on_EXPORT_GAME (target : Channel) (id : string)
  (gameId location : string) (metaOnly : bool) : M unit :=
  found <- pathExists (if metaOnly then Env.path_dirname E location else location) ;;
  when found
    (game <- GameManager.findGame gameId ;;
     match game with
     | Some game =>
         try_catch
           (mayThrow (writeFile (if metaOnly then location
                                 else path_join2 E location "meta.txt")))
           (fun _ => emit ConsoleError) ;;;
         when (negb metaOnly)
           (s <- getState ;;
            let imageFolder := path_join2 E (Config.flashpointPath (BackState.config s))
                                            (Config.imageFolderPath (BackState.config s)) in
            let last := imageLast (Game.id game) in
            copyImage false (Env.path_join E [imageFolder; Env.LOGOS E; last])
                            (path_join2 E location "logo.png") ;;;
            copyImage false (Env.path_join E [imageFolder; Env.SCREENSHOTS E; last])
                            (path_join2 E location "ss.png"))
     | None => ret tt
     end) ;;;
  respond target (response id BackOut.GENERIC_RESPONSE DUndefined).

(* lines 332-340 *)
Definition on_GET_GAME (target : Channel) (id : string) (gameId : string) : M unit :=
  game <- GameManager.findGame gameId ;;
  respond target (response id BackOut.GENERIC_RESPONSE (DGame game)).

(* lines 342-349 *)
Definition on_GET_ALL_GAMES (target : Channel) (id : string) : M unit :=
  games <- GameManager.findGames E None ;;
  respond target (response id BackOut.GENERIC_RESPONSE (DAllGames games)).

(** [for (let i = 0; i < count; i++)] with
    [index = (Math.random() * allGames.length) | 0]. *)
Fixpoint pickGames (count : nat) (allGames pickedGames : list Game.t) : M (list Game.t) :=
  match count with
  | O => ret pickedGames
  | S count' =>
      r <- choose ;;
      let index := (r mod (length allGames))%nat in
      match allGames !! index with
      | Some game => pickGames count' (delete index allGames) (pickedGames ++ [game])
      | None => pickGames count' allGames pickedGames
      end
  end.

(* lines 351-370 *)
Definition on_RANDOM_GAMES (target : Channel) (id : string) (count : Z) : M unit :=
  allGames <- GameManager.findGames E None ;;
  pickedGames <- pickGames (Z.to_nat count) allGames [] ;;
  respond target (response id BackOut.GENERIC_RESPONSE (DRandomGames pickedGames)).

(* lines 372-396 *)
Definition on_BROWSE_VIEW_PAGE (target : Channel) (id : string)
  (q : BackQuery.t) (offset limit : Z) : M unit :=
  let query := copyQuery q in
  let hash := hash_BROWSE_VIEW_PAGE E q in
  cache <- cachedQuery E hash query ;;
  respond target (response id BackOut.BROWSE_VIEW_PAGE_RESPONSE
    (DBrowseViewPage
       (slice (BackQueryChache.viewGames cache) offset (offset + limit))
       offset
       (Z.of_nat (length (BackQueryChache.games cache))))).

(** [for (let i = 0; ...) if (viewGames[i].id === gameId) { index = i; break; }] *)
Fixpoint indexOfGame (viewGames : list ViewGame.t) (gameId : string) (i : Z) : Z :=
  match viewGames with
  | [] => -1
  | g :: rest =>
      if String.eqb (ViewGame.id g) gameId then i else indexOfGame rest gameId (i + 1)
  end.

(* lines 398-426 *)
Definition on_BROWSE_VIEW_INDEX (target : Channel) (id : string)
  (q : BackQuery.t) (gameId : string) : M unit :=
  let query := copyQuery q in
  let hash := hash_BROWSE_VIEW_INDEX E q in
  cache <- cachedQuery E hash query ;;
  let index := indexOfGame (BackQueryChache.viewGames cache) gameId 0 in
  respond target (response id BackOut.GENERIC_RESPONSE (DBrowseViewIndex index)).

Definition imagePath (s : BackState.t) (folder id : string) : string * string :=
  let imageFolder := path_join2 E (Config.flashpointPath (BackState.config s))
                                  (Config.imageFolderPath (BackState.config s)) in
  (imageFolder,
   Env.path_join E [imageFolder; folder; JS.substr id 0 2; JS.substr id 2 2; id +:+ ".png"]).

(* lines 428-454 *)
Definition on_SAVE_IMAGE (target : Channel) (id : string)
  (reqFolder reqId content : string) : M unit :=
  s <- getState ;;
  let folder := Env.sanitizeFilename E reqFolder in
  let imageId := Env.sanitizeFilename E reqId in
  let '(imageFolder, fullPath) := imagePath s folder imageId in
  when (JS.startsWith fullPath imageFolder)
    (try_catch
       (mayThrow (mkdir (Env.path_dirname E fullPath)) ;;;
        mayThrow (writeFile fullPath))
       (fun e => log (errorEntry e) None)) ;;;
  respond target (response id BackOut.IMAGE_CHANGE (DImageChange imageId folder)).

(* lines 456-481 *)
Definition on_DELETE_IMAGE (target : Channel) (id : string)
  (reqFolder reqId : string) : M unit :=
  s <- getState ;;
  let folder := Env.sanitizeFilename E reqFolder in
  let imageId := Env.sanitizeFilename E reqId in
  let '(imageFolder, fullPath) := imagePath s folder imageId in
  when (JS.startsWith fullPath imageFolder)
    (try_catch
       (isFile <- mayThrow (statIsFile fullPath) ;;
        when isFile (mayThrow (unlink fullPath)))
       (fun error =>
          match error with
          | VStr "ENOENT" => ret tt
          | _ => emit ConsoleError
          end)) ;;;
  respond target (response id BackOut.IMAGE_CHANGE (DImageChange imageId folder)).

(** [for (let i = 0; ...) if (games[i].title.toLowerCase().startsWith(search))
    { index = i; result = games[i].id; break; }] *)
Fixpoint quickSearch (games : list Game.t) (search : string) (i : Z)
  : option string * option Z :=
  match games with
  | [] => (None, None)
  | g :: rest =>
      if JS.startsWith (JS.toLowerCase (Game.title g)) search
      then (Some (Game.id g), Some i)
      else quickSearch rest search (i + 1)
  end.

(* lines 483-516 *)
Definition on_QUICK_SEARCH (target : Channel) (id : string)
  (q : BackQuery.t) (search : string) : M unit :=
  let query := copyQuery q in
  let hash := hash_QUICK_SEARCH E q in
  cache <- cachedQuery E hash query ;;
  let '(result, index) := quickSearch (BackQueryChache.games cache) search 0 in
  respond target (response id BackOut.GENERIC_RESPONSE (DQuickSearch result index)).

(* lines 518-529 *)
Definition on_UPDATE_CONFIG (target : Channel) (id : string) (data : value) : M unit :=
  s <- getState ;;
  let newConfig := Env.overwriteConfigData E (BackState.config s) data in
  try_catch
    (mayThrow (saveFile (path_join2 E (BackState.configFolder s) (Env.CONFIG_FILENAME E))))
    (fun error => log (errorEntry error) None) ;;;
  respond target (response id BackOut.GENERIC_RESPONSE DUndefined).

(** [typeof v !== 'undefined'] *)
Definition defined (v : value) : bool :=
  match v with
  | VUndefined => false
  | _ => true
  end.

(* lines 531-557 *)
Definition on_UPDATE_PREFERENCES (target : Channel) (id : string) (data : value) : M unit :=
  s <- getState ;;
  dif <- liftOption (difObjects (Env.sameObject E) (Env.defaultPreferencesData E)
                                (VObj (BackState.preferences s)) data) ;;
  match dif with
  | VObj props =>
      let preferences := BackState.preferences s in
      let currentLanguage := lookupProp props "currentLanguage" in
      let fallbackLanguage := lookupProp props "fallbackLanguage" in
      when ((defined currentLanguage
             && negb (strictEq (Env.sameObject E) currentLanguage
                               (lookupProp preferences "currentLanguage")))
            || (defined fallbackLanguage
                && negb (strictEq (Env.sameObject E) fallbackLanguage
                                  (lookupProp preferences "fallbackLanguage"))))
        (modifyState (BackState.set_languageContainer
           (Env.createContainer E (BackState.languages s)
              (if defined currentLanguage then currentLanguage
               else lookupProp preferences "currentLanguage")
              (BackState.localeCode s)
              (if defined fallbackLanguage then fallbackLanguage
               else lookupProp preferences "fallbackLanguage"))) ;;;
         s' <- getState ;;
         broadcast (response "" BackOut.LANGUAGE_CHANGE
                      (DLanguageChange (BackState.languageContainer s')))) ;;;
      modifyState (BackState.set_preferences
                     (Env.overwritePreferenceData E preferences dif)) ;;;
      saveFile (path_join2 E (BackState.configFolder s) (Env.PREFERENCES_FILENAME E))
  | _ => ret tt
  end ;;;
  s <- getState ;;
  respond target (response id BackOut.UPDATE_PREFERENCES_RESPONSE
                    (DPreferences (VObj (BackState.preferences s)))).

(** The names that a plain object inherits from [Object.prototype]: read
    through [o[key]], each is a function or an object, none of which has
    the methods of a managed process. *)
Definition objectPrototypeKeys : list string :=
  ["constructor"; "__defineGetter__"; "__defineSetter__"; "hasOwnProperty";
   "__lookupGetter__"; "__lookupSetter__"; "isPrototypeOf"; "propertyIsEnumerable";
   "toString"; "valueOf"; "__proto__"; "toLocaleString"].

Definition inherited (key : string) : bool :=
  existsb (String.eqb key) objectPrototypeKeys.

(* lines 559-581 *)
Definition on_SERVICE_ACTION (target : Channel) (id : string)
  (serviceId : string) (action : ProcessAction) : M unit :=
  s <- getState ;;
  match find (fun kv => String.eqb (fst kv) serviceId) (BackState.services s) with
  | Some (_, proc) =>
      when (truthy proc)
        match action with
        | START => emit (ProcessCall serviceId START)
        | STOP => emit (ProcessCall serviceId STOP)
        | RESTART => emit (ProcessCall serviceId RESTART)
        | UNHANDLED => emit ConsoleWarn
        end
  | None =>
      (* [state.services[id]] is what the object inherits: [proc.spawn],
         [proc.kill] and [proc.restart] are [undefined], and the call of
         one is a [TypeError] *)
      when (inherited serviceId)
        match action with
        | START | STOP | RESTART => throw (VStr "TypeError")
        | UNHANDLED => emit ConsoleWarn
        end
  end ;;;
  respond target (response id BackOut.GENERIC_RESPONSE DUndefined).

(* lines 583-589 *)
Definition on_GET_PLAYLISTS (target : Channel) (id : string) : M unit :=
  s <- getState ;;
  respond target (response id BackOut.GENERIC_RESPONSE (DPlaylists (BackState.playlists s))).

(** [state.playlistWatcher.getFolder()] in a condition, with its value. *)
Definition usableFolder (s : BackState.t) : option string :=
  match BackState.playlistFolder s with
  | Some folder => if nonEmpty folder then Some folder else None
  | None => None
  end.

(* lines 591-653 *)
Definition on_SAVE_PLAYLIST (target : Channel) (id : string)
  (playlist : GamePlaylist.t) (prevFilename : option string) : M unit :=
  s <- getState ;;
  let filename :=
    Env.sanitizeFilename E
      (if nonEmpty (GamePlaylist.filename playlist) then GamePlaylist.filename playlist
       else GamePlaylist.title playlist +:+ ".json") in
  match usableFolder s with
  | Some folder =>
      when (nonEmpty filename)
        (if match prevFilename with
            | Some prev => String.eqb prev filename
            | None => false
            end
         then saveFile (path_join2 E folder filename)
         else
           cool <- coolFilename E folder filename ;;
           when (nonEmpty cool)
             (saveFile (path_join2 E folder cool) ;;;
              match prevFilename with
              | Some prev =>
                  when (nonEmpty prev) (deletePlaylist E prev folder (BackState.playlists s))
              | None => ret tt
              end))
  | None => ret tt
  end ;;;
  respond target (response id BackOut.GENERIC_RESPONSE DUndefined).

(* lines 655-663 *)
Definition on_DELETE_PLAYLIST (target : Channel) (id : string) (data : string) : M unit :=
  s <- getState ;;
  match usableFolder s with
  | Some folder => deletePlaylist E data folder (BackState.playlists s)
  | None => ret tt
  end ;;;
  respond target (response id BackOut.GENERIC_RESPONSE DUndefined).

(** Modelled from the spec: [importCuration] (./importGame) is not among
    the sources. It is import(params) of the curation importer, which is
    handed [state.gameManager], the Flashpoint path and the image folder:
    the call is recorded; the catalog and the files are afterwards what the
    importer makes of them ([Env.importedCatalog], [Env.importedFiles]). *)
Definition importCuration (curation : value) : M unit :=
  emit (Launched (ImportCuration curation)) ;;;
  d <- getDb ;;
  setDb (Env.importedCatalog E curation d) ;;;
  f <- getFs ;;
  setFs (Env.importedFiles E curation f).

(* lines 665-692 *)
Definition on_IMPORT_CURATION (target : Channel) (id : string) (curation : value) : M unit :=
  error <- try_catch
             (mayThrow (importCuration curation) ;;; ret VUndefined)
             (fun e => ret (Env.errorData E e)) ;;
  respond target (response id BackOut.GENERIC_RESPONSE
                    (DImportCuration (if truthy error then Some error else None))).

(* lines 694-717 *)
Definition on_LAUNCH_CURATION (target : Channel) (id : string)
  (key : string) (platform : string) : M unit :=
  s <- getState ;;
  try_catch
    (mayThrow (emit (Launched (LaunchCuration key (isNative s platform)))))
    (fun e => log (errorEntry e) None) ;;;
  respond target (response id BackOut.GENERIC_RESPONSE DUndefined).

(* lines 719-742 *)
Definition on_LAUNCH_CURATION_ADDAPP (target : Channel) (id : string)
  (curationKey : string) (platform : string) : M unit :=
  s <- getState ;;
  try_catch
    (mayThrow (emit (Launched (LaunchAddAppCuration curationKey (isNative s platform)))))
    (fun e => log (errorEntry e) None) ;;;
  respond target (response id BackOut.GENERIC_RESPONSE DUndefined).

(* lines 744-750 *)
Definition on_QUIT (target : Channel) (id : string) : M unit :=
  respond target (response id BackOut.QUIT DUndefined) ;;;
  emit Exited.

(** [state.socketServer.register(code, callback)] for every code: the
    callback that answers a request. *)
Definition registerRequestCallbacks (target : Channel) (req : WrappedRequest.t) : M unit :=
  let id := WrappedRequest.id req in
  match WrappedRequest.data req with
  | BackIn.ADD_LOG data => on_ADD_LOG target id data
  | BackIn.GET_MAIN_INIT_DATA => on_GET_MAIN_INIT_DATA target id
  | BackIn.GET_RENDERER_INIT_DATA => on_GET_RENDERER_INIT_DATA target id
  | BackIn.INIT_LISTEN => on_INIT_LISTEN target id
  | BackIn.GET_SUGGESTIONS => on_GET_SUGGESTIONS target id
  | BackIn.GET_GAMES_TOTAL => on_GET_GAMES_TOTAL target id
  | BackIn.SET_LOCALE data => on_SET_LOCALE target id data
  | BackIn.GET_EXEC => on_GET_EXEC target id
  | BackIn.LAUNCH_ADDAPP addAppId => on_LAUNCH_ADDAPP target id addAppId
  | BackIn.LAUNCH_GAME gameId => on_LAUNCH_GAME target id gameId
  | BackIn.SAVE_GAME game library => on_SAVE_GAME target id game library
  | BackIn.DELETE_GAME gameId => on_DELETE_GAME target id gameId
  | BackIn.DUPLICATE_GAME gameId dupeImages => on_DUPLICATE_GAME target id gameId dupeImages
  | BackIn.EXPORT_GAME gameId location metaOnly =>
      on_EXPORT_GAME target id gameId location metaOnly
  | BackIn.GET_GAME gameId => on_GET_GAME target id gameId
  | BackIn.GET_ALL_GAMES => on_GET_ALL_GAMES target id
  | BackIn.RANDOM_GAMES count => on_RANDOM_GAMES target id count
  | BackIn.BROWSE_VIEW_PAGE q offset limit => on_BROWSE_VIEW_PAGE target id q offset limit
  | BackIn.BROWSE_VIEW_INDEX q gameId => on_BROWSE_VIEW_INDEX target id q gameId
  | BackIn.SAVE_IMAGE folder imageId content => on_SAVE_IMAGE target id folder imageId content
  | BackIn.DELETE_IMAGE folder imageId => on_DELETE_IMAGE target id folder imageId
  | BackIn.QUICK_SEARCH q search => on_QUICK_SEARCH target id q search
  | BackIn.UPDATE_CONFIG data => on_UPDATE_CONFIG target id data
  | BackIn.UPDATE_PREFERENCES data => on_UPDATE_PREFERENCES target id data
  | BackIn.SERVICE_ACTION serviceId action => on_SERVICE_ACTION target id serviceId action
  | BackIn.GET_PLAYLISTS => on_GET_PLAYLISTS target id
  | BackIn.SAVE_PLAYLIST playlist prevFilename =>
      on_SAVE_PLAYLIST target id playlist prevFilename
  | BackIn.DELETE_PLAYLIST data => on_DELETE_PLAYLIST target id data
  | BackIn.IMPORT_CURATION curation _ _ _ => on_IMPORT_CURATION target id curation
  | BackIn.LAUNCH_CURATION key _ _ platform => on_LAUNCH_CURATION target id key platform
  | BackIn.LAUNCH_CURATION_ADDAPP curationKey _ platform =>
      on_LAUNCH_CURATION_ADDAPP target id curationKey platform
  | BackIn.QUIT => on_QUIT target id
  end.

End Handlers.

(** ** Init events

    [state.initEmitter.emit(init)] of Node's [EventEmitter]: the listeners
    added with [once] for [init] are removed, then called in the order
    they were added. *)
Definition emitInit (init : string) : M unit :=
  s <- getState ;;
  let fired := List.filter (fun l => String.eqb (InitListener.event l) init)
                           (BackState.initEmitter s) in
  let kept := List.filter (fun l => negb (String.eqb (InitListener.event l) init))
                          (BackState.initEmitter s) in
  modifyState (BackState.set_initEmitter kept) ;;;
  forEach fired (fun l => respond (InitListener.target l) (initEvent (InitListener.event l))).

(** Modelled from the spec: the code that completes a stage of the start
    is not among the sources. [complete(name)] transitions [name] to done
    if still pending (a no-op if already done) and triggers the
    notification of every subscriber waiting on [name]. *)
Definition complete (name : string) : M unit :=
  s <- getState ;;
  if initDone s name then ret tt
  else
    modifyState (fun s => BackState.set_init (setProp (BackState.init s) name true) s) ;;;
    emitInit name.

(** The stages that are done, in the order of [state.init]: the list that
    INIT_LISTEN answers with ([snapshot()] in the spec). *)
Definition snapshot (s : BackState.t) : list string :=
  map fst (List.filter snd (BackState.init s)).

(** * Properties *)

#[local] Arguments String.append : simpl nomatch.

(** ** What is read off a run *)

Definition exec {A : Type} (m : M A) (w : World.t) : World.t := snd (m w).

Definition returns {A : Type} (m : M A) (w : World.t) : bool :=
  match fst (m w) with
  | Ok _ => true
  | Throw _ => false
  end.

(** What a run adds to the trace. *)
Definition newTrace {A : Type} (m : M A) (w : World.t) : list Effect :=
  drop (length (World.trace w)) (World.trace (exec m w)).

(** ** Reading a quoted string back

    The first character of a quoted body: [None] at the closing quotation
    mark. *)

Definition hexValue (c : ascii) : N :=
  let n := JS.code c in
  if (n <? 58)%N then (n - 48)%N else (n - 87)%N.

Definition unquoteHead (s : string) : option (ascii * string) :=
  match s with
  | EmptyString => None
  | String c r =>
      if Ascii.eqb c JS.dquote then None
      else if Ascii.eqb c JS.backslash then
        match r with
        | String "b" r' => Some (ascii_of_N 8, r')
        | String "t" r' => Some (ascii_of_N 9, r')
        | String "n" r' => Some (ascii_of_N 10, r')
        | String "f" r' => Some (ascii_of_N 12, r')
        | String "r" r' => Some (ascii_of_N 13, r')
        | String "u" (String _ (String _ (String h (String l r')))) =>
            Some (ascii_of_N (16 * hexValue h + hexValue l), r')
        | String e r' => Some (e, r')
        | EmptyString => None
        end
      else Some (c, r)
  end.

(** ** The window of the spec and the quick search of the spec

    [specPageWindow l offset limit] follows the words of the spec: the
    elements of [l] at the indices [i] with [offset <= i < offset + limit]
    that are within the bounds of [l]. *)
Definition specPageWindow {A : Type} (l : list A) (offset limit : Z) : list A :=
  let len := Z.of_nat (length l) in
  let lo := Z.max offset 0 in
  let hi := Z.min (offset + limit) len in
  take (Z.to_nat (hi - lo)) (drop (Z.to_nat lo) l).

(** [specQuickSearch] follows the words of the spec: the first entry whose
    title, case-folded, starts with the case-folded prefix. *)
Fixpoint specQuickSearch (games : list Game.t) (prefix : string) (i : Z)
  : option string * option Z :=
  match games with
  | [] => (None, None)
  | g :: rest =>
      if JS.startsWith (JS.toLowerCase (Game.title g)) (JS.toLowerCase prefix)
      then (Some (Game.id g), Some i)
      else specQuickSearch rest prefix (i + 1)
  end.

(** ** Counting the answers to a request *)

(** A call [respond(target, response)] whose response carries [id]. *)
Definition isCorrelated (target : Channel) (id : string) (e : Effect) : bool :=
  match e with
  | Sent t r => Nat.eqb t target && String.eqb (WrappedResponse.id r) id
  | _ => false
  end.

Definition correlatedCount (target : Channel) (id : string) (tr : list Effect) : nat :=
  length (List.filter (isCorrelated target id) tr).

(** Every other envelope carries the empty id. *)
Definition envelopeOk (target : Channel) (id : string) (e : Effect) : bool :=
  match e with
  | Sent t r => isCorrelated target id e || String.eqb (WrappedResponse.id r) ""
  | Broadcast r => String.eqb (WrappedResponse.id r) ""
  | _ => true
  end.

(** From [w], the run of [m] returns, calls [respond] with the id of the
    request [n] times, and sends nothing else that carries an id. *)
Definition answersAt (target : Channel) (id : string) (n : nat) {A : Type}
  (m : M A) (w : World.t) : Prop :=
  returns m w = true /\
  exists tr, World.trace (exec m w) = World.trace w ++ tr /\
             correlatedCount target id tr = n /\
             forallb (envelopeOk target id) tr = true.

Definition answers (target : Channel) (id : string) (n : nat) {A : Type} (m : M A) : Prop :=
  forall w, answersAt target id n m w.

(** The same of a run that may throw: it sends no answer. *)
Definition quiet (target : Channel) (id : string) {A : Type} (m : M A) : Prop :=
  forall w, exists tr, World.trace (exec m w) = World.trace w ++ tr /\
                       correlatedCount target id tr = 0%nat /\
                       forallb (envelopeOk target id) tr = true.

(** The number of answers that the claim gives to a request. *)
Definition expectedAnswers (req : WrappedRequest.t) : nat :=
  match WrappedRequest.data req with
  | BackIn.ADD_LOG _ => 0
  | _ => 1
  end.

(** The same of a run that may throw: every envelope it sends is one of
    the two kinds; when it returns it has called [respond] with the id of
    the request [n] times, and when it throws it has not called it. *)
Definition answersIfReturns (target : Channel) (id : string) (n : nat) {A : Type}
  (m : M A) : Prop :=
  forall w, exists tr, World.trace (exec m w) = World.trace w ++ tr /\
                       forallb (envelopeOk target id) tr = true /\
                       correlatedCount target id tr = if returns m w then n else 0%nat.

(** ** An environment and values for the examples

    The digest of the examples is the identity, a sanitized name is the
    name, and a path is its components joined by a solidus. *)

Definition examplePreferences : list (string * value) :=
  [("currentLanguage", VStr "en");
   ("fallbackLanguage", VStr "en");
   ("nested", VObj [("leaf", VNum 1); ("other", VBool true)])].

Definition exampleEnv : Env.t :=
  {| Env.sha256_base64 := fun s => s;
     Env.sanitizeFilename := fun s => s;
     Env.path_join := String.concat "/";
     Env.path_dirname := fun s => s;
     Env.path_resolve := fun s => s;
     Env.uuid := fun n => JS.numberToString (Z.of_nat n);
     Env.filterGames := fun _ d => d;
     Env.librariesOf := fun _ => [];
     Env.platformsOf := fun _ _ => [];
     Env.getSuggestions := fun _ _ => VUndefined;
     Env.findMostUsedApplicationPaths := fun _ => VUndefined;
     Env.createContainer := fun _ _ _ _ => VUndefined;
     Env.procToService := fun v => v;
     Env.overwriteConfigData := fun c _ => c;
     Env.overwritePreferenceData := fun p _ => p;
     Env.defaultPreferencesData := VObj examplePreferences;
     Env.errorData := fun e => e;
     Env.LOGOS := "Logos";
     Env.SCREENSHOTS := "Screenshots";
     Env.CONFIG_FILENAME := "config.json";
     Env.PREFERENCES_FILENAME := "preferences.json";
     Env.BackInit_PLAYLISTS := "1";
     Env.sameObject := fun _ _ => false;
     Env.importedCatalog := fun _ d => d;
     Env.importedFiles := fun _ f => f |}.

Definition exampleState : BackState.t :=
  {| BackState.queries := ∅;
     BackState.playlists := [];
     BackState.init := [("0", true); ("1", false); ("2", false)];
     BackState.initEmitter := [];
     BackState.preferences := examplePreferences;
     BackState.config := Config.mk "fp" "Images" [];
     BackState.configFolder := "cfg";
     BackState.localeCode := "en-US";
     BackState.languages := VUndefined;
     BackState.languageContainer := VUndefined;
     BackState.themeFiles := [];
     BackState.execMappings := VUndefined;
     BackState.log := [];
     BackState.fileServerPort := 12001;
     BackState.services := [];
     BackState.playlistFolder := Some "Playlists" |}.

Definition exampleWorld (s : BackState.t) (d : list Game.t) (f : gset string) : World.t :=
  World.mk s d f [] (fun _ => O) O.

Definition exampleGame (id title : string) : Game.t :=
  Game.mk id title "Flash" "" "" "" "arcade" false false [].

Definition exampleQuery : BackQuery.t :=
  BackQuery.mk false false (Some "arcade") "mario" "title" "ascending" None.

(** ** The cache after a change of the catalog *)

(** The options that [queryGames] passes to [GameManager.findGames]. *)
Definition queryOpts (s : BackState.t) (query : BackQuery.t) : FilterGameOpts.t :=
  FilterGameOpts.mk (BackQuery.search query) (BackQuery.extreme query)
    (BackQuery.broken query)
    (find (fun p => match BackQuery.playlistId query with
                    | Some i => String.eqb (GamePlaylist.filename p) i
                    | None => false
                    end) (BackState.playlists s)).

(** The entry that [queryGames] computes from a state and a catalog. *)
Definition queryResult (E : Env.t) (s : BackState.t) (d : list Game.t)
  (query : BackQuery.t) : BackQueryChache.t :=
  let results := Env.filterGames E (Some (queryOpts s query)) d in
  BackQueryChache.mk query results (map viewGame results).

(** The request saves or deletes a game, or duplicates a game that is in
    the catalog. *)
Definition changesCatalog (req : WrappedRequest.t) (w : World.t) : Prop :=
  match WrappedRequest.data req with
  | BackIn.SAVE_GAME _ _ => True
  | BackIn.DELETE_GAME _ => True
  | BackIn.DUPLICATE_GAME gameId _ =>
      is_Some (find (fun g => String.eqb (Game.id g) gameId) (World.db w))
  | _ => False
  end.

(** The query of a browse-page, browse-index or quick-search request. *)
Definition browseQuery (req : WrappedRequest.t) : option BackQuery.t :=
  match WrappedRequest.data req with
  | BackIn.BROWSE_VIEW_PAGE q _ _ => Some q
  | BackIn.BROWSE_VIEW_INDEX q _ => Some q
  | BackIn.QUICK_SEARCH q _ => Some q
  | _ => None
  end.

(** The run ends with an empty cache. *)
Definition clears {A : Type} (m : M A) : Prop :=
  forall w, returns m w = true /\ BackState.queries (World.state (exec m w)) = ∅.

Definition total {A : Type} (m : M A) : Prop := forall w, returns m w = true.

Definition keepsState {A : Type} (m : M A) : Prop :=
  forall w, returns m w = true /\ World.state (exec m w) = World.state w.

(** A stale entry for the examples: one game that is no longer in the
    catalog. *)
Definition staleEntry : BackQueryChache.t :=
  BackQueryChache.mk exampleQuery [exampleGame "g1" "Mario"]
                     [viewGame (exampleGame "g1" "Mario")].

Definition staleState : BackState.t :=
  BackState.set_queries
    {[ hash_BROWSE_VIEW_PAGE exampleEnv exampleQuery := staleEntry ]} exampleState.

(** A cached entry of three games for the examples. *)
Definition threeGames : list Game.t :=
  [exampleGame "g1" "Mario"; exampleGame "g2" "Mario Kart"; exampleGame "g3" "Metroid"].

Definition threeEntry : BackQueryChache.t :=
  BackQueryChache.mk exampleQuery threeGames (map viewGame threeGames).

Definition threeState : BackState.t :=
  BackState.set_queries
    {[ hash_BROWSE_VIEW_PAGE exampleEnv exampleQuery := threeEntry ]} exampleState.

(** The title of the game, in lower case, starts with the text. *)
Definition titleStartsWith (search : string) (g : Game.t) : bool :=
  JS.startsWith (JS.toLowerCase (Game.title g)) search.

(** ** The allocation of the spec

    [specAllocate taken desired] follows the words of the spec: the name
    is split into stem and extension, the number is a trailing run of
    digits preceded by a space in the stem (the next value is 2 when there
    is none), and the candidates are the stem, one space, the number and
    the extension, for the numbers up to 99. [None] is the failure of the
    allocation. *)
Fixpoint specProbe (fuel : nat) (taken : string -> bool) (stem ext : string) (n : Z)
  : option string :=
  match fuel with
  | O => None
  | S fuel' =>
      let candidate := stem +:+ " " +:+ JS.numberToString n +:+ ext in
      if taken candidate then specProbe fuel' taken stem ext (n + 1) else Some candidate
  end.

Definition specAllocate (taken : string -> bool) (desired : string) : option string :=
  if taken desired then
    let dotIndex := JS.lastIndexOf desired "." in
    let '(stem, ext) :=
      if 0 <=? dotIndex
      then (JS.substr desired 0 dotIndex, JS.substrFrom desired dotIndex)
      else (desired, "") in
    let '(stem, next) :=
      match matchTrailingNumber stem with
      | Some (before, m) => (before, default 2 (option_map (Z.add 1) (parseInt m)))
      | None => (stem, 2)
      end in
    specProbe (Z.to_nat (100 - next)) taken stem ext next
  else Some desired.

(** Whether a name is taken in the folder of the playlists of a world. *)
Definition takenIn (E : Env.t) (folder : string) (w : World.t) (name : string) : bool :=
  bool_decide (path_join2 E folder name ∈ World.fs w).

(** A folder of playlists with the given names. *)
Definition folderOf (names : list string) : gset string :=
  list_to_set (map (path_join2 exampleEnv "Playlists") names).

(** The names [Foo 2.json] to [Foo 99.json]. *)
Definition numberedNames : list string :=
  map (fun k => "Foo " +:+ JS.numberToString k +:+ ".json") (seqZ 2 98).

(** ** The loop of [difObjects]

    [difKeys] is the [for-in] loop of [difObjects] from a key of the
    template on, with [dif] as it is at that key. *)
Definition difKeys (sameObject : value -> value -> bool) (a b : value)
  : list (string * value) -> option (list (string * value)) -> option value :=
  fix loop (keys : list (string * value)) (dif : option (list (string * value)))
    {struct keys} : option value :=
    match keys with
    | [] => Some (difValue dif)
    | (key, tkey) :: keys' =>
        match getProp a key, getProp b key with
        | Some akey, Some bkey =>
            if negb (strictEq sameObject akey bkey)
               && negb (strictEq sameObject bkey VUndefined) then
              if typeofObject tkey && typeofObject akey && typeofObject bkey then
                match difObjects sameObject tkey akey bkey with
                | None => None
                | Some (VObj sub) => loop keys' (assign dif key (VObj sub))
                | Some _ => loop keys' dif
                end
              else loop keys' (assign dif key bkey)
            else loop keys' dif
        | _, _ => None
        end
    end.

(** The value is not [null] where the template is an object: the type of
    a preferences value and of a part of one. *)
Fixpoint noNullGroup (template v : value) {struct template} : bool :=
  match template with
  | VObj tprops =>
      match v with
      | VNull => false
      | VObj vprops =>
          forallb (fun kt => noNullGroup (snd kt) (lookupProp vprops (fst kt))) tprops
      | _ => true
      end
  | _ => true
  end.

(** The two objects have the same value at every key but one. *)
Definition sameExceptAt (key : string) (p q : list (string * value)) : Prop :=
  forall k, k <> key -> lookupProp q k = lookupProp p k.

(** The keys of an object. *)
Definition keysOf (v : value) : list string :=
  match v with
  | VObj d => map fst d
  | _ => []
  end.

(** ** Init events: listeners and notifications *)

(** [respond(ch, { id: '', type: INIT_EVENT, data: { done: [init] } })] *)
Definition isNotification (ch : Channel) (init : string) (e : Effect) : bool :=
  match e with
  | Sent t (WrappedResponse.mk id BackOut.INIT_EVENT (DInitEvent [i])) =>
      Nat.eqb t ch && String.eqb id "" && String.eqb i init
  | _ => false
  end.

Definition notificationsTo (ch : Channel) (init : string) (tr : list Effect) : nat :=
  length (List.filter (isNotification ch init) tr).

Definition isListener (ch : Channel) (init : string) (l : InitListener.t) : bool :=
  String.eqb (InitListener.event l) init && Nat.eqb (InitListener.target l) ch.

(** The listeners that wait for [init] on behalf of [ch]. *)
Definition listenersOf (ch : Channel) (init : string) (s : BackState.t) : nat :=
  length (List.filter (isListener ch init) (BackState.initEmitter s)).

(** The listeners that a request of [target] adds. *)
Definition addedListeners (target : Channel) (keys : list (string * bool))
  : list InitListener.t :=
  map (fun kv => InitListener.mk (fst kv) target)
      (List.filter (fun kv => negb (snd kv)) keys).

(** The envelopes that the listeners send when they are called. *)
Definition firedEvents (ls : list InitListener.t) : list Effect :=
  map (fun l => Sent (InitListener.target l) (initEvent (InitListener.event l))) ls.

Definition changedPreferences : list (string * value) :=
  [("currentLanguage", VStr "en");
   ("fallbackLanguage", VStr "en");
   ("nested", VObj [("leaf", VNum 2); ("other", VBool true)])].

(** ** Further definitions for the properties of the handlers *)

(** The pages that a caller gets when it asks for [n] pages of [k] entries
    one after the other, starting at [offset], put end to end. *)
Fixpoint pagesFrom {A : Type} (l : list A) (k : Z) (n : nat) (offset : Z) : list A :=
  match n with
  | O => []
  | S n' => slice l offset (offset + k) ++ pagesFrom l k n' (offset + k)
  end.

(** The view entry has the id. *)
(** The games of the page that a run of the browse-page handler answers
    with. *)
Definition pageGames (tr : list Effect) : list ViewGame.t :=
  match last tr with
  | Some (Sent _ r) =>
      match WrappedResponse.data r with
      | DBrowseViewPage games _ _ => games
      | _ => []
      end
  | _ => []
  end.

(** The games answered to [n] browse-page requests for one query, with the
    limit [k] and the offsets [offset], [offset + k], ..., made one after
    the other from [w]. *)
Fixpoint browsePages (E : Env.t) (target : Channel) (id : string) (q : BackQuery.t)
  (k : Z) (n : nat) (offset : Z) (w : World.t) : list ViewGame.t :=
  match n with
  | O => []
  | S n' =>
      let run := on_BROWSE_VIEW_PAGE E target id q offset k in
      pageGames (newTrace run w) ++ browsePages E target id q k n' (offset + k) (exec run w)
  end.

Definition viewHasId (gameId : string) (g : ViewGame.t) : bool :=
  String.eqb (ViewGame.id g) gameId.

(** ** What a run leaves as it is

    [keeps R m]: the world after a run of [m], whether the run returns or
    throws, is related by [R] to the world before it. *)
Definition keeps (R : World.t -> World.t -> Prop) {A : Type} (m : M A) : Prop :=
  forall w, R w (exec m w).

(** A step that changes neither the catalog, nor the files, nor the trace,
    nor the cache of the queries, nor the playlists. *)
Definition quietStep (w w' : World.t) : Prop :=
  World.db w' = World.db w /\
  World.fs w' = World.fs w /\
  World.trace w' = World.trace w /\
  BackState.queries (World.state w') = BackState.queries (World.state w) /\
  BackState.playlists (World.state w') = BackState.playlists (World.state w).

(** The relations that runs are followed with: reflexive and transitive. *)
Record Frame (R : World.t -> World.t -> Prop) : Prop := {
  frame_refl : forall w, R w w;
  frame_trans : forall a b c, R a b -> R b c -> R a c;
}.

(** The relation holds of every quiet step. *)
Definition admitsQuiet (R : World.t -> World.t -> Prop) : Prop :=
  forall w w', quietStep w w' -> R w w'.

Definition sameDb (w w' : World.t) : Prop := World.db w' = World.db w.

Definition sameFs (w w' : World.t) : Prop := World.fs w' = World.fs w.

Definition sameQueries (w w' : World.t) : Prop :=
  BackState.queries (World.state w') = BackState.queries (World.state w).

Definition sameState (w w' : World.t) : Prop := World.state w' = World.state w.

(** The run adds to the trace only effects that satisfy [P]. *)
Definition emitsOnly (P : Effect -> bool) (w w' : World.t) : Prop :=
  exists tr, World.trace w' = World.trace w ++ tr /\ forallb P tr = true.

(** The requests whose handlers call [GameManager.updateGame] or
    [GameManager.removeGameAndAddApps]. *)
Definition writesCatalog (d : BackIn.t) : bool :=
  match d with
  | BackIn.SAVE_GAME _ _ | BackIn.DELETE_GAME _ | BackIn.DUPLICATE_GAME _ _ => true
  | _ => false
  end.

(** The requests whose handlers call code that is not among the sources
    and hand it the state, the catalog or the paths of the folders:
    [log], the launcher of games, the importer of curations, the methods
    of a managed process and [exit]. What such a call leaves as it was is
    not known from this file. *)
Definition callsUnknown (d : BackIn.t) : bool :=
  match d with
  | BackIn.ADD_LOG _ | BackIn.LAUNCH_ADDAPP _ | BackIn.LAUNCH_GAME _
  | BackIn.SAVE_IMAGE _ _ _ | BackIn.UPDATE_CONFIG _
  | BackIn.SERVICE_ACTION _ _ | BackIn.IMPORT_CURATION _ _ _ _
  | BackIn.LAUNCH_CURATION _ _ _ _ | BackIn.LAUNCH_CURATION_ADDAPP _ _ _
  | BackIn.QUIT => true
  | _ => false
  end.

(** The requests after which the catalog may not be what the handler
    left: those of [callsUnknown], and DUPLICATE_GAME, which does not
    await the update of the copy. *)
Definition unsettled (d : BackIn.t) : bool :=
  match d with
  | BackIn.DUPLICATE_GAME _ _ => true
  | _ => callsUnknown d
  end.

(** The requests whose handlers write, copy or delete a file. *)
Definition writesFiles (d : BackIn.t) : bool :=
  match d with
  | BackIn.DUPLICATE_GAME _ _ | BackIn.EXPORT_GAME _ _ _
  | BackIn.SAVE_IMAGE _ _ _ | BackIn.DELETE_IMAGE _ _
  | BackIn.UPDATE_CONFIG _ | BackIn.UPDATE_PREFERENCES _
  | BackIn.SAVE_PLAYLIST _ _ | BackIn.DELETE_PLAYLIST _ => true
  | _ => false
  end.

(** The requests whose handlers assign a field of the state:
    [localeCode], [languageContainer], [preferences], [queries], or add a
    listener to [initEmitter]. *)
Definition writesState (d : BackIn.t) : bool :=
  match d with
  | BackIn.GET_RENDERER_INIT_DATA | BackIn.INIT_LISTEN | BackIn.SET_LOCALE _
  | BackIn.SAVE_GAME _ _ | BackIn.DELETE_GAME _ | BackIn.DUPLICATE_GAME _ _
  | BackIn.BROWSE_VIEW_PAGE _ _ _ | BackIn.BROWSE_VIEW_INDEX _ _
  | BackIn.QUICK_SEARCH _ _ | BackIn.UPDATE_PREFERENCES _ => true
  | _ => false
  end.

(** The requests whose handlers assign [state.queries] or a key of it. *)
Definition writesQueries (d : BackIn.t) : bool :=
  match d with
  | BackIn.SAVE_GAME _ _ | BackIn.DELETE_GAME _ | BackIn.DUPLICATE_GAME _ _
  | BackIn.BROWSE_VIEW_PAGE _ _ _ | BackIn.BROWSE_VIEW_INDEX _ _
  | BackIn.QUICK_SEARCH _ _ => true
  | _ => false
  end.

(** Every entry of the cache is stored under the hash of its own query
    and is what [queryGames] computes for that query from the catalog and
    the playlists as they are. *)
Definition cacheFresh (E : Env.t) (w : World.t) : Prop :=
  forall (h : string) (c : BackQueryChache.t),
    BackState.queries (World.state w) !! h = Some c ->
    h = Env.sha256_base64 E (JSON_stringify_query (BackQueryChache.query c)) /\
    c = queryResult E (World.state w) (World.db w) (BackQueryChache.query c).

Definition keepsFresh (E : Env.t) (w w' : World.t) : Prop :=
  cacheFresh E w -> cacheFresh E w'.

(** The effects on the files: [writeFile], [copyFile], [mkdir], [unlink]. *)
Definition isFileEffect (e : Effect) : bool :=
  match e with
  | WroteFile _ | CopiedFile _ _ | MadeDir _ | Unlinked _ => true
  | _ => false
  end.

Definition notFileEffect (e : Effect) : bool := negb (isFileEffect e).

(** A world with a cached query and a game, to run requests in. *)
Definition oneGameWorld : World.t :=
  exampleWorld staleState [exampleGame "g1" "Alpha"] ∅.

(** A call of [GameManager.findGames]. *)
Definition isSearch (e : Effect) : bool :=
  match e with
  | FoundGames _ => true
  | _ => false
  end.

(** ** Where the handlers write *)

(** [path.join(state.config.flashpointPath, state.config.imageFolderPath)] *)
Definition imageFolderOf (E : Env.t) (s : BackState.t) : string :=
  path_join2 E (Config.flashpointPath (BackState.config s))
               (Config.imageFolderPath (BackState.config s)).

(** The file written, deleted or copied to satisfies [ok]. *)
Definition fileEffectWithin (ok : string -> bool) (e : Effect) : bool :=
  match e with
  | WroteFile p | Unlinked p => ok p
  | CopiedFile _ dst => ok dst
  | _ => true
  end.

(** A path that does not satisfy [ok] is a file after the run if and only
    if it was one before. *)
Definition filesWithin (ok : string -> bool) (w w' : World.t) : Prop :=
  forall p : string, ok p = false -> (p ∈ World.fs w' <-> p ∈ World.fs w).

Definition confined (ok : string -> bool) (w w' : World.t) : Prop :=
  filesWithin ok w w' /\ emitsOnly (fileEffectWithin ok) w w'.

Definition isImageRequest (d : BackIn.t) : bool :=
  match d with
  | BackIn.SAVE_IMAGE _ _ _ | BackIn.DELETE_IMAGE _ _ => true
  | _ => false
  end.

(** Who may be sent what: a response goes to the socket of the request,
    only UPDATE_PREFERENCES broadcasts, only the launch and import requests
    launch, only SERVICE_ACTION acts on a service, only QUIT exits. *)
Definition mayEmit (target : Channel) (d : BackIn.t) (e : Effect) : bool :=
  match e with
  | Sent t _ => Nat.eqb t target
  | Broadcast _ =>
      match d with
      | BackIn.UPDATE_PREFERENCES _ => true
      | _ => false
      end
  | Launched _ =>
      match d with
      | BackIn.LAUNCH_ADDAPP _ | BackIn.LAUNCH_GAME _ | BackIn.IMPORT_CURATION _ _ _ _
      | BackIn.LAUNCH_CURATION _ _ _ _ | BackIn.LAUNCH_CURATION_ADDAPP _ _ _ => true
      | _ => false
      end
  | ProcessCall _ _ =>
      match d with
      | BackIn.SERVICE_ACTION _ _ => true
      | _ => false
      end
  | Exited =>
      match d with
      | BackIn.QUIT => true
      | _ => false
      end
  | _ => true
  end.

(** Two queries ask the catalog for the same games. *)
Definition sameSearch (q1 q2 : BackQuery.t) : Prop :=
  BackQuery.search q1 = BackQuery.search q2 /\
  BackQuery.extreme q1 = BackQuery.extreme q2 /\
  BackQuery.broken q1 = BackQuery.broken q2 /\
  BackQuery.playlistId q1 = BackQuery.playlistId q2.

(** ** The playlist folder *)

(** The path is that of a playlist of the state in the playlist folder,
    starts with the folder and is longer than it. *)
Definition deletable (E : Env.t) (s : BackState.t) (p : string) : bool :=
  match usableFolder s with
  | Some folder =>
      existsb (fun pl => String.eqb p (path_join2 E folder (GamePlaylist.filename pl)))
              (BackState.playlists s)
      && JS.startsWith p folder && (JS.strlen folder <? JS.strlen p)
  | None => false
  end.

Definition unlinksOnly (ok : string -> bool) (e : Effect) : bool :=
  match e with
  | Unlinked p => ok p
  | _ => true
  end.


Definition isPlaylistRequest (d : BackIn.t) : bool :=
  match d with
  | BackIn.SAVE_PLAYLIST _ _ | BackIn.DELETE_PLAYLIST _ => true
  | _ => false
  end.


(** The run from [w] is followed with [R]. *)
Definition keepsAt (R : World.t -> World.t -> Prop) {A : Type} (m : M A) (w : World.t)
  : Prop := R w (exec m w).

(** ** The files of an export (lines 293-330) *)

(** The one file of an export of the meta data alone, and the three files
    of a full export. *)
Definition exportEffect (E : Env.t) (location : string) (metaOnly : bool) (e : Effect)
  : bool :=
  match e with
  | WroteFile p =>
      String.eqb p (if metaOnly then location else path_join2 E location "meta.txt")
  | CopiedFile _ dst =>
      negb metaOnly
      && (String.eqb dst (path_join2 E location "logo.png")
          || String.eqb dst (path_join2 E location "ss.png"))
  | Unlinked _ | MadeDir _ => false
  | _ => true
  end.

(** The state of the examples with one playlist. *)
Definition onePlaylistState : BackState.t :=
  BackState.mk ∅ [GamePlaylist.mk "a.json" "A" []]
    (BackState.init exampleState) [] examplePreferences (Config.mk "fp" "Images" [])
    "cfg" "en-US" VUndefined VUndefined [] VUndefined [] 12001 []
    (Some "Playlists").

(** ** The preferences (lines 531-557) *)

Definition notBroadcast (e : Effect) : bool :=
  match e with
  | Broadcast _ => false
  | _ => true
  end.

(** The candidate names no change of the current preferences: each of its
    properties is [undefined] or has the current value. *)
Definition namesNoChange (aprops bprops : list (string * value)) : Prop :=
  forall k, lookupProp bprops k = VUndefined \/ lookupProp bprops k = lookupProp aprops k.

(** ** The platforms of the libraries (lines 69-73) *)

(** [platforms] after the loop over [libraries]. *)
Definition platformsRecord (E : Env.t) (d : list Game.t) (libraries : list string)
  (platforms : list (string * list string)) : list (string * list string) :=
  fold_left (fun ps library => setRecord ps library (Env.platformsOf E d library))
            libraries platforms.

(** ** The shape of a diff *)

(** [dif] while the loop of [difObjects] runs: [undefined], or an object
    with a property. *)
Definition difStarted (dif : option (list (string * value))) : Prop :=
  match dif with
  | None => True
  | Some props => props <> []
  end.

(** ** The model on small inputs *)

Example slice_middle : slice [10; 20; 30; 40; 50] 1 3 = [20; 30].
Proof. reflexivity. Qed.

Example slice_beyond : slice [10; 20; 30; 40; 50] 3 9 = [40; 50].
Proof. reflexivity. Qed.

Example slice_negative_start : slice [10; 20; 30; 40; 50] (-2) (-1) = [40].
Proof. reflexivity. Qed.

Example slice_negative_end : slice [10; 20; 30; 40; 50] 1 (-1) = [20; 30; 40].
Proof. reflexivity. Qed.

Example toLowerCase_title : JS.toLowerCase "Super MARIO 64" = "super mario 64".
Proof. reflexivity. Qed.

Example quote_control : JSON.QuoteJSONBody (String "010" (String "001" "a\")) = "\n\u0001a\\".
Proof. reflexivity. Qed.

Example match_number : matchTrailingNumber "Foo 12" = Some ("Foo", " 12").
Proof. reflexivity. Qed.

Example match_number_inner : matchTrailingNumber "Foo 12 bar" = None.
Proof. reflexivity. Qed.

Example parseInt_match : parseInt " 012" = Some 12.
Proof. reflexivity. Qed.

Example parts_of_plain_name : numberedParts "Foo.json" = (Some 2, "Foo ", ".json").
Proof. reflexivity. Qed.

Example parts_of_numbered_name : numberedParts "Foo 2.json" = (Some 2, "Foo 2 ", ".json").
Proof. reflexivity. Qed.

Example parts_without_extension : numberedParts "Foo 7" = (Some 8, "Foo", "").
Proof. reflexivity. Qed.

Example parts_of_numbered_extension : numberedParts "Foo. 7" = (Some 8, "Foo ", ".").
Proof. reflexivity. Qed.

Example diff_of_one_leaf :
  difObjects (fun _ _ => false) (VObj examplePreferences) (VObj examplePreferences)
             (VObj [("nested", VObj [("leaf", VNum 5)]); ("unknown", VBool true)])
  = Some (VObj [("nested", VObj [("leaf", VNum 5)])]).
Proof. reflexivity. Qed.

Example diff_reads_null :
  difObjects (fun _ _ => false) (VObj examplePreferences) (VObj examplePreferences)
             (VObj [("nested", VNull)]) = None.
Proof. reflexivity. Qed.

(** ** C1: the hash of a query *)

Section Fingerprint.

Import JSON.

Lemma unquoteHead_QuoteJSONChar (c : ascii) (r : string) :
  unquoteHead (QuoteJSONChar c +:+ r) = Some (c, r).
Proof.
  destruct c as [[] [] [] [] [] [] [] []]; reflexivity.
Qed.

Lemma unquoteHead_dquote (r : string) : unquoteHead (String JS.dquote r) = None.
Proof. reflexivity. Qed.

Lemma append_assoc (a b c : string) : (a +:+ b) +:+ c = a +:+ (b +:+ c).
Proof. induction a as [|x a IH]; simpl; [reflexivity | now f_equal]. Qed.

(** A quoted body followed by its closing quotation mark determines the
    string and what comes after it. *)
Lemma QuoteJSONBody_inj (s1 : string) :
  forall s2 r1 r2,
    QuoteJSONBody s1 +:+ String JS.dquote r1 = QuoteJSONBody s2 +:+ String JS.dquote r2 ->
    s1 = s2 /\ r1 = r2.
Proof.
  induction s1 as [|c1 s1 IH]; intros [|c2 s2] r1 r2 H; cbn [QuoteJSONBody] in H.
  - injection H as ->. auto.
  - apply (f_equal unquoteHead) in H.
    change ("" +:+ String JS.dquote r1) with (String JS.dquote r1) in H.
    rewrite append_assoc, unquoteHead_QuoteJSONChar, unquoteHead_dquote in H. discriminate.
  - apply (f_equal unquoteHead) in H.
    change ("" +:+ String JS.dquote r2) with (String JS.dquote r2) in H.
    rewrite append_assoc, unquoteHead_QuoteJSONChar, unquoteHead_dquote in H. discriminate.
  - apply (f_equal unquoteHead) in H.
    rewrite !append_assoc, !unquoteHead_QuoteJSONChar in H.
    injection H as -> H. apply IH in H as [-> ->]. auto.
Qed.

Lemma QuoteJSONString_inj (s1 s2 r1 r2 : string) :
  QuoteJSONString s1 +:+ r1 = QuoteJSONString s2 +:+ r2 -> s1 = s2 /\ r1 = r2.
Proof.
  unfold QuoteJSONString. simpl. rewrite !append_assoc. simpl.
  intros H. injection H as H. now apply QuoteJSONBody_inj in H.
Qed.

Lemma ofBool_inj (b1 b2 : bool) (r1 r2 : string) :
  ofBool b1 +:+ "," +:+ r1 = ofBool b2 +:+ "," +:+ r2 -> b1 = b2 /\ r1 = r2.
Proof. destruct b1, b2; simpl; intros H; inversion H; auto. Qed.

Lemma member_inj (key s1 s2 r1 r2 : string) :
  "," +:+ QuoteJSONString key +:+ ":" +:+ QuoteJSONString s1 +:+ r1
  = "," +:+ QuoteJSONString key +:+ ":" +:+ QuoteJSONString s2 +:+ r2 ->
  s1 = s2 /\ r1 = r2.
Proof.
  intros H. do 3 apply String.app_inj in H. now apply QuoteJSONString_inj.
Qed.

(** The JSON text of a query determines the query. *)
Lemma JSON_stringify_query_inj (q1 q2 : BackQuery.t) :
  JSON_stringify_query q1 = JSON_stringify_query q2 -> q1 = q2.
Proof.
  destruct q1 as [e1 b1 l1 s1 ob1 or1 p1], q2 as [e2 b2 l2 s2 ob2 or2 p2].
  unfold JSON_stringify_query, member.
  cbn [BackQuery.extreme BackQuery.broken BackQuery.library BackQuery.search
       BackQuery.orderBy BackQuery.orderReverse BackQuery.playlistId].
  rewrite !append_assoc. intros H.
  do 3 apply String.app_inj in H.
  apply ofBool_inj in H as [-> H].
  do 2 apply String.app_inj in H.
  assert (Hl : l1 = l2 /\
    "," +:+ QuoteJSONString "search" +:+ ":" +:+ QuoteJSONString s1 +:+
    "," +:+ QuoteJSONString "orderBy" +:+ ":" +:+ QuoteJSONString ob1 +:+
    "," +:+ QuoteJSONString "orderReverse" +:+ ":" +:+ QuoteJSONString or1 +:+
    match p1 with
    | Some p => "," +:+ QuoteJSONString "playlistId" +:+ ":" +:+ QuoteJSONString p
    | None => ""
    end +:+ "}" =
    "," +:+ QuoteJSONString "search" +:+ ":" +:+ QuoteJSONString s2 +:+
    "," +:+ QuoteJSONString "orderBy" +:+ ":" +:+ QuoteJSONString ob2 +:+
    "," +:+ QuoteJSONString "orderReverse" +:+ ":" +:+ QuoteJSONString or2 +:+
    match p2 with
    | Some p => "," +:+ QuoteJSONString "playlistId" +:+ ":" +:+ QuoteJSONString p
    | None => ""
    end +:+ "}").
  { destruct b1, b2; try (simpl in H; discriminate);
      apply (String.app_inj _) in H;
      (destruct l1 as [l1|], l2 as [l2|];
       [ rewrite !append_assoc in H; apply member_inj in H as [-> H]; auto
       | simpl in H; discriminate
       | simpl in H; discriminate
       | auto ]). }
  destruct Hl as [-> H'].
  apply member_inj in H' as [-> H'].
  apply member_inj in H' as [-> H'].
  apply member_inj in H' as [-> H'].
  destruct p1 as [p1|], p2 as [p2|].
  - rewrite !append_assoc in H'. apply member_inj in H' as [-> _]. now destruct b1, b2.
  - simpl in H'. discriminate.
  - simpl in H'. discriminate.
  - destruct b1, b2; simpl in H; try discriminate; reflexivity.
Qed.

End Fingerprint.

(** C1. Equal queries get equal hashes, and the browse-page, browse-index
    and quick-search handlers compute the same hash; unequal queries have
    different JSON texts, so that their hashes can only be equal if the
    digest maps two different texts to one value. *)
Theorem query_hash_deterministic (E : Env.t) (q1 q2 : BackQuery.t) :
  (q1 = q2 ->
     hash_BROWSE_VIEW_PAGE E q1 = hash_BROWSE_VIEW_PAGE E q2 /\
     hash_BROWSE_VIEW_INDEX E q1 = hash_BROWSE_VIEW_PAGE E q2 /\
     hash_QUICK_SEARCH E q1 = hash_BROWSE_VIEW_PAGE E q2) /\
  (q1 <> q2 ->
     JSON_stringify_query (copyQuery q1) <> JSON_stringify_query (copyQuery q2) /\
     (hash_BROWSE_VIEW_PAGE E q1 = hash_BROWSE_VIEW_PAGE E q2 ->
      exists x y : string, x <> y /\ Env.sha256_base64 E x = Env.sha256_base64 E y)).
Proof.
  split.
  - intros ->. repeat split; reflexivity.
  - intros Hne.
    assert (Htext : JSON_stringify_query (copyQuery q1) <> JSON_stringify_query (copyQuery q2)).
    { intros H. apply JSON_stringify_query_inj in H. apply Hne.
      destruct q1, q2. unfold copyQuery in H. simpl in H. exact H. }
    split; [exact Htext|].
    intros Hh. unfold hash_BROWSE_VIEW_PAGE in Hh.
    exists (JSON_stringify_query (copyQuery q1)), (JSON_stringify_query (copyQuery q2)).
    split; [exact Htext | exact Hh].
Qed.

Lemma query_hash_deterministic_witness :
  hash_QUICK_SEARCH exampleEnv exampleQuery = hash_BROWSE_VIEW_PAGE exampleEnv exampleQuery /\
  JSON_stringify_query (copyQuery exampleQuery)
  <> JSON_stringify_query
       (copyQuery (BackQuery.mk false false None "arcade" "title" "ascending" (Some "mario"))).
Proof.
  split.
  - destruct (query_hash_deterministic exampleEnv exampleQuery exampleQuery) as [Heq _].
    destruct Heq as [_ [_ Hq]]; [reflexivity | exact Hq].
  - destruct (query_hash_deterministic exampleEnv exampleQuery
                (BackQuery.mk false false None "arcade" "title" "ascending" (Some "mario")))
      as [_ Hne].
    destruct Hne as [Htext _]; [discriminate | exact Htext].
Defined.

(** ** C3: one answer to a request *)

Section Answers.

Variable E : Env.t.
Variable target : Channel.
Variable id : string.

Lemma correlatedCount_app (t1 t2 : list Effect) :
  correlatedCount target id (t1 ++ t2)
  = (correlatedCount target id t1 + correlatedCount target id t2)%nat.
Proof. unfold correlatedCount. now rewrite List.filter_app, length_app. Qed.

Lemma answersAt_bind {A B : Type} (n1 n2 : nat) (m : M A) (k : A -> M B) (w : World.t) :
  answersAt target id n1 m w ->
  (forall a w', m w = (Ok a, w') -> answersAt target id n2 (k a) w') ->
  answersAt target id (n1 + n2) (bind m k) w.
Proof.
  intros [Hr [t1 [Ht1 [Hc1 Ho1]]]] Hk.
  unfold answersAt, returns, exec, bind in *.
  destruct (m w) as [[a|e] w1] eqn:Hm; simpl in *; [|discriminate].
  destruct (Hk a w1 eq_refl) as [Hr2 [t2 [Ht2 [Hc2 Ho2]]]].
  split; [exact Hr2|].
  exists (t1 ++ t2).
  rewrite Ht2, Ht1, <- app_assoc, correlatedCount_app, forallb_app, Hc1, Hc2, Ho1, Ho2.
  auto.
Qed.

Lemma answers_bind0 {A B : Type} (n : nat) (m : M A) (k : A -> M B) :
  answers target id 0 m -> (forall a, answers target id n (k a)) ->
  answers target id n (bind m k).
Proof.
  intros Hm Hk w. apply (answersAt_bind 0 n); [apply Hm | intros; apply Hk].
Qed.

Lemma answers_then0 {A B : Type} (n : nat) (m : M A) (k : A -> M B) :
  answers target id n m -> (forall a, answers target id 0 (k a)) ->
  answers target id n (bind m k).
Proof.
  intros Hm Hk w. replace n with (n + 0)%nat by lia.
  apply answersAt_bind; [apply Hm | intros; apply Hk].
Qed.

Lemma answers_quiet {A : Type} (m : M A) : answers target id 0 m -> quiet target id m.
Proof. intros H w. destruct (H w) as [_ Ht]. exact Ht. Qed.

Lemma quiet_bind {A B : Type} (m : M A) (k : A -> M B) :
  quiet target id m -> (forall a, quiet target id (k a)) -> quiet target id (bind m k).
Proof.
  intros Hm Hk w. destruct (Hm w) as [t1 [Ht1 [Hc1 Ho1]]].
  unfold quiet, exec, bind in *. destruct (m w) as [[a|e] w1]; simpl in *.
  - destruct (Hk a w1) as [t2 [Ht2 [Hc2 Ho2]]].
    exists (t1 ++ t2).
    rewrite Ht2, Ht1, <- app_assoc, correlatedCount_app, forallb_app, Hc1, Hc2, Ho1, Ho2. auto.
  - exists t1. auto.
Qed.

Lemma answers_try {A : Type} (body : M A) (handler : value -> M A) :
  quiet target id body -> (forall e, answers target id 0 (handler e)) ->
  answers target id 0 (try_catch body handler).
Proof.
  intros Hb Hh w. destruct (Hb w) as [t1 [Ht1 [Hc1 Ho1]]].
  unfold answers, answersAt, returns, exec, try_catch in *.
  destruct (body w) as [[a|e] w1]; simpl in *.
  - split; [reflexivity|]. exists t1. auto.
  - destruct (Hh e w1) as [Hr [t2 [Ht2 [Hc2 Ho2]]]].
    split; [exact Hr|]. exists (t1 ++ t2).
    rewrite Ht2, Ht1, <- app_assoc, correlatedCount_app, forallb_app, Hc1, Hc2, Ho1, Ho2. auto.
Qed.

(** A step that adds nothing to the trace. *)
Lemma answers_silent {A : Type} (m : M A) :
  (forall w, exists a w', m w = (Ok a, w') /\ World.trace w' = World.trace w) ->
  answers target id 0 m.
Proof.
  intros H w. destruct (H w) as [a [w' [Hm Ht]]].
  unfold answersAt, returns, exec. rewrite Hm. simpl. split; [reflexivity|].
  exists []. rewrite Ht, app_nil_r. auto.
Qed.

Lemma answers_ret {A : Type} (a : A) : answers target id 0 (ret a).
Proof. apply answers_silent. intros w. eauto. Qed.

Lemma answers_getState : answers target id 0 getState.
Proof. apply answers_silent. intros w. eauto. Qed.

Lemma answers_modifyState f : answers target id 0 (modifyState f).
Proof. apply answers_silent. intros w. eexists _, _. split; [reflexivity|]. reflexivity. Qed.

Lemma answers_getDb : answers target id 0 getDb.
Proof. apply answers_silent. intros w. eauto. Qed.

Lemma answers_setDb d : answers target id 0 (setDb d).
Proof. apply answers_silent. intros w. eexists _, _. split; [reflexivity|]. reflexivity. Qed.

Lemma answers_getFs : answers target id 0 getFs.
Proof. apply answers_silent. intros w. eauto. Qed.

Lemma answers_setFs f : answers target id 0 (setFs f).
Proof. apply answers_silent. intros w. eexists _, _. split; [reflexivity|]. reflexivity. Qed.

Lemma answers_choose : answers target id 0 choose.
Proof. apply answers_silent. intros w. eexists _, _. split; [reflexivity|]. reflexivity. Qed.

Lemma answers_emit (e : Effect) :
  isCorrelated target id e = false -> envelopeOk target id e = true ->
  answers target id 0 (emit e).
Proof.
  intros Hc Ho w. unfold answersAt, returns, exec, emit. simpl. split; [reflexivity|].
  exists [e]. unfold correlatedCount. simpl. rewrite Hc, Ho. auto.
Qed.

Lemma answers_respond (type : BackOut.t) (data : ResponseData) :
  answers target id 1 (respond target (response id type data)).
Proof.
  intros w. unfold answersAt, returns, exec, respond, emit. simpl. split; [reflexivity|].
  exists [Sent target (response id type data)].
  unfold correlatedCount. simpl. rewrite Nat.eqb_refl, String.eqb_refl. simpl. auto.
Qed.

Lemma answers_broadcast (type : BackOut.t) (data : ResponseData) :
  answers target id 0 (broadcast (response "" type data)).
Proof. apply answers_emit; reflexivity. Qed.

Lemma quiet_throw {A : Type} (e : value) : quiet target id (@throw A e).
Proof. intros w. exists []. unfold exec, throw. simpl. rewrite app_nil_r. auto. Qed.

Lemma quiet_mayThrow {A : Type} (m : M A) :
  quiet target id m -> quiet target id (mayThrow m).
Proof.
  intros H. unfold mayThrow. apply quiet_bind; [apply answers_quiet, answers_choose|].
  intros [|k]; [exact H | apply quiet_throw].
Qed.

End Answers.

Create HintDb answers.

#[local] Hint Resolve answers_ret answers_getState answers_modifyState answers_getDb
  answers_setDb answers_getFs answers_setFs answers_choose answers_broadcast
  quiet_throw : answers.

Ltac head_of t :=
  lazymatch t with
  | ?f _ => head_of f
  | _ => t
  end.

(** [zero] proves that a step sends no answer and returns; [hush] proves
    that a step sends no answer, whether it returns or throws. *)
Ltac zero :=
  lazymatch goal with
  | |- answers _ _ _ (bind _ _) => apply answers_bind0; [zero | intros; zero]
  | |- answers _ _ _ (try_catch _ _) => apply answers_try; [hush | intros; zero]
  | |- answers _ _ _ (emit _) => apply answers_emit; reflexivity
  | |- answers _ _ _ (match ?x with _ => _ end) => destruct x; zero
  | |- answers _ _ _ ?m =>
      first [ solve [auto 1 with answers]
            | let h := head_of m in unfold h; zero ]
  end
with hush :=
  lazymatch goal with
  | |- quiet _ _ (bind _ _) => apply quiet_bind; [hush | intros; hush]
  | |- quiet _ _ (mayThrow _) => apply quiet_mayThrow; hush
  | |- quiet _ _ (match ?x with _ => _ end) => destruct x; hush
  | |- quiet _ _ ?m =>
      first [ solve [auto 1 with answers]
            | apply answers_quiet; zero
            | let h := head_of m in unfold h; hush ]
  end.

(** [one] proves that a handler sends one answer. *)
Ltac one :=
  lazymatch goal with
  | |- answers _ _ _ (respond _ (response _ _ _)) => apply answers_respond
  | |- answers _ _ _ (bind (respond _ _) _) =>
      apply answers_then0; [apply answers_respond | intros; zero]
  | |- answers _ _ _ (bind _ _) => apply answers_bind0; [zero | intros; one]
  | |- answers _ _ _ (match ?x with _ => _ end) => destruct x; one
  | |- answers _ _ _ ?m => let h := head_of m in unfold h; one
  end.

Section HandlerAnswers.

Variable E : Env.t.
Variable target : Channel.
Variable id : string.

Lemma answers_forEach {A : Type} (l : list A) (f : A -> M unit) :
  (forall x, answers target id 0 (f x)) -> answers target id 0 (forEach l f).
Proof.
  intros Hf. induction l as [|x l IH]; cbn [forEach].
  - zero.
  - apply answers_bind0; [apply Hf | intros; exact IH].
Qed.

Lemma answers_findAllPlatforms libraries platforms :
  answers target id 0 (findAllPlatforms E libraries platforms).
Proof.
  revert platforms. induction libraries as [|l ls IH]; intros platforms; cbn [findAllPlatforms].
  - zero.
  - apply answers_bind0; [zero | intros; apply IH].
Qed.

Lemma answers_initListenLoop keys done :
  answers target id 0 (initListenLoop target keys done).
Proof.
  revert done. induction keys as [|[init isDone] keys IH]; intros done; cbn [initListenLoop].
  - zero.
  - destruct isDone; [apply IH|]. apply answers_bind0; [zero | intros; apply IH].
Qed.

Lemma answers_copyAddApps addApps : answers target id 0 (copyAddApps E addApps).
Proof.
  induction addApps as [|a l IH]; cbn [copyAddApps].
  - zero.
  - apply answers_bind0; [zero | intros]. apply answers_bind0; [exact IH | intros; zero].
Qed.

Lemma answers_pickGames count allGames pickedGames :
  answers target id 0 (pickGames count allGames pickedGames).
Proof.
  revert allGames pickedGames.
  induction count as [|n IH]; intros allGames pickedGames; cbn [pickGames].
  - zero.
  - apply answers_bind0; [zero | intros r].
    destruct (allGames !! _); apply IH.
Qed.

Lemma answers_probe fuel folder part0 part1 n :
  answers target id 0 (probe E fuel folder part0 part1 n).
Proof.
  revert n. induction fuel as [|f IH]; intros n; cbn [probe].
  - zero.
  - destruct (n <? 100); [|zero].
    apply answers_bind0; [zero | intros taken]. destruct taken; [apply IH | zero].
Qed.

End HandlerAnswers.

#[local] Hint Resolve answers_forEach answers_findAllPlatforms answers_initListenLoop
  answers_copyAddApps answers_pickGames answers_probe : answers.

Section EveryHandler.

Variable E : Env.t.
Variable target : Channel.
Variable id : string.

Lemma answers_ADD_LOG data : answers target id 0 (on_ADD_LOG target id data).
Proof. zero. Qed.

Lemma answers_GET_MAIN_INIT_DATA : answers target id 1 (on_GET_MAIN_INIT_DATA target id).
Proof. one. Qed.

Lemma answers_GET_RENDERER_INIT_DATA :
  answers target id 1 (on_GET_RENDERER_INIT_DATA E target id).
Proof. one. Qed.

Lemma answers_INIT_LISTEN : answers target id 1 (on_INIT_LISTEN target id).
Proof. one. Qed.

Lemma answers_GET_SUGGESTIONS : answers target id 1 (on_GET_SUGGESTIONS E target id).
Proof. one. Qed.

Lemma answers_GET_GAMES_TOTAL : answers target id 1 (on_GET_GAMES_TOTAL target id).
Proof. one. Qed.

Lemma answers_SET_LOCALE data : answers target id 1 (on_SET_LOCALE target id data).
Proof. one. Qed.

Lemma answers_GET_EXEC : answers target id 1 (on_GET_EXEC target id).
Proof. one. Qed.

Lemma answers_LAUNCH_ADDAPP a : answers target id 1 (on_LAUNCH_ADDAPP target id a).
Proof. one. Qed.

Lemma answers_LAUNCH_GAME g : answers target id 1 (on_LAUNCH_GAME target id g).
Proof. one. Qed.

Lemma answers_SAVE_GAME g l : answers target id 1 (on_SAVE_GAME target id g l).
Proof. one. Qed.

Lemma answers_DELETE_GAME g : answers target id 1 (on_DELETE_GAME target id g).
Proof. one. Qed.

Lemma answers_DUPLICATE_GAME g d : answers target id 1 (on_DUPLICATE_GAME E target id g d).
Proof. one. Qed.

Lemma answers_EXPORT_GAME g l m : answers target id 1 (on_EXPORT_GAME E target id g l m).
Proof. one. Qed.

Lemma answers_GET_GAME g : answers target id 1 (on_GET_GAME target id g).
Proof. one. Qed.

Lemma answers_GET_ALL_GAMES : answers target id 1 (on_GET_ALL_GAMES E target id).
Proof. one. Qed.

Lemma answers_RANDOM_GAMES c : answers target id 1 (on_RANDOM_GAMES E target id c).
Proof. one. Qed.

Lemma answers_BROWSE_VIEW_PAGE q o l :
  answers target id 1 (on_BROWSE_VIEW_PAGE E target id q o l).
Proof. one. Qed.

Lemma answers_BROWSE_VIEW_INDEX q g :
  answers target id 1 (on_BROWSE_VIEW_INDEX E target id q g).
Proof. one. Qed.

Lemma answers_SAVE_IMAGE f i c : answers target id 1 (on_SAVE_IMAGE E target id f i c).
Proof. one. Qed.

Lemma answers_DELETE_IMAGE f i : answers target id 1 (on_DELETE_IMAGE E target id f i).
Proof. one. Qed.

Lemma answers_QUICK_SEARCH q s : answers target id 1 (on_QUICK_SEARCH E target id q s).
Proof. one. Qed.

Lemma answers_UPDATE_CONFIG d : answers target id 1 (on_UPDATE_CONFIG E target id d).
Proof. one. Qed.

Lemma answers_GET_PLAYLISTS : answers target id 1 (on_GET_PLAYLISTS target id).
Proof. one. Qed.

Lemma answers_IMPORT_CURATION c : answers target id 1 (on_IMPORT_CURATION E target id c).
Proof. one. Qed.

Lemma answers_LAUNCH_CURATION k p : answers target id 1 (on_LAUNCH_CURATION target id k p).
Proof. one. Qed.

Lemma answers_LAUNCH_CURATION_ADDAPP k p :
  answers target id 1 (on_LAUNCH_CURATION_ADDAPP target id k p).
Proof. one. Qed.

Lemma answers_QUIT : answers target id 1 (on_QUIT target id).
Proof. one. Qed.

End EveryHandler.

Section IfReturns.

Variable E : Env.t.
Variable target : Channel.
Variable id : string.

Lemma answers_ifReturns {A : Type} (n : nat) (m : M A) :
  answers target id n m -> answersIfReturns target id n m.
Proof.
  intros H w. destruct (H w) as [Hr [tr [Htr [Hc Ho]]]].
  exists tr. rewrite Hr. auto.
Qed.

Lemma ifReturns_bind {A B : Type} (n : nat) (m : M A) (k : A -> M B) :
  quiet target id m -> (forall a, answersIfReturns target id n (k a)) ->
  answersIfReturns target id n (bind m k).
Proof.
  intros Hm Hk w. destruct (Hm w) as [t1 [Ht1 [Hc1 Ho1]]].
  unfold answersIfReturns, returns, exec, bind in *.
  destruct (m w) as [[a|e] w1]; cbn [fst snd] in *.
  - destruct (Hk a w1) as [t2 [Ht2 [Ho2 Hc2]]]. exists (t1 ++ t2).
    rewrite Ht2, Ht1, <- app_assoc, correlatedCount_app, forallb_app, Hc1, Hc2, Ho1, Ho2.
    auto.
  - exists t1. auto.
Qed.

(** [state.services[id]] may be inherited, and the call of a method of it
    throws before [respond]. *)
Lemma ifReturns_SERVICE_ACTION s a :
  answersIfReturns target id 1 (on_SERVICE_ACTION target id s a).
Proof.
  unfold on_SERVICE_ACTION.
  apply ifReturns_bind; [hush | intros st].
  apply ifReturns_bind; [hush | intros _].
  apply answers_ifReturns, answers_respond.
Qed.

(** [deletePlaylist] awaits [unlink] outside a [try] block. *)
Lemma ifReturns_SAVE_PLAYLIST p f :
  answersIfReturns target id 1 (on_SAVE_PLAYLIST E target id p f).
Proof.
  unfold on_SAVE_PLAYLIST.
  apply ifReturns_bind; [hush | intros st].
  apply ifReturns_bind; [hush | intros _].
  apply answers_ifReturns, answers_respond.
Qed.

Lemma ifReturns_DELETE_PLAYLIST d :
  answersIfReturns target id 1 (on_DELETE_PLAYLIST E target id d).
Proof.
  unfold on_DELETE_PLAYLIST.
  apply ifReturns_bind; [hush | intros st].
  apply ifReturns_bind; [hush | intros _].
  apply answers_ifReturns, answers_respond.
Qed.

(** [difObjects] throws on a property read of [null]. *)
Lemma ifReturns_UPDATE_PREFERENCES data :
  answersIfReturns target id 1 (on_UPDATE_PREFERENCES E target id data).
Proof.
  unfold on_UPDATE_PREFERENCES.
  apply ifReturns_bind; [hush | intros st].
  apply ifReturns_bind; [hush | intros dif].
  apply answers_ifReturns. one.
Qed.

End IfReturns.

Lemma ifReturns_registerRequestCallbacks (E : Env.t) (target : Channel)
  (req : WrappedRequest.t) :
  answersIfReturns target (WrappedRequest.id req) (expectedAnswers req)
                   (registerRequestCallbacks E target req).
Proof.
  unfold expectedAnswers, registerRequestCallbacks.
  destruct req as [rid data]. cbn [WrappedRequest.id WrappedRequest.data].
  destruct data;
    first [ apply ifReturns_SERVICE_ACTION | apply ifReturns_SAVE_PLAYLIST
          | apply ifReturns_DELETE_PLAYLIST | apply ifReturns_UPDATE_PREFERENCES
          | apply answers_ifReturns ].
  - apply answers_ADD_LOG.
  - apply answers_GET_MAIN_INIT_DATA.
  - apply answers_GET_RENDERER_INIT_DATA.
  - apply answers_INIT_LISTEN.
  - apply answers_GET_SUGGESTIONS.
  - apply answers_GET_GAMES_TOTAL.
  - apply answers_SET_LOCALE.
  - apply answers_GET_EXEC.
  - apply answers_LAUNCH_ADDAPP.
  - apply answers_LAUNCH_GAME.
  - apply answers_SAVE_GAME.
  - apply answers_DELETE_GAME.
  - apply answers_DUPLICATE_GAME.
  - apply answers_EXPORT_GAME.
  - apply answers_GET_GAME.
  - apply answers_GET_ALL_GAMES.
  - apply answers_RANDOM_GAMES.
  - apply answers_BROWSE_VIEW_PAGE.
  - apply answers_BROWSE_VIEW_INDEX.
  - apply answers_SAVE_IMAGE.
  - apply answers_DELETE_IMAGE.
  - apply answers_QUICK_SEARCH.
  - apply answers_UPDATE_CONFIG.
  - apply answers_GET_PLAYLISTS.
  - apply answers_IMPORT_CURATION.
  - apply answers_LAUNCH_CURATION.
  - apply answers_LAUNCH_CURATION_ADDAPP.
  - apply answers_QUIT.
Qed.

Lemma newTrace_app {A : Type} (m : M A) (w : World.t) (tr : list Effect) :
  World.trace (exec m w) = World.trace w ++ tr -> newTrace m w = tr.
Proof. intros H. unfold newTrace. rewrite H. apply drop_app_length. Qed.

(** Every registered callback that returns has called [respond] exactly
    once with the id of the request and the socket of the request, except
    the ADD_LOG callback, which has not called it; a callback that throws
    has not called it at all; every other envelope that the callback sends
    carries the empty id. The calls counted are those of the callback
    itself: what [log] and the other collaborators that are not among the
    sources send is not part of the trace. *)
Theorem answered_once_if_returned (E : Env.t) (target : Channel)
  (req : WrappedRequest.t) (w : World.t) :
  let run := registerRequestCallbacks E target req in
  forallb (envelopeOk target (WrappedRequest.id req)) (newTrace run w) = true /\
  correlatedCount target (WrappedRequest.id req) (newTrace run w)
  = if returns run w then expectedAnswers req else 0%nat.
Proof.
  intros run.
  destruct (ifReturns_registerRequestCallbacks E target req w) as [tr [Htr [Ho Hc]]].
  fold run in Htr, Hc. rewrite (newTrace_app run w tr Htr). auto.
Qed.

(** C3. A request can be left without an answer. Of two DELETE_PLAYLIST
    requests for the same playlist, the first deletes the file and is
    answered once; [state.playlists] still lists the playlist, so the
    second calls [unlink] on a file that is gone: the call fails outside
    any [try] block and the callback ends there, with nothing sent to the
    socket of the request. DELETE_IMAGE, whose [stat] and [unlink] are
    inside a [try] block that lets [ENOENT] pass, is answered once in that
    same state. The same end without an answer is met by SERVICE_ACTION
    START for the service id [constructor], which [state.services]
    inherits from [Object.prototype], and by UPDATE_PREFERENCES with [null]
    where the preferences have an object. *)
Theorem request_left_unanswered :
  let request := fun id data =>
    registerRequestCallbacks exampleEnv 1%nat (WrappedRequest.mk id data) in
  let w0 := exampleWorld onePlaylistState [] {[ "Playlists/a.json" ]} in
  let w1 := exec (request "r1" (BackIn.DELETE_PLAYLIST "a.json")) w0 in
  (returns (request "r1" (BackIn.DELETE_PLAYLIST "a.json")) w0 = true /\
   newTrace (request "r1" (BackIn.DELETE_PLAYLIST "a.json")) w0
   = [Unlinked "Playlists/a.json";
      Sent 1%nat (response "r1" BackOut.GENERIC_RESPONSE DUndefined)] /\
   World.state w1 = onePlaylistState) /\
  (returns (request "r2" (BackIn.DELETE_PLAYLIST "a.json")) w1 = false /\
   correlatedCount 1%nat "r2" (newTrace (request "r2" (BackIn.DELETE_PLAYLIST "a.json")) w1)
   = 0%nat /\
   newTrace (request "r2" (BackIn.DELETE_PLAYLIST "a.json")) w1
   = [Unlinked "Playlists/a.json"]) /\
  (returns (request "r3" (BackIn.DELETE_IMAGE "Logos" "abcdef")) w1 = true /\
   newTrace (request "r3" (BackIn.DELETE_IMAGE "Logos" "abcdef")) w1
   = [Sent 1%nat (response "r3" BackOut.IMAGE_CHANGE (DImageChange "abcdef" "Logos"))]) /\
  (returns (request "r4" (BackIn.SERVICE_ACTION "constructor" START)) w1 = false /\
   newTrace (request "r4" (BackIn.SERVICE_ACTION "constructor" START)) w1 = []) /\
  (returns (request "r5" (BackIn.UPDATE_PREFERENCES (VObj [("nested", VNull)]))) w1 = false /\
   newTrace (request "r5" (BackIn.UPDATE_PREFERENCES (VObj [("nested", VNull)]))) w1 = []).
Proof. repeat split; vm_compute; reflexivity. Qed.

(** ** C2, C10: the query cache and the changes of the catalog *)

Lemma bind_returns {A B : Type} (m : M A) (k : A -> M B) (w : World.t) :
  returns m w = true -> exists a w1, m w = (Ok a, w1) /\ bind m k w = k a w1.
Proof.
  unfold returns, bind. destruct (m w) as [[a|e] w1]; simpl; [|discriminate].
  intros _. eauto.
Qed.

Section CacheCleared.

Variable E : Env.t.

Lemma answers_total {A : Type} (target : Channel) (id : string) (n : nat) (m : M A) :
  answers target id n m -> total m.
Proof. intros H w. apply (H w). Qed.

Lemma clears_bind_l {A B : Type} (m : M A) (k : A -> M B) :
  total m -> (forall a, clears (k a)) -> clears (bind m k).
Proof.
  intros Hm Hk w. destruct (bind_returns m k w (Hm w)) as [a [w1 [_ Hb]]].
  unfold returns, exec. rewrite Hb. apply Hk.
Qed.

Lemma clears_bind_r {A B : Type} (m : M A) (k : A -> M B) :
  clears m -> (forall a, keepsState (k a)) -> clears (bind m k).
Proof.
  intros Hm Hk w. destruct (Hm w) as [Hr Hq].
  destruct (bind_returns m k w Hr) as [a [w1 [Hw Hb]]].
  unfold returns, exec in *. rewrite Hb. rewrite Hw in Hq. simpl in Hq.
  destruct (Hk a w1) as [Hr2 Hs]. unfold returns, exec in *.
  split; [exact Hr2 | now rewrite Hs].
Qed.

Lemma clears_at_bind {A B : Type} (m : M A) (k : A -> M B) (w : World.t) (a : A) (w1 : World.t) :
  m w = (Ok a, w1) -> clears (k a) ->
  returns (bind m k) w = true /\
  BackState.queries (World.state (exec (bind m k) w)) = ∅.
Proof. intros Hm Hk. unfold returns, exec, bind. rewrite Hm. apply Hk. Qed.

Lemma clears_clearQueries : clears clearQueries.
Proof. intros w. split; reflexivity. Qed.

Lemma keepsState_answer (target : Channel) (id : string) (library : option string) :
  keepsState (gamesTotal <- GameManager.countGames ;;
              respond target (response id BackOut.BROWSE_CHANGE
                                (DBrowseChange library gamesTotal))).
Proof. intros w. split; reflexivity. Qed.

Lemma clears_SAVE_GAME target id game library :
  clears (on_SAVE_GAME target id game library).
Proof. intros w. split; reflexivity. Qed.

Lemma clears_DELETE_GAME target id gameId : clears (on_DELETE_GAME target id gameId).
Proof. intros w. split; reflexivity. Qed.

Lemma DUPLICATE_GAME_found target id gameId dupeImages (w : World.t) :
  is_Some (find (fun g => String.eqb (Game.id g) gameId) (World.db w)) ->
  returns (on_DUPLICATE_GAME E target id gameId dupeImages) w = true /\
  BackState.queries (World.state (exec (on_DUPLICATE_GAME E target id gameId dupeImages) w)) = ∅.
Proof.
  intros [game Hg]. unfold on_DUPLICATE_GAME.
  assert (Hf : GameManager.findGame gameId w = (Ok (Some game), w)).
  { unfold GameManager.findGame, bind, getDb, ret. now rewrite Hg. }
  apply (clears_at_bind _ _ w (Some game) w Hf). cbv beta iota.
  apply clears_bind_r; [|intros; apply keepsState_answer].
  apply clears_bind_l; [apply (answers_total target id 0); zero | intros n].
  apply clears_bind_l; [apply (answers_total target id 0); zero | intros newAddApps].
  apply clears_bind_l; [apply (answers_total target id 0); zero | intros _].
  apply clears_bind_l; [apply (answers_total target id 0); zero | intros _].
  apply clears_clearQueries.
Qed.

End CacheCleared.

Section Recomputed.

Variable E : Env.t.

Lemma cachedQuery_miss (hash : string) (query : BackQuery.t) (w : World.t) :
  BackState.queries (World.state w) !! hash = None ->
  cachedQuery E hash query w =
  (Ok (queryResult E (World.state w) (World.db w) query),
   World.mk
     (BackState.set_queries
        (<[hash := queryResult E (World.state w) (World.db w) query]>
           (BackState.queries (World.state w))) (World.state w))
     (World.db w) (World.fs w)
     (World.trace w ++ [FoundGames (Some (queryOpts (World.state w) query))])
     (World.oracle w) (World.tick w)).
Proof.
  intros H. unfold cachedQuery, bind, getState. rewrite H. reflexivity.
Qed.

Lemma cachedQuery_hit (hash : string) (query : BackQuery.t) (w : World.t)
  (cache : BackQueryChache.t) :
  BackState.queries (World.state w) !! hash = Some cache ->
  cachedQuery E hash query w = (Ok cache, w).
Proof.
  intros H. unfold cachedQuery, bind, getState. rewrite H. reflexivity.
Qed.

Lemma newTrace_of_run {A : Type} (m : M A) (w : World.t) (o : outcome A) (w' : World.t)
  (tr : list Effect) :
  m w = (o, w') -> World.trace w' = World.trace w ++ tr -> newTrace m w = tr.
Proof.
  intros Hm Ht. apply newTrace_app. unfold exec. now rewrite Hm.
Qed.

Lemma lookup_recomputes (target : Channel) (next : WrappedRequest.t) (q : BackQuery.t)
  (w : World.t) :
  browseQuery next = Some q ->
  BackState.queries (World.state w) !! hash_BROWSE_VIEW_PAGE E q = None ->
  let lookup := registerRequestCallbacks E target next in
  In (FoundGames (Some (queryOpts (World.state w) (copyQuery q)))) (newTrace lookup w) /\
  BackState.queries (World.state (exec lookup w)) !! hash_BROWSE_VIEW_PAGE E q
  = Some (queryResult E (World.state w) (World.db w) (copyQuery q)).
Proof.
  destruct next as [id data]. unfold browseQuery, registerRequestCallbacks.
  cbn [WrappedRequest.id WrappedRequest.data].
  destruct data; try discriminate; intros Hq Hmiss; injection Hq as ->.
  - unfold on_BROWSE_VIEW_PAGE.
    pose proof (cachedQuery_miss _ (copyQuery q) w Hmiss) as Hc.
    split.
    + erewrite newTrace_of_run;
        [ | unfold bind; rewrite Hc; reflexivity
          | simpl; rewrite <- app_assoc; reflexivity ].
      left; reflexivity.
    + unfold exec, bind. rewrite Hc. simpl. apply lookup_insert_eq.
  - unfold on_BROWSE_VIEW_INDEX.
    pose proof (cachedQuery_miss _ (copyQuery q) w Hmiss) as Hc.
    split.
    + erewrite newTrace_of_run;
        [ | unfold bind; unfold hash_BROWSE_VIEW_INDEX;
            unfold hash_BROWSE_VIEW_PAGE in Hc; rewrite Hc; reflexivity
          | simpl; rewrite <- app_assoc; reflexivity ].
      left; reflexivity.
    + unfold exec, bind. unfold hash_BROWSE_VIEW_INDEX.
      unfold hash_BROWSE_VIEW_PAGE in Hc. rewrite Hc. simpl. apply lookup_insert_eq.
  - unfold on_QUICK_SEARCH.
    pose proof (cachedQuery_miss _ (copyQuery q) w Hmiss) as Hc.
    unfold hash_QUICK_SEARCH. unfold hash_BROWSE_VIEW_PAGE in Hc.
    destruct (quickSearch (BackQueryChache.games
                (queryResult E (World.state w) (World.db w) (copyQuery q))) search 0)
      as [result index] eqn:Hqs.
    split.
    + erewrite newTrace_of_run;
        [ | unfold bind; rewrite Hc; rewrite Hqs; reflexivity
          | simpl; rewrite <- app_assoc; reflexivity ].
      left; reflexivity.
    + unfold exec, bind. rewrite Hc. rewrite Hqs. simpl. apply lookup_insert_eq.
Qed.

End Recomputed.

(** C2, as the code has it. A save-entry, a delete-entry, and a
    duplicate-entry of a game that is in the catalog end with an empty
    cache: the next browse-page, browse-index or quick-search request
    searches the catalog again, whatever its query, and stores the entry
    computed from the catalog as it then is. *)
Theorem catalog_change_discards_cache (E : Env.t) (target : Channel)
  (req : WrappedRequest.t) (w : World.t) :
  changesCatalog req w ->
  let w1 := exec (registerRequestCallbacks E target req) w in
  returns (registerRequestCallbacks E target req) w = true /\
  BackState.queries (World.state w1) = ∅ /\
  forall (target' : Channel) (next : WrappedRequest.t) (q : BackQuery.t),
    browseQuery next = Some q ->
    let lookup := registerRequestCallbacks E target' next in
    In (FoundGames (Some (queryOpts (World.state w1) (copyQuery q)))) (newTrace lookup w1) /\
    BackState.queries (World.state (exec lookup w1)) !! hash_BROWSE_VIEW_PAGE E q
    = Some (queryResult E (World.state w1) (World.db w1) (copyQuery q)).
Proof.
  intros Hc w1.
  assert (H : returns (registerRequestCallbacks E target req) w = true /\
              BackState.queries (World.state w1) = ∅).
  { subst w1. destruct req as [id data]. unfold changesCatalog in Hc.
    unfold registerRequestCallbacks. cbn [WrappedRequest.id WrappedRequest.data] in *.
    destruct data; try contradiction.
    - apply clears_SAVE_GAME.
    - apply clears_DELETE_GAME.
    - now apply DUPLICATE_GAME_found. }
  destruct H as [Hr Hq]. split; [exact Hr|]. split; [exact Hq|].
  intros target' next q Hb. apply lookup_recomputes; [exact Hb|].
  rewrite Hq. apply lookup_empty.
Qed.

Lemma catalog_change_discards_cache_witness :
  let req := WrappedRequest.mk "1" (BackIn.DUPLICATE_GAME "g1" true) in
  let w := exampleWorld staleState [exampleGame "g1" "Mario"] ∅ in
  BackState.queries (World.state (exec (registerRequestCallbacks exampleEnv 0%nat req) w)) = ∅.
Proof.
  intros req w.
  apply (catalog_change_discards_cache exampleEnv 0%nat req w).
  simpl. eexists. reflexivity.
Defined.

(** The claim C2 fails for a duplicate-entry whose id is not in the
    catalog: the entry cached before it is still there after it, and the
    next browse-page of that query answers from it without a search. *)
Lemma duplicate_of_missing_keeps_cache :
  let w := exampleWorld staleState [] ∅ in
  let w1 := exec (registerRequestCallbacks exampleEnv 0%nat
                    (WrappedRequest.mk "1" (BackIn.DUPLICATE_GAME "nope" false))) w in
  BackState.queries (World.state w1) !! hash_BROWSE_VIEW_PAGE exampleEnv exampleQuery
  = Some staleEntry /\
  BackState.queries (World.state w1) <> ∅ /\
  newTrace (registerRequestCallbacks exampleEnv 0%nat
              (WrappedRequest.mk "2" (BackIn.BROWSE_VIEW_PAGE exampleQuery 0 10))) w1
  = [Sent 0%nat (response "2" BackOut.BROWSE_VIEW_PAGE_RESPONSE
                   (DBrowseViewPage [viewGame (exampleGame "g1" "Mario")] 0 1))].
Proof.
  assert (H : BackState.queries (World.state (exec (registerRequestCallbacks exampleEnv 0%nat
                    (WrappedRequest.mk "1" (BackIn.DUPLICATE_GAME "nope" false)))
                    (exampleWorld staleState [] ∅)))
              !! hash_BROWSE_VIEW_PAGE exampleEnv exampleQuery = Some staleEntry).
  { vm_compute. reflexivity. }
  split; [exact H|]. split.
  - intros Hempty. rewrite Hempty in H. rewrite lookup_empty in H. discriminate.
  - vm_compute. reflexivity.
Qed.

(** C10. A duplicate-entry whose id matches no game of the catalog
    returns, leaves the catalog, the files and the state of the back end,
    the cache with it, as they were, and does one thing: it answers with
    an ordinary BROWSE_CHANGE that carries the number of games. *)
Theorem duplicate_of_missing_is_silent (E : Env.t) (target : Channel) (id gameId : string)
  (dupeImages : bool) (w : World.t) :
  find (fun g => String.eqb (Game.id g) gameId) (World.db w) = None ->
  let run := on_DUPLICATE_GAME E target id gameId dupeImages in
  returns run w = true /\
  World.db (exec run w) = World.db w /\
  World.fs (exec run w) = World.fs w /\
  World.state (exec run w) = World.state w /\
  newTrace run w =
    [Sent target (response id BackOut.BROWSE_CHANGE
                    (DBrowseChange None (Z.of_nat (length (World.db w)))))].
Proof.
  intros Hf run. subst run.
  assert (Hrun : on_DUPLICATE_GAME E target id gameId dupeImages w =
                 respond target (response id BackOut.BROWSE_CHANGE
                   (DBrowseChange None (Z.of_nat (length (World.db w))))) w).
  { unfold on_DUPLICATE_GAME, GameManager.findGame, bind, getDb, ret. simpl.
    rewrite Hf. reflexivity. }
  unfold returns, exec. rewrite Hrun. simpl. repeat split; try reflexivity.
  eapply newTrace_of_run; [exact Hrun | reflexivity].
Qed.

Lemma duplicate_of_missing_is_silent_witness :
  let run := on_DUPLICATE_GAME exampleEnv 0%nat "1" "nope" true in
  let w := exampleWorld staleState [exampleGame "g1" "Mario"] ∅ in
  World.state (exec run w) = World.state w /\
  newTrace run w =
    [Sent 0%nat (response "1" BackOut.BROWSE_CHANGE (DBrowseChange None 1))].
Proof.
  intros run w.
  destruct (duplicate_of_missing_is_silent exampleEnv 0%nat "1" "nope" true w)
    as [_ [_ [_ [Hs Ht]]]]; [reflexivity|].
  split; [exact Hs | exact Ht].
Defined.

(** ** C4, C5: a page and a quick search of a cached query *)

Section Slice.

Context {A : Type}.

Lemma slice_window (l : list A) (offset limit : Z) :
  0 <= offset -> 0 <= offset + limit ->
  slice l offset (offset + limit) = specPageWindow l offset limit.
Proof.
  intros Ho Hl. unfold slice, specPageWindow, relativeIndex.
  destruct (Z.ltb_spec offset 0) as [?|_]; [lia|].
  destruct (Z.ltb_spec (offset + limit) 0) as [?|_]; [lia|].
  set (len := Z.of_nat (length l)).
  destruct (Z.le_gt_cases offset len) as [Hle|Hgt].
  - rewrite (Z.min_l offset len), (Z.max_l offset 0) by lia.
    f_equal. lia.
  - rewrite (Z.min_r offset len), (Z.max_l offset 0) by lia.
    rewrite !drop_ge by (subst len; lia). now rewrite !take_nil.
Qed.

Lemma slice_window_take_drop (l : list A) (offset limit : Z) :
  0 <= offset -> 0 <= offset + limit ->
  slice l offset (offset + limit) = take (Z.to_nat limit) (drop (Z.to_nat offset) l).
Proof.
  intros Ho Hl. rewrite slice_window by assumption. unfold specPageWindow.
  set (len := Z.of_nat (length l)).
  rewrite (Z.max_l offset 0) by lia.
  destruct (Z.le_gt_cases (offset + limit) len) as [Hle|Hgt].
  - rewrite Z.min_l by lia. f_equal. lia.
  - rewrite Z.min_r by lia.
    destruct (Z.le_gt_cases offset len) as [Hole|Hogt].
    + rewrite !take_ge; [reflexivity | |]; rewrite length_drop; subst len; lia.
    + rewrite !drop_ge by (subst len; lia). now rewrite !take_nil.
Qed.

End Slice.

Section QuickSearch.

Lemma quickSearch_first (games : list Game.t) (search : string) (i0 : Z) :
  match quickSearch games search i0 with
  | (Some gid, Some i) =>
      exists (n : nat) (g : Game.t),
        i = i0 + Z.of_nat n /\ games !! n = Some g /\ gid = Game.id g /\
        titleStartsWith search g = true /\
        forall (j : nat) (g' : Game.t),
          (j < n)%nat -> games !! j = Some g' -> titleStartsWith search g' = false
  | (None, None) => forall g, In g games -> titleStartsWith search g = false
  | _ => False
  end.
Proof.
  revert i0. induction games as [|g games IH]; intros i0; cbn [quickSearch].
  - intros g [].
  - destruct (JS.startsWith (JS.toLowerCase (Game.title g)) search) eqn:Hs.
    + exists 0%nat, g. repeat split; auto; [lia | intros j g' Hj; lia].
    + specialize (IH (i0 + 1)).
      destruct (quickSearch games search (i0 + 1)) as [[gid|] [i|]]; try contradiction.
      * destruct IH as [n [g1 [Hi [Hn [Hid [Ht Hfirst]]]]]].
        exists (S n), g1. repeat split; auto; [lia|].
        intros [|j] g' Hj Hg'.
        -- injection Hg' as <-. exact Hs.
        -- apply (Hfirst j g'); [lia | exact Hg'].
      * intros g' [<-|Hin]; [exact Hs | now apply IH].
Qed.

Lemma quickSearch_lower (games : list Game.t) (search : string) (i0 : Z) :
  JS.toLowerCase search = search ->
  quickSearch games search i0 = specQuickSearch games search i0.
Proof.
  intros Hl. revert i0. induction games as [|g games IH]; intros i0; simpl.
  - reflexivity.
  - rewrite Hl. destruct (JS.startsWith _ _); [reflexivity | apply IH].
Qed.

End QuickSearch.

(** C4, as the code has it. For a cached query the browse-page handler
    answers with [viewGames.slice(offset, offset + limit)], the offset and
    the length of the full result. The page is always a run of adjacent
    entries of the view, so no index is out of bounds; when [offset] and
    [offset + limit] are not negative, it is the window
    [offset, offset + limit) clipped to the bounds of the view. *)
Theorem page_of_cached_query (E : Env.t) (target : Channel) (id : string)
  (q : BackQuery.t) (offset limit : Z) (w : World.t) (cache : BackQueryChache.t) :
  BackState.queries (World.state w) !! hash_BROWSE_VIEW_PAGE E q = Some cache ->
  let run := on_BROWSE_VIEW_PAGE E target id q offset limit in
  let page := slice (BackQueryChache.viewGames cache) offset (offset + limit) in
  newTrace run w =
    [Sent target (response id BackOut.BROWSE_VIEW_PAGE_RESPONSE
       (DBrowseViewPage page offset (Z.of_nat (length (BackQueryChache.games cache)))))] /\
  (exists k n : nat, page = take n (drop k (BackQueryChache.viewGames cache))) /\
  (0 <= offset -> 0 <= offset + limit ->
   page = specPageWindow (BackQueryChache.viewGames cache) offset limit /\
   page = take (Z.to_nat limit) (drop (Z.to_nat offset) (BackQueryChache.viewGames cache))).
Proof.
  intros Hc run page. split; [|split].
  - subst run. unfold on_BROWSE_VIEW_PAGE.
    eapply newTrace_of_run.
    + unfold bind. rewrite (cachedQuery_hit E _ _ w cache Hc). reflexivity.
    + reflexivity.
  - subst page. unfold slice. eauto.
  - intros Ho Hl. subst page. split.
    + now apply slice_window.
    + now apply slice_window_take_drop.
Qed.

Lemma page_of_cached_query_witness :
  let w := exampleWorld threeState [] ∅ in
  let run := on_BROWSE_VIEW_PAGE exampleEnv 0%nat "2" exampleQuery 1 5 in
  newTrace run w =
    [Sent 0%nat (response "2" BackOut.BROWSE_VIEW_PAGE_RESPONSE
       (DBrowseViewPage [viewGame (exampleGame "g2" "Mario Kart");
                         viewGame (exampleGame "g3" "Metroid")] 1 3))].
Proof.
  intros w run.
  destruct (page_of_cached_query exampleEnv 0%nat "2" exampleQuery 1 5 w threeEntry)
    as [Ht _]; [vm_compute; reflexivity|].
  exact Ht.
Defined.

(** The claim C4 fails for a negative offset: with three cached entries,
    offset -2 and limit 1 the handler returns the second entry, which is
    not in the window [-2, -1) of the claim; that window, clipped to the
    bounds, is empty. *)
Lemma page_negative_offset_counterexample :
  let w := exampleWorld threeState [] ∅ in
  newTrace (on_BROWSE_VIEW_PAGE exampleEnv 0%nat "2" exampleQuery (-2) 1) w =
    [Sent 0%nat (response "2" BackOut.BROWSE_VIEW_PAGE_RESPONSE
       (DBrowseViewPage [viewGame (exampleGame "g2" "Mario Kart")] (-2) 3))] /\
  specPageWindow (BackQueryChache.viewGames threeEntry) (-2) 1 = [].
Proof. split; vm_compute; reflexivity. Qed.

(** C5, as the code has it. For a cached query the quick-search handler
    answers with the id and the index of the first game of the full result
    whose title, in lower case, starts with the text of the request as it
    was sent, and with neither when there is no such game. The text of the
    request is not put in lower case: when it is in lower case already,
    the answer is the one of the spec. *)
Theorem quick_search_of_cached_query (E : Env.t) (target : Channel) (id : string)
  (q : BackQuery.t) (search : string) (w : World.t) (cache : BackQueryChache.t) :
  BackState.queries (World.state w) !! hash_QUICK_SEARCH E q = Some cache ->
  let run := on_QUICK_SEARCH E target id q search in
  let games := BackQueryChache.games cache in
  exists (result : option string) (index : option Z),
    newTrace run w =
      [Sent target (response id BackOut.GENERIC_RESPONSE (DQuickSearch result index))] /\
    match result, index with
    | Some gid, Some i =>
        exists (n : nat) (g : Game.t),
          i = Z.of_nat n /\ games !! n = Some g /\ gid = Game.id g /\
          titleStartsWith search g = true /\
          forall (j : nat) (g' : Game.t),
            (j < n)%nat -> games !! j = Some g' -> titleStartsWith search g' = false
    | None, None => forall g, In g games -> titleStartsWith search g = false
    | _, _ => False
    end /\
    (JS.toLowerCase search = search -> (result, index) = specQuickSearch games search 0).
Proof.
  intros Hc run games.
  destruct (quickSearch games search 0) as [result index] eqn:Hqs.
  exists result, index. split; [|split].
  - subst run. unfold on_QUICK_SEARCH. eapply newTrace_of_run.
    + unfold bind. rewrite (cachedQuery_hit E _ _ w cache Hc).
      fold games. rewrite Hqs. reflexivity.
    + reflexivity.
  - pose proof (quickSearch_first games search 0) as H. rewrite Hqs in H.
    destruct result as [gid|], index as [i|]; try contradiction; exact H.
  - intros Hl. rewrite <- Hqs. now apply quickSearch_lower.
Qed.

Lemma quick_search_of_cached_query_witness :
  let w := exampleWorld threeState [] ∅ in
  exists (result : option string) (index : option Z),
    newTrace (on_QUICK_SEARCH exampleEnv 0%nat "3" exampleQuery "me") w =
      [Sent 0%nat (response "3" BackOut.GENERIC_RESPONSE (DQuickSearch result index))] /\
    (result, index) = (Some "g3", Some 2).
Proof.
  intros w.
  destruct (quick_search_of_cached_query exampleEnv 0%nat "3" exampleQuery "me" w threeEntry)
    as [result [index [Ht [_ Hspec]]]]; [vm_compute; reflexivity|].
  exists result, index. split; [exact Ht|].
  rewrite Hspec; reflexivity.
Defined.

(** The claim C5 fails for a prefix with a capital letter: the game titled
    Mario is the first whose case-folded title starts with the case-folded
    prefix Ma, and the handler answers with no id and no index. *)
Lemma quick_search_capital_prefix_counterexample :
  let w := exampleWorld threeState [] ∅ in
  newTrace (on_QUICK_SEARCH exampleEnv 0%nat "3" exampleQuery "Ma") w =
    [Sent 0%nat (response "3" BackOut.GENERIC_RESPONSE (DQuickSearch None None))] /\
  specQuickSearch (BackQueryChache.games threeEntry) "Ma" 0 = (Some "g1", Some 0).
Proof. split; vm_compute; reflexivity. Qed.

(** ** C6, C7: the file name of a playlist *)

Section Allocation.

Variable E : Env.t.

Lemma pathExists_run (p : string) (w : World.t) :
  pathExists p w = (Ok (bool_decide (p ∈ World.fs w)), w).
Proof. reflexivity. Qed.

(** When every candidate from [n] up to 99 is taken, the loop ends without
    a name and without having changed anything. *)
Lemma probe_exhausted (fuel : nat) (folder part0 part1 : string) (n : Z) (w : World.t) :
  (forall k, n <= k < 100 ->
     path_join2 E folder (part0 +:+ JS.numberToString k +:+ part1) ∈ World.fs w) ->
  probe E fuel folder part0 part1 n w = (Ok "", w).
Proof.
  revert n. induction fuel as [|fuel IH]; intros n Hall; cbn [probe].
  - reflexivity.
  - destruct (Z.ltb_spec n 100) as [Hlt|Hge]; [|reflexivity].
    unfold bind. rewrite pathExists_run.
    rewrite bool_decide_eq_true_2 by (apply Hall; lia).
    apply IH. intros k Hk. apply Hall. lia.
Qed.

Lemma coolFilename_exhausted (folder filename : string) (w : World.t) :
  path_join2 E folder filename ∈ World.fs w ->
  (forall n part0 part1 k,
     numberedParts filename = (Some n, part0, part1) -> n <= k < 100 ->
     path_join2 E folder (part0 +:+ JS.numberToString k +:+ part1) ∈ World.fs w) ->
  coolFilename E folder filename w = (Ok "", w).
Proof.
  intros Htaken Hall. unfold coolFilename, bind. rewrite pathExists_run.
  rewrite bool_decide_eq_true_2 by exact Htaken.
  destruct (numberedParts filename) as [[[n|] part0] part1] eqn:Hp; [|reflexivity].
  apply probe_exhausted. intros k Hk. now apply (Hall n part0 part1 k).
Qed.

End Allocation.

(** C7. When the name of the playlist is taken and every numbered
    candidate that the loop probes is taken too, the save-playlist handler
    returns, writes no file and deletes no file: the files are as they
    were, and the one thing the handler does is to answer. *)
Theorem exhausted_names_abort_save (E : Env.t) (target : Channel) (id : string)
  (playlist : GamePlaylist.t) (prevFilename : option string) (w : World.t)
  (folder : string) :
  let filename :=
    Env.sanitizeFilename E
      (if nonEmpty (GamePlaylist.filename playlist) then GamePlaylist.filename playlist
       else GamePlaylist.title playlist +:+ ".json") in
  usableFolder (World.state w) = Some folder ->
  prevFilename <> Some filename ->
  path_join2 E folder filename ∈ World.fs w ->
  (forall n part0 part1 k,
     numberedParts filename = (Some n, part0, part1) -> n <= k < 100 ->
     path_join2 E folder (part0 +:+ JS.numberToString k +:+ part1) ∈ World.fs w) ->
  let run := on_SAVE_PLAYLIST E target id playlist prevFilename in
  returns run w = true /\
  World.fs (exec run w) = World.fs w /\
  newTrace run w = [Sent target (response id BackOut.GENERIC_RESPONSE DUndefined)].
Proof.
  intros filename Hfolder Hprev Htaken Hall run.
  assert (Hrun : run w = respond target (response id BackOut.GENERIC_RESPONSE DUndefined) w).
  { subst run. unfold on_SAVE_PLAYLIST. unfold bind at 1. cbn [getState].
    fold filename. rewrite Hfolder.
    unfold bind at 1, when.
    destruct (nonEmpty filename) eqn:Hne; [|reflexivity].
    assert (Hne' : match prevFilename with
                   | Some prev => String.eqb prev filename
                   | None => false
                   end = false).
    { destruct prevFilename as [prev|]; [|reflexivity].
      apply String.eqb_neq. intros ->. now apply Hprev. }
    rewrite Hne'. unfold bind at 1.
    rewrite (coolFilename_exhausted E folder filename w Htaken Hall). reflexivity. }
  unfold returns, exec. rewrite Hrun. simpl. repeat split.
  eapply newTrace_of_run; [exact Hrun | reflexivity].
Qed.

Lemma numberedNames_taken (k : Z) :
  2 <= k < 100 ->
  path_join2 exampleEnv "Playlists" ("Foo " +:+ JS.numberToString k +:+ ".json")
  ∈ folderOf ("Foo.json" :: numberedNames).
Proof.
  intros Hk. unfold folderOf. apply elem_of_list_to_set, list_elem_of_fmap.
  exists ("Foo " +:+ JS.numberToString k +:+ ".json"). split; [reflexivity|].
  right. unfold numberedNames. apply list_elem_of_fmap.
  exists k. split; [reflexivity|]. apply elem_of_seqZ. lia.
Qed.

Lemma exhausted_names_abort_save_witness :
  let w := exampleWorld exampleState [] (folderOf ("Foo.json" :: numberedNames)) in
  let run := on_SAVE_PLAYLIST exampleEnv 0%nat "5" (GamePlaylist.mk "Foo.json" "Foo" []) None in
  World.fs (exec run w) = World.fs w /\
  newTrace run w = [Sent 0%nat (response "5" BackOut.GENERIC_RESPONSE DUndefined)].
Proof.
  intros w run.
  destruct (exhausted_names_abort_save exampleEnv 0%nat "5"
              (GamePlaylist.mk "Foo.json" "Foo" []) None w "Playlists")
    as [_ [Hfs Htr]].
  - reflexivity.
  - discriminate.
  - apply elem_of_list_to_set. left.
  - intros n part0 part1 k Hparts Hk.
    vm_compute in Hparts. injection Hparts as <- <- <-.
    apply numberedNames_taken. lia.
  - split; [exact Hfs | exact Htr].
Defined.

(** C6. The number is taken from the last part of the name, which is the
    extension when the name has a dot. In a folder that holds
    [Foo 2.json], the name [Foo 2.json] becomes [Foo 2 2.json], where the
    allocation of the spec gives [Foo 3.json]; a name without a dot gets
    its number without a space. The example of the claim holds: with
    [Foo.json] and [Foo 2.json] in the folder, [Foo.json] becomes
    [Foo 3.json]. *)
Theorem coolFilename_number_from_last_part :
  let w := exampleWorld exampleState [] (folderOf ["Foo 2.json"]) in
  let w' := exampleWorld exampleState [] (folderOf ["Foo"]) in
  let w'' := exampleWorld exampleState [] (folderOf ["Foo.json"; "Foo 2.json"]) in
  fst (coolFilename exampleEnv "Playlists" "Foo 2.json" w) = Ok "Foo 2 2.json" /\
  newTrace (on_SAVE_PLAYLIST exampleEnv 0%nat "5"
              (GamePlaylist.mk "Foo 2.json" "Foo 2" []) None) w
  = [WroteFile "Playlists/Foo 2 2.json";
     Sent 0%nat (response "5" BackOut.GENERIC_RESPONSE DUndefined)] /\
  specAllocate (takenIn exampleEnv "Playlists" w) "Foo 2.json" = Some "Foo 3.json" /\
  fst (coolFilename exampleEnv "Playlists" "Foo" w') = Ok "Foo2" /\
  specAllocate (takenIn exampleEnv "Playlists" w') "Foo" = Some "Foo 2" /\
  fst (coolFilename exampleEnv "Playlists" "Foo.json" w'') = Ok "Foo 3.json" /\
  specAllocate (takenIn exampleEnv "Playlists" w'') "Foo.json" = Some "Foo 3.json".
Proof. repeat split; vm_compute; reflexivity. Qed.

(** ** C8: the diff of the preferences *)

Lemma value_ind_props (P : value -> Prop) :
  P VUndefined -> P VNull -> (forall b, P (VBool b)) -> (forall n, P (VNum n)) ->
  (forall s, P (VStr s)) ->
  (forall props, Forall (fun kv => P (snd kv)) props -> P (VObj props)) ->
  forall v, P v.
Proof.
  intros Hu Hn Hb Hz Hs Ho. fix IH 1.
  intros [| |b|n|s|props]; [exact Hu | exact Hn | apply Hb | apply Hz | apply Hs | ].
  apply Ho. induction props as [|[k v] props IHp]; constructor; [apply IH | exact IHp].
Qed.

Lemma classic_value_eq (x : value) : forall y, x = y \/ x <> y.
Proof.
  induction x as [| | | | |props IH] using value_ind_props; intros y;
    destruct y as [| |b'|n'|s'|props']; try (right; discriminate); try (left; reflexivity).
  - destruct (Bool.bool_dec b b') as [->|H]; [now left | right; congruence].
  - destruct n as [z|], n' as [z'|]; try (right; discriminate); try (left; reflexivity).
    destruct (Z.eq_dec z z') as [->|H]; [now left | right; congruence].
  - destruct (String.string_dec s s') as [->|H]; [now left | right; congruence].
  - assert (Hp : props = props' \/ props <> props').
    { revert props'. induction IH as [|[k v] props Hv _ IHp]; intros [|[k' v'] props'];
        try (right; discriminate); try (left; reflexivity).
      cbn [snd] in Hv.
      destruct (String.string_dec k k') as [->|Hk]; [|right; congruence].
      destruct (Hv v') as [->|Hv']; [|right; congruence].
      destruct (IHp props') as [->|Hp]; [now left | right; congruence]. }
    destruct Hp as [->|Hp]; [now left | right; congruence].
Qed.

Section Diff.

Variable sameObject : value -> value -> bool.

(** One object has one content. *)
Hypothesis sameObject_sound : forall x y, sameObject x y = true -> x = y.

Lemma difObjects_keys (tprops : list (string * value)) (a b : value) :
  difObjects sameObject (VObj tprops) a b = difKeys sameObject a b tprops None.
Proof. reflexivity. Qed.

Lemma strictEq_eq (x y : value) : strictEq sameObject x y = true -> x = y.
Proof.
  destruct x, y; simpl; try discriminate; try reflexivity; intros H.
  - now apply Bool.eqb_prop in H as ->.
  - destruct n as [a|], n0 as [b|]; try discriminate H.
    now apply Z.eqb_eq in H as ->.
  - now apply String.eqb_eq in H as ->.
  - now apply sameObject_sound.
Qed.

(** [===] is reflexive on a value of the shape of a template that is not
    an object: on a number that is not [NaN]. *)
Lemma strictEq_refl (t x : value) :
  matchesShape t x = true -> (forall p, x <> VObj p) -> strictEq sameObject x x = true.
Proof.
  destruct x as [| |b|[z|]|s|props]; simpl; intros Hm H; auto.
  - apply Bool.eqb_reflx.
  - apply Z.eqb_refl.
  - destruct t; discriminate Hm.
  - apply String.eqb_refl.
  - now destruct (H props).
Qed.

Lemma matchesShape_object (t : value) (props : list (string * value)) :
  matchesShape t (VObj props) = true -> exists tprops, t = VObj tprops.
Proof. destruct t; simpl; try discriminate. eauto. Qed.

Lemma matchesShape_props (tprops vprops : list (string * value)) (k : string) (tk : value) :
  matchesShape (VObj tprops) (VObj vprops) = true -> In (k, tk) tprops ->
  matchesShape tk (lookupProp vprops k) = true.
Proof.
  cbn [matchesShape]. rewrite forallb_forall. intros H Hin. apply (H (k, tk) Hin).
Qed.

(** No property read throws when the two values are objects that are not
    [null] where the template is an object. *)
Lemma difObjects_returns (t : value) :
  forall aprops bprops,
    noNullGroup t (VObj aprops) = true -> noNullGroup t (VObj bprops) = true ->
    is_Some (difObjects sameObject t (VObj aprops) (VObj bprops)).
Proof.
  induction t as [| | | | |tprops IH] using value_ind_props; intros aprops bprops Ha Hb;
    try (eexists; reflexivity).
  rewrite difObjects_keys. cbn [noNullGroup] in Ha, Hb.
  rewrite forallb_forall in Ha, Hb.
  generalize (@None (list (string * value))).
  induction tprops as [|[k tk] keys IHk]; intros dif; [eexists; reflexivity|].
  inversion IH as [|? ? IHtk IHrest]; subst. cbn [snd] in IHtk.
  assert (Hrest : forall dif', is_Some (difKeys sameObject (VObj aprops) (VObj bprops) keys dif')).
  { intros dif'. apply IHk; [exact IHrest | |]; intros kt Hin; [apply Ha | apply Hb]; now right. }
  pose proof (Ha (k, tk) (or_introl eq_refl)) as Hak.
  pose proof (Hb (k, tk) (or_introl eq_refl)) as Hbk. cbn [fst snd] in Hak, Hbk.
  cbn [difKeys getProp].
  destruct (negb (strictEq sameObject (lookupProp aprops k) (lookupProp bprops k))
            && negb (strictEq sameObject (lookupProp bprops k) VUndefined)); [|apply Hrest].
  destruct (typeofObject tk && typeofObject (lookupProp aprops k)
            && typeofObject (lookupProp bprops k)) eqn:Hty; [|apply Hrest].
  apply andb_prop in Hty as [Hty Htb]. apply andb_prop in Hty as [Htt Hta].
  destruct tk as [| | | | |tsub]; try discriminate; [apply Hrest|].
  destruct (lookupProp aprops k) as [| | | | |asub]; try discriminate.
  destruct (lookupProp bprops k) as [| | | | |bsub]; try discriminate.
  destruct (IHtk asub bsub Hak Hbk) as [r Hr]. rewrite Hr.
  destruct r; apply Hrest.
Qed.

(** A value of the shape of the template has an empty diff with itself. *)
Lemma difObjects_same (t : value) :
  forall a, matchesShape t a = true -> difObjects sameObject t a a = Some VUndefined.
Proof.
  induction t as [| | | | |tprops IH] using value_ind_props; intros a Ha;
    try reflexivity.
  destruct a as [| | | | |aprops]; try discriminate.
  rewrite difObjects_keys.
  assert (Hall : forall k tk, In (k, tk) tprops ->
                   matchesShape tk (lookupProp aprops k) = true)
    by (intros k tk; now apply matchesShape_props).
  clear Ha. induction tprops as [|[k tk] keys IHk]; [reflexivity|].
  cbn [difKeys getProp].
  inversion IH as [|? ? IHtk IHrest]; subst.
  destruct (strictEq sameObject (lookupProp aprops k) (lookupProp aprops k)) eqn:Heq.
  - cbn [negb andb]. apply IHk; [exact IHrest | intros; apply Hall; now right].
  - cbn [negb andb].
    pose proof (Hall k tk (or_introl eq_refl)) as Hm. revert Heq Hm.
    destruct (lookupProp aprops k) as [| | | | |sub] eqn:Hak; intros Heq Hm;
      try (rewrite (strictEq_refl tk) in Heq by first [exact Hm | discriminate];
           discriminate).
    destruct (matchesShape_object _ _ Hm) as [tsub ->].
    cbn [strictEq negb andb typeofObject].
    cbn [snd] in IHtk. rewrite (IHtk (VObj sub) Hm).
    apply IHk; [exact IHrest | intros; apply Hall; now right].
Qed.

(** A key whose two values are equal, the value being of the shape of the
    template, is passed over. *)
Lemma difKeys_skip_equal (aprops bprops : list (string * value)) (k : string) (tk : value)
  (keys : list (string * value)) (dif : option (list (string * value))) :
  lookupProp bprops k = lookupProp aprops k ->
  matchesShape tk (lookupProp aprops k) = true ->
  difKeys sameObject (VObj aprops) (VObj bprops) ((k, tk) :: keys) dif
  = difKeys sameObject (VObj aprops) (VObj bprops) keys dif.
Proof.
  intros Hsame Hm. cbn [difKeys getProp]. rewrite Hsame.
  destruct (strictEq sameObject (lookupProp aprops k) (lookupProp aprops k)) eqn:Heq;
    [reflexivity|].
  cbn [negb andb]. revert Heq Hm.
  destruct (lookupProp aprops k) as [| | | | |sub] eqn:Hak; intros Heq Hm;
    try (rewrite (strictEq_refl tk) in Heq by first [exact Hm | discriminate];
         discriminate).
  destruct (matchesShape_object _ _ Hm) as [tsub ->].
  cbn [strictEq negb andb typeofObject].
  now rewrite (difObjects_same (VObj tsub) (VObj sub) Hm).
Qed.

(** A key of the candidate that is [undefined] is passed over. *)
Lemma difKeys_skip_undefined (aprops bprops : list (string * value)) (k : string) (tk : value)
  (keys : list (string * value)) (dif : option (list (string * value))) :
  lookupProp bprops k = VUndefined ->
  difKeys sameObject (VObj aprops) (VObj bprops) ((k, tk) :: keys) dif
  = difKeys sameObject (VObj aprops) (VObj bprops) keys dif.
Proof.
  intros Hu. cbn [difKeys getProp]. rewrite Hu.
  destruct (lookupProp aprops k); reflexivity.
Qed.

Lemma setProp_keys (d : list (string * value)) (k0 k : string) (v : value) :
  In k (map fst (setProp d k0 v)) -> k = k0 \/ In k (map fst d).
Proof.
  induction d as [|[k1 v1] d IH]; cbn [setProp map fst In].
  - intros [<-|[]]. now left.
  - destruct (String.eqb_spec k1 k0) as [->|Hne]; cbn [map fst In].
    + intros [<-|Hin]; auto.
    + intros [<-|Hin]; auto. destruct (IH Hin); auto.
Qed.

(** One turn of the loop leaves [dif] as it is or assigns its key. *)
Lemma difKeys_step (a b : value) (k0 : string) (tk : value)
  (rest : list (string * value)) (dif : option (list (string * value))) (r : value) :
  difKeys sameObject a b ((k0, tk) :: rest) dif = Some r ->
  exists dif', difKeys sameObject a b rest dif' = Some r /\
               (dif' = dif \/ exists v, dif' = assign dif k0 v).
Proof.
  cbn [difKeys].
  destruct (getProp a k0) as [ak|]; [|discriminate].
  destruct (getProp b k0) as [bk|]; [|discriminate].
  destruct (negb (strictEq sameObject ak bk) && negb (strictEq sameObject bk VUndefined));
    [|eauto].
  destruct (typeofObject tk && typeofObject ak && typeofObject bk); [|eauto].
  destruct (difObjects sameObject tk ak bk) as [[| | | | |sub]|]; try discriminate; eauto.
Qed.

(** The keys of the diff are keys whose candidate value is defined and is
    not the current value. *)
Lemma difKeys_changed (aprops bprops : list (string * value)) :
  forall (keys : list (string * value)) (dif : option (list (string * value))) (r : value),
    (forall k tk, In (k, tk) keys -> matchesShape tk (lookupProp aprops k) = true) ->
    difKeys sameObject (VObj aprops) (VObj bprops) keys dif = Some r ->
    forall k, In k (keysOf r) ->
      In k (keysOf (difValue dif)) \/
      (lookupProp bprops k <> VUndefined /\ lookupProp bprops k <> lookupProp aprops k).
Proof.
  induction keys as [|[k0 tk] rest IH]; intros dif r Hall Hr k Hk.
  - cbn [difKeys] in Hr. injection Hr as <-. now left.
  - assert (Hrest : forall k tk, In (k, tk) rest ->
                      matchesShape tk (lookupProp aprops k) = true)
      by (intros; apply Hall; now right).
    destruct (classic_value_eq (lookupProp bprops k0) VUndefined) as [Hu|Hu].
    { rewrite difKeys_skip_undefined in Hr by exact Hu. now apply (IH dif r). }
    destruct (classic_value_eq (lookupProp bprops k0) (lookupProp aprops k0)) as [He|He].
    { rewrite difKeys_skip_equal in Hr; [now apply (IH dif r) | exact He |].
      apply Hall. now left. }
    destruct (difKeys_step _ _ _ _ _ _ _ Hr) as [dif' [Hr' Hd]].
    destruct (IH dif' r Hrest Hr' k Hk) as [Hin|Hch]; [|now right].
    destruct Hd as [->|[v ->]]; [now left|].
    cbn [assign difValue keysOf] in Hin. apply setProp_keys in Hin as [->|Hin].
    + now right.
    + left. destruct dif; [exact Hin | destruct Hin].
Qed.

Lemma lookupProp_In (props : list (string * value)) (k : string) (v : value) :
  NoDup (map fst props) -> In (k, v) props -> lookupProp props k = v.
Proof.
  induction props as [|[k1 v1] props IH]; cbn [map fst lookupProp In]; [intros _ []|].
  intros Hnd [Heq|Hin].
  - injection Heq as -> ->. now rewrite String.eqb_refl.
  - apply NoDup_cons in Hnd as [Hk1 Hnd].
    destruct (String.eqb_spec k1 k) as [->|Hne]; [|now apply IH].
    exfalso. apply Hk1. apply list_elem_of_In. apply in_map_iff. now exists (k, v).
Qed.

Section OneKey.

Variables (aprops bprops : list (string * value)) (k0 : string) (v : value).

Let A := VObj aprops.
Let B := VObj bprops.

Lemma difKeys_none_changed (keys : list (string * value))
  (dif : option (list (string * value))) :
  (forall k tk, In (k, tk) keys ->
     lookupProp bprops k = lookupProp aprops k /\
     matchesShape tk (lookupProp aprops k) = true) ->
  difKeys sameObject A B keys dif = Some (difValue dif).
Proof.
  induction keys as [|[k tk] rest IH]; intros Hall; [reflexivity|].
  destruct (Hall k tk (or_introl eq_refl)) as [He Hm].
  subst A B. rewrite difKeys_skip_equal by assumption.
  apply IH. intros; apply Hall; now right.
Qed.

Lemma difKeys_one_changed (keys : list (string * value))
  (dif : option (list (string * value))) :
  NoDup (map fst keys) ->
  In k0 (map fst keys) ->
  (forall k tk, In (k, tk) keys -> k <> k0 ->
     lookupProp bprops k = lookupProp aprops k /\
     matchesShape tk (lookupProp aprops k) = true) ->
  (forall tk rest dif', In (k0, tk) keys ->
     difKeys sameObject A B ((k0, tk) :: rest) dif'
     = difKeys sameObject A B rest (assign dif' k0 v)) ->
  difKeys sameObject A B keys dif = Some (difValue (assign dif k0 v)).
Proof.
  induction keys as [|[k tk] rest IH]; cbn [map fst In]; intros Hnd Hin Hall Hstep;
    [destruct Hin|].
  apply NoDup_cons in Hnd as [Hk Hnd].
  destruct (String.eqb_spec k k0) as [->|Hne].
  - rewrite Hstep by now left.
    apply difKeys_none_changed. intros k1 tk1 Hin1. apply Hall; [now right|].
    intros ->. apply Hk. apply list_elem_of_In, in_map_iff. now exists (k0, tk1).
  - destruct Hin as [Heq|Hin]; [contradiction|].
    destruct (Hall k tk (or_introl eq_refl) Hne) as [He Hm].
    subst A B. rewrite difKeys_skip_equal by assumption.
    apply IH; auto.
Qed.

End OneKey.

(** Two values of the shape of the template that differ at one leaf of one
    nested object have that leaf as their diff. *)
Lemma difObjects_one_leaf (tprops tn aprops an bprops bn : list (string * value))
  (nested leaf : string) :
  matchesShape (VObj tprops) (VObj aprops) = true ->
  matchesShape (VObj tprops) (VObj bprops) = true ->
  NoDup (map fst tprops) -> NoDup (map fst tn) ->
  In (nested, VObj tn) tprops -> In leaf (map fst tn) ->
  (forall p, lookupProp tn leaf <> VObj p) ->
  lookupProp aprops nested = VObj an -> lookupProp bprops nested = VObj bn ->
  sameExceptAt nested aprops bprops -> sameExceptAt leaf an bn ->
  lookupProp bn leaf <> lookupProp an leaf ->
  difObjects sameObject (VObj tprops) (VObj aprops) (VObj bprops)
  = Some (VObj [(nested, VObj [(leaf, lookupProp bn leaf)])]).
Proof.
  intros Hma Hmb Hndt Hndn Hnested Hleaf Hnotobj Han Hbn Hsame Hsamen Hdiff.
  pose proof (matchesShape_props _ _ _ _ Hma Hnested) as Hman. rewrite Han in Hman.
  pose proof (matchesShape_props _ _ _ _ Hmb Hnested) as Hmbn. rewrite Hbn in Hmbn.
  assert (Hinner : difObjects sameObject (VObj tn) (VObj an) (VObj bn)
                   = Some (VObj [(leaf, lookupProp bn leaf)])).
  { rewrite difObjects_keys.
    apply (difKeys_one_changed an bn leaf (lookupProp bn leaf) tn None Hndn Hleaf).
    - intros k tk Hin Hne. split; [now apply Hsamen|].
      now apply (matchesShape_props tn an).
    - intros tk rest dif' Hin.
      pose proof (lookupProp_In _ _ _ Hndn Hin) as Htk.
      pose proof (matchesShape_props _ _ _ _ Hman Hin) as Hsa.
      pose proof (matchesShape_props _ _ _ _ Hmbn Hin) as Hsb.
      cbn [difKeys getProp].
      assert (Hne : strictEq sameObject (lookupProp an leaf) (lookupProp bn leaf) = false).
      { destruct (strictEq sameObject _ _) eqn:He; [|reflexivity].
        apply strictEq_eq in He. now destruct Hdiff. }
      rewrite Hne.
      assert (Hno : forall p, tk <> VObj p) by (intros p; rewrite <- Htk; apply Hnotobj).
      destruct tk; try (now destruct (Hno props));
        destruct (lookupProp an leaf), (lookupProp bn leaf);
        try discriminate; try reflexivity; now destruct Hdiff. }
  rewrite difObjects_keys.
  assert (Hin_nested : In nested (map fst tprops)).
  { apply in_map_iff. now exists (nested, VObj tn). }
  apply (difKeys_one_changed aprops bprops nested
           (VObj [(leaf, lookupProp bn leaf)]) tprops None Hndt Hin_nested).
  - intros k tk Hin Hne. split; [now apply Hsame|].
    now apply (matchesShape_props tprops aprops).
  - intros tk rest dif' Hin.
    pose proof (lookupProp_In _ _ _ Hndt Hin) as Htk.
    rewrite (lookupProp_In _ _ _ Hndt Hnested) in Htk. subst tk.
    cbn [difKeys getProp]. rewrite Han, Hbn.
    assert (Hne : strictEq sameObject (VObj an) (VObj bn) = false).
    { destruct (strictEq sameObject _ _) eqn:He; [|reflexivity].
      apply strictEq_eq in He. injection He as ->. now destruct Hdiff. }
    rewrite Hne. cbn [strictEq negb andb typeofObject]. now rewrite Hinner.
Qed.

(** A key of the candidate that is absent, or whose value is the current
    value, is not a key of the diff. *)
Lemma difObjects_unchanged_key (t a : value) (bprops d : list (string * value)) (k : string) :
  matchesShape t a = true ->
  difObjects sameObject t a (VObj bprops) = Some (VObj d) ->
  (lookupProp bprops k = VUndefined \/ getProp a k = Some (lookupProp bprops k)) ->
  ~ In k (map fst d).
Proof.
  intros Hm Hd Hk Hin.
  destruct t as [| | | | |tprops]; try discriminate.
  destruct a as [| | | | |aprops]; try discriminate.
  rewrite difObjects_keys in Hd.
  destruct (difKeys_changed aprops bprops tprops None (VObj d)) with (k := k)
    as [Hnone|[Hu He]]; auto.
  - intros k1 tk1. now apply matchesShape_props.
  - destruct Hk as [Hk|Hk]; [contradiction|].
    cbn [getProp] in Hk. injection Hk as Hk. now destruct He.
Qed.

End Diff.

(** C8, as the code has it. Whatever decides that two values are one
    object, as long as one object has one content: a value of the shape of
    the template, with no [NaN] where the template has a number, has an
    empty diff with itself; two such values that differ at one leaf of one
    nested object have the diff [{nested: {leaf: b.nested.leaf}}]; and a
    key of the candidate that is absent, or whose value is the current
    value, is not a key of the diff. ([matchesShape] leaves [NaN] out:
    [a[key] !== b[key]] holds of two readings of [NaN].) *)
Theorem difObjects_minimal (sameObject : value -> value -> bool) :
  (forall x y, sameObject x y = true -> x = y) ->
  (forall t a, matchesShape t a = true ->
     difObjects sameObject t a a = Some VUndefined) /\
  (forall (tprops tn aprops an bprops bn : list (string * value)) (nested leaf : string),
     matchesShape (VObj tprops) (VObj aprops) = true ->
     matchesShape (VObj tprops) (VObj bprops) = true ->
     NoDup (map fst tprops) -> NoDup (map fst tn) ->
     In (nested, VObj tn) tprops -> In leaf (map fst tn) ->
     (forall p, lookupProp tn leaf <> VObj p) ->
     lookupProp aprops nested = VObj an -> lookupProp bprops nested = VObj bn ->
     sameExceptAt nested aprops bprops -> sameExceptAt leaf an bn ->
     lookupProp bn leaf <> lookupProp an leaf ->
     difObjects sameObject (VObj tprops) (VObj aprops) (VObj bprops)
     = Some (VObj [(nested, VObj [(leaf, lookupProp bn leaf)])])) /\
  (forall (t a : value) (bprops d : list (string * value)) (k : string),
     matchesShape t a = true ->
     difObjects sameObject t a (VObj bprops) = Some (VObj d) ->
     (lookupProp bprops k = VUndefined \/ getProp a k = Some (lookupProp bprops k)) ->
     ~ In k (map fst d)).
Proof.
  intros Hsound. split; [|split].
  - intros t a. apply difObjects_same.
  - intros. now apply (difObjects_one_leaf sameObject Hsound) with (tn := tn) (an := an).
  - intros t a bprops d k. now apply difObjects_unchanged_key.
Qed.

Lemma difObjects_minimal_witness :
  difObjects (fun _ _ => false) (VObj examplePreferences) (VObj examplePreferences)
             (VObj examplePreferences) = Some VUndefined /\
  difObjects (fun _ _ => false) (VObj examplePreferences) (VObj examplePreferences)
             (VObj changedPreferences)
  = Some (VObj [("nested", VObj [("leaf", VNum 2)])]).
Proof.
  destruct (difObjects_minimal (fun _ _ => false)) as [Hsame [Hleaf _]];
    [discriminate|].
  split.
  - apply Hsame. reflexivity.
  - apply (Hleaf examplePreferences [("leaf", VNum 1); ("other", VBool true)]
             examplePreferences [("leaf", VNum 1); ("other", VBool true)]
             changedPreferences [("leaf", VNum 2); ("other", VBool true)]
             "nested" "leaf").
    + reflexivity.
    + reflexivity.
    + apply (bool_decide_unpack _). vm_compute. exact I.
    + apply (bool_decide_unpack _). vm_compute. exact I.
    + simpl. auto.
    + simpl. auto.
    + discriminate.
    + reflexivity.
    + reflexivity.
    + intros k Hk. unfold changedPreferences, examplePreferences. cbn [lookupProp].
      destruct (String.eqb_spec "currentLanguage" k); [reflexivity|].
      destruct (String.eqb_spec "fallbackLanguage" k); [reflexivity|].
      destruct (String.eqb_spec "nested" k); [congruence | reflexivity].
    + intros k Hk. cbn [lookupProp].
      destruct (String.eqb_spec "leaf" k); [congruence|]. reflexivity.
    + discriminate.
Defined.

(** The claim C8 fails for a value that holds [NaN]: the value is a number
    where the template has one, so it is of the shape of the template, and
    its diff with itself is not empty, since [NaN !== NaN]. *)
Lemma difObjects_nan_counterexample :
  let t := VObj [("scale", VNum 1)] in
  let a := VObj [("scale", VNum NaN)] in
  sameKinds t a = true /\
  difObjects (fun _ _ => false) t a a = Some (VObj [("scale", VNum NaN)]) /\
  ~ (forall t a : value, sameKinds t a = true ->
       difObjects (fun _ _ => false) t a a = Some VUndefined).
Proof.
  split; [reflexivity|]. split; [reflexivity|].
  intros H. specialize (H (VObj [("scale", VNum 1)]) (VObj [("scale", VNum NaN)]) eq_refl).
  discriminate H.
Qed.

(** ** C9: the listeners of the init events *)

Section InitEvents.

Variable target : Channel.

(** The loop of INIT_LISTEN returns the stages that are done and adds one
    listener for each stage that is not; it sends nothing. *)
Lemma initListenLoop_run (keys : list (string * bool)) :
  forall (done : list string) (w : World.t),
    let r := initListenLoop target keys done w in
    fst r = Ok (done ++ map fst (List.filter snd keys)) /\
    BackState.init (World.state (snd r)) = BackState.init (World.state w) /\
    BackState.initEmitter (World.state (snd r))
    = BackState.initEmitter (World.state w) ++ addedListeners target keys /\
    World.trace (snd r) = World.trace w.
Proof.
  induction keys as [|[init isDone] keys IH]; intros done w; cbn [initListenLoop].
  - simpl. rewrite !app_nil_r. auto.
  - destruct isDone.
    + destruct (IH (done ++ [init]) w) as [Hr [Hi [He Ht]]].
      cbn zeta. rewrite Hr, Hi, He, Ht. cbn [List.filter snd map fst].
      rewrite <- app_assoc. auto.
    + unfold bind, once, modifyState. 
      match goal with
      | |- context [initListenLoop target keys done ?w1] =>
          destruct (IH done w1) as [Hr [Hi [He Ht]]]
      end.
      cbn zeta. rewrite Hr, Hi, He, Ht. cbn [List.filter snd map fst negb].
      unfold addedListeners. cbn [List.filter snd negb map fst World.state World.trace
                                  BackState.set_initEmitter BackState.initEmitter BackState.init].
      rewrite <- app_assoc. auto.
Qed.

Lemma INIT_LISTEN_run (id : string) (w : World.t) :
  let w1 := exec (on_INIT_LISTEN target id) w in
  BackState.init (World.state w1) = BackState.init (World.state w) /\
  BackState.initEmitter (World.state w1)
  = BackState.initEmitter (World.state w)
    ++ addedListeners target (BackState.init (World.state w)) /\
  newTrace (on_INIT_LISTEN target id) w
  = [Sent target (response id BackOut.INIT_EVENT (DInitEvent (snapshot (World.state w))))].
Proof.
  pose proof (initListenLoop_run (BackState.init (World.state w)) [] w) as H.
  cbn zeta in H. cbn zeta.
  unfold newTrace, exec, on_INIT_LISTEN, bind. cbn [getState].
  destruct (initListenLoop target (BackState.init (World.state w)) [] w) as [o w'].
  cbn [fst snd] in H. destruct H as [-> [Hi [He Ht]]].
  cbn [respond emit snd World.state World.trace].
  split; [exact Hi|]. split; [exact He|].
  rewrite Ht, drop_app_length. reflexivity.
Qed.

Lemma forEach_respond (ls : list InitListener.t) (w : World.t) :
  forEach ls (fun l => respond (InitListener.target l) (initEvent (InitListener.event l))) w
  = (Ok tt, World.mk (World.state w) (World.db w) (World.fs w)
                     (World.trace w ++ firedEvents ls) (World.oracle w) (World.tick w)).
Proof.
  revert w. induction ls as [|l ls IH]; intros w; cbn [forEach firedEvents map].
  - unfold ret. rewrite app_nil_r. now destruct w.
  - unfold bind, respond, emit. rewrite IH. cbn [World.state World.db World.fs World.trace
                                                 World.oracle World.tick].
    now rewrite <- app_assoc.
Qed.

Lemma emitInit_run (m : string) (w : World.t) :
  let w' := exec (emitInit m) w in
  BackState.init (World.state w') = BackState.init (World.state w) /\
  BackState.initEmitter (World.state w')
  = List.filter (fun l => negb (String.eqb (InitListener.event l) m))
                (BackState.initEmitter (World.state w)) /\
  newTrace (emitInit m) w
  = firedEvents (List.filter (fun l => String.eqb (InitListener.event l) m)
                             (BackState.initEmitter (World.state w))).
Proof.
  cbn zeta. unfold newTrace, exec, emitInit, bind. cbn [getState modifyState].
  rewrite forEach_respond. cbn [snd World.state World.trace BackState.set_initEmitter
                                BackState.init BackState.initEmitter].
  rewrite drop_app_length. auto.
Qed.

Lemma notifications_fired (ch : Channel) (m : string) (ls : list InitListener.t) :
  notificationsTo ch m
    (firedEvents (List.filter (fun l => String.eqb (InitListener.event l) m) ls))
  = length (List.filter (isListener ch m) ls).
Proof.
  unfold notificationsTo, firedEvents.
  induction ls as [|[e t] ls IH]; [reflexivity|].
  cbn [List.filter InitListener.event]. unfold isListener at 1.
  cbn [InitListener.event InitListener.target].
  destruct (String.eqb_spec e m) as [->|Hne]; cbn [map List.filter andb].
  - unfold isNotification at 1, initEvent, response.
    cbn [InitListener.target InitListener.event].
    rewrite !String.eqb_refl.
    destruct (Nat.eqb t ch); cbn [andb length]; [f_equal|]; exact IH.
  - exact IH.
Qed.

Lemma no_listener_left (ch : Channel) (m : string) (ls : list InitListener.t) :
  List.filter (fun l => String.eqb (InitListener.event l) m)
    (List.filter (fun l => negb (String.eqb (InitListener.event l) m)) ls) = [].
Proof.
  induction ls as [|l ls IH]; [reflexivity|]. cbn [List.filter].
  destruct (String.eqb (InitListener.event l) m) eqn:He; cbn [negb List.filter];
    [exact IH|]. now rewrite He.
Qed.

Lemma initDone_setProp (s : BackState.t) (m : string) :
  initDone (BackState.set_init (setProp (BackState.init s) m true) s) m = true.
Proof.
  unfold initDone. destruct s as [q p init e pr c cf lc la lcn th ex lg fp sv pf].
  cbn [BackState.set_init BackState.init].
  induction init as [|[k b] init IH]; cbn [setProp find fst snd].
  - now rewrite String.eqb_refl.
  - destruct (String.eqb_spec k m) as [->|Hne]; cbn [find fst snd].
    + now rewrite String.eqb_refl.
    + apply String.eqb_neq in Hne. now rewrite Hne.
Qed.

(** The listeners that a request adds for a stage: one when the stage is
    pending, none when it is done. *)
Lemma addedListeners_count (m : string) (keys : list (string * bool)) :
  NoDup (map fst keys) ->
  length (List.filter (isListener target m) (addedListeners target keys))
  = match find (fun kv => String.eqb (fst kv) m) keys with
    | Some (_, false) => 1%nat
    | _ => 0%nat
    end.
Proof.
  unfold addedListeners.
  induction keys as [|[k b] keys IH]; intros Hnd; [reflexivity|].
  cbn [map fst] in Hnd. apply NoDup_cons in Hnd as [Hk Hnd].
  cbn [find fst snd List.filter].
  destruct (String.eqb_spec k m) as [->|Hne].
  - assert (Hnone : find (fun kv => String.eqb (fst kv) m) keys = None).
    { destruct (find _ keys) as [[k' b']|] eqn:Hf; [|reflexivity].
      apply find_some in Hf as [Hin He]. cbn [fst] in He.
      apply String.eqb_eq in He as ->. exfalso. apply Hk.
      apply list_elem_of_In, in_map_iff. now exists (m, b'). }
    specialize (IH Hnd). rewrite Hnone in IH.
    destruct b; cbn [negb map List.filter fst]; [exact IH|].
    unfold isListener at 1. cbn [InitListener.event InitListener.target].
    rewrite String.eqb_refl, Nat.eqb_refl. cbn [andb length]. now rewrite IH.
  - destruct b; cbn [negb map List.filter fst]; [now apply IH|].
    unfold isListener at 1. cbn [InitListener.event InitListener.target].
    apply String.eqb_neq in Hne. rewrite Hne. cbn [andb]. now apply IH.
Qed.

Lemma complete_done (m : string) (w : World.t) :
  initDone (World.state w) m = true -> complete m w = (Ok tt, w).
Proof. intros H. unfold complete, bind. cbn [getState]. now rewrite H. Qed.

Lemma newTrace_nil {A : Type} (r : M A) (w : World.t) (o : outcome A) :
  r w = (o, w) -> newTrace r w = [].
Proof.
  intros H. unfold newTrace, exec. rewrite H. cbn [snd]. apply drop_all.
Qed.

Lemma complete_pending (m : string) (w : World.t) :
  initDone (World.state w) m = false ->
  let w' := exec (complete m) w in
  initDone (World.state w') m = true /\
  BackState.initEmitter (World.state w')
  = List.filter (fun l => negb (String.eqb (InitListener.event l) m))
                (BackState.initEmitter (World.state w)) /\
  newTrace (complete m) w
  = firedEvents (List.filter (fun l => String.eqb (InitListener.event l) m)
                             (BackState.initEmitter (World.state w))).
Proof.
  intros Hd. cbn zeta.
  set (w2 := World.mk
               (BackState.set_init (setProp (BackState.init (World.state w)) m true)
                                   (World.state w))
               (World.db w) (World.fs w) (World.trace w) (World.oracle w) (World.tick w)).
  assert (He : exec (complete m) w = exec (emitInit m) w2).
  { unfold exec, complete, bind. cbn [getState]. rewrite Hd. reflexivity. }
  destruct (emitInit_run m w2) as [Hi [Hl Ht]].
  rewrite He. split; [|split].
  - unfold initDone in *. rewrite Hi. subst w2. cbn [World.state].
    apply initDone_setProp.
  - rewrite Hl. subst w2. now destruct w as [[] ? ? ? ? ?].
  - unfold newTrace in *. rewrite He.
    replace (World.trace w) with (World.trace w2) by reflexivity.
    rewrite Ht. subst w2. now destruct w as [[] ? ? ? ? ?].
Qed.

Lemma listeners_gone (ch : Channel) (m : string) (ls : list InitListener.t) :
  List.filter (isListener ch m)
    (List.filter (fun l => negb (String.eqb (InitListener.event l) m)) ls) = [].
Proof.
  induction ls as [|l ls IH]; [reflexivity|]. cbn [List.filter].
  destruct (String.eqb (InitListener.event l) m) eqn:He; cbn [negb List.filter];
    [exact IH|]. unfold isListener at 1. rewrite He. exact IH.
Qed.

Lemma initDone_find (s : BackState.t) (m : string) (b : bool) :
  In m (map fst (BackState.init s)) -> initDone s m = b ->
  exists k, find (fun kv => String.eqb (fst kv) m) (BackState.init s) = Some (k, b).
Proof.
  unfold initDone. intros Hin Hd.
  destruct (find _ (BackState.init s)) as [[k b']|] eqn:Hf.
  - cbn [snd] in Hd. subst b'. eauto.
  - exfalso. apply in_map_iff in Hin as [[k b'] [Hk Hin]]. cbn [fst] in Hk. subst k.
    apply (find_none _ _ Hf) in Hin. cbn [fst] in Hin.
    now rewrite String.eqb_refl in Hin.
Qed.

End InitEvents.

(** C9, as the code has it. A request INIT_LISTEN adds one listener of its
    socket for a stage that is pending and none for a stage that is done.
    When the stage completes, every listener of the stage sends one
    notification with the empty id and is removed: a socket gets one
    notification for each request it made while the stage was pending,
    exactly one when it made one, and completing or emitting the stage
    again sends nothing. For a stage that is done, the request adds no
    listener, the stage is in the list of the correlated answer, and
    completing it sends nothing. *)
Theorem init_subscription_fires_once (target : Channel) (id m : string) (w : World.t) :
  NoDup (map fst (BackState.init (World.state w))) ->
  let w1 := exec (on_INIT_LISTEN target id) w in
  (initDone (World.state w) m = false ->
   In m (map fst (BackState.init (World.state w))) ->
   let w2 := exec (complete m) w1 in
   listenersOf target m (World.state w1) = S (listenersOf target m (World.state w)) /\
   notificationsTo target m (newTrace (complete m) w1)
   = S (listenersOf target m (World.state w)) /\
   listenersOf target m (World.state w2) = 0%nat /\
   newTrace (complete m) w2 = [] /\
   newTrace (emitInit m) w2 = []) /\
  (initDone (World.state w) m = true ->
   listenersOf target m (World.state w1) = listenersOf target m (World.state w) /\
   newTrace (on_INIT_LISTEN target id) w
   = [Sent target (response id BackOut.INIT_EVENT (DInitEvent (snapshot (World.state w))))] /\
   In m (snapshot (World.state w)) /\
   newTrace (complete m) w1 = []).
Proof.
  intros Hnd w1.
  destruct (INIT_LISTEN_run target id w) as [Hi [He Ht]]. fold w1 in Hi, He.
  assert (Hdone1 : initDone (World.state w1) m = initDone (World.state w) m)
    by (unfold initDone; now rewrite Hi).
  assert (Hcount : listenersOf target m (World.state w1)
                   = (listenersOf target m (World.state w)
                      + length (List.filter (isListener target m)
                          (addedListeners target (BackState.init (World.state w)))))%nat).
  { unfold listenersOf. now rewrite He, List.filter_app, length_app. }
  rewrite (addedListeners_count target m _ Hnd) in Hcount.
  split.
  - intros Hd Hin w2.
    destruct (initDone_find _ _ _ Hin Hd) as [k Hf]. rewrite Hf in Hcount.
    assert (Hl1 : listenersOf target m (World.state w1)
                  = S (listenersOf target m (World.state w))) by lia.
    rewrite <- Hdone1 in Hd.
    destruct (complete_pending m w1 Hd) as [Hd2 [He2 Ht2]]. fold w2 in Hd2, He2.
    split; [exact Hl1|]. split; [|split; [|split]].
    + rewrite Ht2, notifications_fired. exact Hl1.
    + unfold listenersOf. now rewrite He2, listeners_gone.
    + eapply newTrace_nil. now apply complete_done.
    + destruct (emitInit_run m w2) as [_ [_ Ht3]]. rewrite Ht3, He2.
      now rewrite (no_listener_left target).
  - intros Hd.
    assert (Hin : In m (map fst (BackState.init (World.state w)))).
    { unfold initDone in Hd.
      destruct (find _ (BackState.init (World.state w))) as [[k b]|] eqn:Hf;
        [|discriminate].
      apply find_some in Hf as [Hin Hk]. cbn [fst] in Hk. apply String.eqb_eq in Hk as ->.
      apply in_map_iff. now exists (m, b). }
    destruct (initDone_find _ _ _ Hin Hd) as [k Hf]. rewrite Hf in Hcount.
    split; [lia|]. split; [exact Ht|]. split.
    + apply find_some in Hf as [Hf Hk]. cbn [fst] in Hk. apply String.eqb_eq in Hk as ->.
      unfold snapshot. apply in_map_iff. exists (m, true). split; [reflexivity|].
      apply filter_In. auto.
    + eapply newTrace_nil. apply complete_done. now rewrite Hdone1.
Qed.

Lemma init_subscription_fires_once_witness :
  let w := exampleWorld exampleState [] ∅ in
  let w1 := exec (on_INIT_LISTEN 4%nat "9") w in
  notificationsTo 4%nat "1" (newTrace (complete "1") w1) = 1%nat /\
  newTrace (complete "1") (exec (complete "1") w1) = [] /\
  newTrace (complete "0") w1 = [].
Proof.
  intros w w1.
  destruct (init_subscription_fires_once 4%nat "9" "1" w) as [Hpending _].
  { apply (bool_decide_unpack _). vm_compute. exact I. }
  destruct (init_subscription_fires_once 4%nat "9" "0" w) as [_ Hdone].
  { apply (bool_decide_unpack _). vm_compute. exact I. }
  destruct Hpending as [_ [Hn [_ [Hagain _]]]]; [reflexivity | simpl; auto |].
  destruct Hdone as [_ [_ [_ Hnone]]]; [reflexivity|].
  split; [exact Hn|]. split; [exact Hagain | exact Hnone].
Defined.

(** The claim C9 fails for a socket that asks twice: each INIT_LISTEN made
    while the stage is pending adds a listener (lines 95-110 do not look
    for an earlier one), and when the stage completes the socket is sent
    two notifications. *)
Lemma init_listen_twice_counterexample :
  let w := exampleWorld exampleState [] ∅ in
  let w1 := exec (on_INIT_LISTEN 4%nat "9") w in
  let w2 := exec (on_INIT_LISTEN 4%nat "10") w1 in
  initDone (World.state w2) "1" = false /\
  listenersOf 4%nat "1" (World.state w2) = 2%nat /\
  notificationsTo 4%nat "1" (newTrace (complete "1") w2) = 2%nat.
Proof. repeat split; vm_compute; reflexivity. Qed.

(** * Further properties of the handlers *)

(** ** Pages and indices of a cached query (lines 372-426) *)

Section Pages.

Context {A : Type}.

Lemma slice_adjacent (l : list A) (offset k k' : Z) :
  0 <= offset -> 0 <= k -> 0 <= k' ->
  slice l offset (offset + k) ++ slice l (offset + k) (offset + k + k')
  = slice l offset (offset + (k + k')).
Proof.
  intros Ho Hk Hk'. rewrite !slice_window_take_drop by lia.
  replace (Z.to_nat (offset + k)) with (Z.to_nat offset + Z.to_nat k)%nat by lia.
  rewrite <- drop_drop, take_take_drop. f_equal. lia.
Qed.

Lemma pagesFrom_slice (l : list A) (k : Z) (n : nat) (offset : Z) :
  0 <= offset -> 0 <= k ->
  pagesFrom l k n offset = slice l offset (offset + Z.of_nat n * k).
Proof.
  intros Ho Hk. revert offset Ho. induction n as [|n IH]; intros offset Ho.
  - cbn [pagesFrom]. rewrite slice_window_take_drop by lia.
    replace (Z.to_nat (Z.of_nat 0 * k)) with 0%nat by lia. now rewrite take_0.
  - cbn [pagesFrom]. rewrite IH by lia.
    rewrite slice_adjacent by lia. f_equal. lia.
Qed.

End Pages.

Lemma browsePages_cached (E : Env.t) (target : Channel) (id : string) (q : BackQuery.t)
  (cache : BackQueryChache.t) (k : Z) (n : nat) :
  forall (offset : Z) (w : World.t),
    BackState.queries (World.state w) !! hash_BROWSE_VIEW_PAGE E q = Some cache ->
    browsePages E target id q k n offset w
    = pagesFrom (BackQueryChache.viewGames cache) k n offset.
Proof.
  induction n as [|n IH]; intros offset w Hc; cbn [browsePages pagesFrom]; [reflexivity|].
  assert (Hrun : on_BROWSE_VIEW_PAGE E target id q offset k w =
                 (Ok tt, World.mk (World.state w) (World.db w) (World.fs w)
                           (World.trace w ++
                              [Sent target (response id BackOut.BROWSE_VIEW_PAGE_RESPONSE
                                 (DBrowseViewPage
                                    (slice (BackQueryChache.viewGames cache) offset (offset + k))
                                    offset
                                    (Z.of_nat (length (BackQueryChache.games cache)))))])
                           (World.oracle w) (World.tick w))).
  { unfold on_BROWSE_VIEW_PAGE, bind. rewrite (cachedQuery_hit E _ _ w cache Hc).
    reflexivity. }
  rewrite (newTrace_of_run _ w _ _ _ Hrun eq_refl). unfold exec. rewrite Hrun.
  cbn [snd pageGames last WrappedResponse.data response]. f_equal.
  apply IH. exact Hc.
Qed.

(** X1. The pages of a cached query cover its view. The games answered to
    browse-page requests for the query with the limit [k] and the offsets
    0, [k], [2k], ..., made one after the other, are adjacent runs of the
    view: put end to end, they are the view in its order, once enough
    pages are asked for to reach its end. *)
Theorem pages_cover_the_view (E : Env.t) (target : Channel) (id : string)
  (q : BackQuery.t) (cache : BackQueryChache.t) (k : Z) (n : nat) (w : World.t) :
  BackState.queries (World.state w) !! hash_BROWSE_VIEW_PAGE E q = Some cache ->
  0 < k -> Z.of_nat (length (BackQueryChache.viewGames cache)) <= Z.of_nat n * k ->
  browsePages E target id q k n 0 w = BackQueryChache.viewGames cache.
Proof.
  intros Hc Hk Hn. rewrite (browsePages_cached E target id q cache k n 0 w Hc).
  rewrite pagesFrom_slice by lia.
  rewrite slice_window_take_drop by lia.
  cbn [Z.to_nat drop]. apply take_ge. lia.
Qed.

Lemma pages_cover_the_view_witness :
  browsePages exampleEnv 1%nat "r1" exampleQuery 2 2 0 (exampleWorld threeState [] ∅)
  = map viewGame threeGames.
Proof.
  apply (pages_cover_the_view exampleEnv 1%nat "r1" exampleQuery threeEntry 2 2
           (exampleWorld threeState [] ∅)).
  - vm_compute. reflexivity.
  - lia.
  - simpl. lia.
Defined.

Section IndexOf.

Lemma indexOfGame_first (viewGames : list ViewGame.t) (gameId : string) (i0 : Z) :
  let i := indexOfGame viewGames gameId i0 in
  (i = -1 /\ forall g, In g viewGames -> viewHasId gameId g = false) \/
  (exists (n : nat) (g : ViewGame.t),
     i = i0 + Z.of_nat n /\ viewGames !! n = Some g /\ viewHasId gameId g = true /\
     forall (j : nat) (g' : ViewGame.t),
       (j < n)%nat -> viewGames !! j = Some g' -> viewHasId gameId g' = false).
Proof.
  revert i0. induction viewGames as [|g rest IH]; intros i0; cbn [indexOfGame].
  - left. split; [reflexivity | intros g []].
  - destruct (String.eqb (ViewGame.id g) gameId) eqn:He.
    + right. exists 0%nat, g. repeat split; auto; [lia | intros j g' Hj; lia].
    + destruct (IH (i0 + 1)) as [[Hi Hnone]|[n [g1 [Hi [Hn [Hid Hfirst]]]]]].
      * left. split; [exact Hi|]. intros g' [<-|Hin]; [exact He | now apply Hnone].
      * right. exists (S n), g1. repeat split; auto; [lia|].
        intros [|j] g' Hj Hg'.
        -- injection Hg' as <-. exact He.
        -- apply (Hfirst j g'); [lia | exact Hg'].
Qed.

End IndexOf.

(** X2. For a cached query the browse-index handler answers with -1 when
    no entry of the view has the id of the request, and otherwise with the
    index of the first entry that has it: an index within the view. *)
Theorem index_of_cached_query (E : Env.t) (target : Channel) (id : string)
  (q : BackQuery.t) (gameId : string) (w : World.t) (cache : BackQueryChache.t) :
  BackState.queries (World.state w) !! hash_BROWSE_VIEW_INDEX E q = Some cache ->
  let viewGames := BackQueryChache.viewGames cache in
  exists index : Z,
    newTrace (on_BROWSE_VIEW_INDEX E target id q gameId) w =
      [Sent target (response id BackOut.GENERIC_RESPONSE (DBrowseViewIndex index))] /\
    ((index = -1 /\ forall g, In g viewGames -> viewHasId gameId g = false) \/
     (exists (n : nat) (g : ViewGame.t),
        index = Z.of_nat n /\ (n < length viewGames)%nat /\
        viewGames !! n = Some g /\ ViewGame.id g = gameId /\
        forall (j : nat) (g' : ViewGame.t),
          (j < n)%nat -> viewGames !! j = Some g' -> ViewGame.id g' <> gameId)).
Proof.
  intros Hc viewGames. exists (indexOfGame viewGames gameId 0). split.
  - unfold on_BROWSE_VIEW_INDEX. eapply newTrace_of_run.
    + unfold bind. rewrite (cachedQuery_hit E _ _ w cache Hc). reflexivity.
    + reflexivity.
  - destruct (indexOfGame_first viewGames gameId 0) as [H|[n [g [Hi [Hn [Hid Hfirst]]]]]];
      [now left|].
    right. exists n, g. split; [exact Hi|]. split; [now apply lookup_lt_Some in Hn|].
    split; [exact Hn|]. split; [now apply String.eqb_eq in Hid|].
    intros j g' Hj Hg'. apply String.eqb_neq. now apply (Hfirst j g').
Qed.

Lemma index_of_cached_query_witness :
  exists index : Z,
    newTrace (on_BROWSE_VIEW_INDEX exampleEnv 0%nat "4" exampleQuery "g3")
             (exampleWorld threeState [] ∅) =
      [Sent 0%nat (response "4" BackOut.GENERIC_RESPONSE (DBrowseViewIndex index))] /\
    index <> -1.
Proof.
  destruct (index_of_cached_query exampleEnv 0%nat "4" exampleQuery "g3"
              (exampleWorld threeState [] ∅) threeEntry) as [index [Ht Hi]];
    [vm_compute; reflexivity|].
  exists index. split; [exact Ht|].
  destruct Hi as [[_ Hnone]|[n [g [-> _]]]]; [|lia].
  specialize (Hnone (viewGame (exampleGame "g3" "Metroid"))).
  discriminate Hnone. simpl. auto.
Defined.

(** ** What the handlers leave as it is *)

Section Frames.

Variable R : World.t -> World.t -> Prop.
Hypothesis HR : Frame R.

Lemma keeps_ret {A : Type} (a : A) : keeps R (ret a).
Proof. intros w. apply (frame_refl R HR). Qed.

Lemma keeps_throw {A : Type} (e : value) : keeps R (@throw A e).
Proof. intros w. apply (frame_refl R HR). Qed.

Lemma keeps_bind {A B : Type} (m : M A) (k : A -> M B) :
  keeps R m -> (forall a, keeps R (k a)) -> keeps R (bind m k).
Proof.
  intros Hm Hk w. specialize (Hm w). unfold keeps, exec, bind in *.
  destruct (m w) as [[a|e] w1]; cbn [snd] in *; [|exact Hm].
  apply (frame_trans R HR _ w1); [exact Hm | apply Hk].
Qed.

Lemma keeps_try {A : Type} (body : M A) (handler : value -> M A) :
  keeps R body -> (forall e, keeps R (handler e)) -> keeps R (try_catch body handler).
Proof.
  intros Hb Hh w. specialize (Hb w). unfold keeps, exec, try_catch in *.
  destruct (body w) as [[a|e] w1]; cbn [snd] in *; [exact Hb|].
  apply (frame_trans R HR _ w1); [exact Hb | apply Hh].
Qed.

End Frames.

Lemma keeps_quiet (R : World.t -> World.t -> Prop) {A : Type} (m : M A) :
  admitsQuiet R -> keeps quietStep m -> keeps R m.
Proof. intros HR H w. apply HR, H. Qed.

Lemma Frame_quietStep : Frame quietStep.
Proof.
  split.
  - intros w. repeat split.
  - intros a b c [H1 [H2 [H3 [H4 H5]]]] [H1' [H2' [H3' [H4' H5']]]].
    repeat split; congruence.
Qed.

Lemma Frame_sameDb : Frame sameDb.
Proof.
  split; unfold sameDb.
  - reflexivity.
  - intros; congruence.
Qed.

Lemma quiet_sameDb : admitsQuiet sameDb.
Proof. now intros w w' [H _]. Qed.

Lemma Frame_sameFs : Frame sameFs.
Proof.
  split; unfold sameFs.
  - reflexivity.
  - intros; congruence.
Qed.

Lemma quiet_sameFs : admitsQuiet sameFs.
Proof. now intros w w' [_ [H _]]. Qed.

Lemma Frame_sameQueries : Frame sameQueries.
Proof.
  split; unfold sameQueries.
  - reflexivity.
  - intros; congruence.
Qed.

Lemma quiet_sameQueries : admitsQuiet sameQueries.
Proof. now intros w w' [_ [_ [_ [H _]]]]. Qed.

Lemma Frame_sameState : Frame sameState.
Proof.
  split; unfold sameState.
  - reflexivity.
  - intros; congruence.
Qed.

Lemma Frame_emitsOnly (P : Effect -> bool) : Frame (emitsOnly P).
Proof.
  split; unfold emitsOnly.
  - intros w. exists []. now rewrite app_nil_r.
  - intros a b c [t1 [H1 P1]] [t2 [H2 P2]]. exists (t1 ++ t2).
    rewrite H2, H1, <- app_assoc, forallb_app, P1, P2. auto.
Qed.

Lemma quiet_emitsOnly (P : Effect -> bool) : admitsQuiet (emitsOnly P).
Proof. intros w w' [_ [_ [H _]]]. exists []. now rewrite app_nil_r. Qed.

Lemma queryResult_playlists (E : Env.t) (s s' : BackState.t) (d : list Game.t)
  (q : BackQuery.t) :
  BackState.playlists s' = BackState.playlists s ->
  queryResult E s' d q = queryResult E s d q.
Proof. intros H. unfold queryResult, queryOpts. now rewrite H. Qed.

Lemma Frame_keepsFresh (E : Env.t) : Frame (keepsFresh E).
Proof.
  split; unfold keepsFresh.
  - auto.
  - auto.
Qed.

Lemma quiet_keepsFresh (E : Env.t) : admitsQuiet (keepsFresh E).
Proof.
  intros w w' [Hd [_ [_ [Hq Hp]]]] Hok h c. rewrite Hq. intros Hc.
  destruct (Hok h c Hc) as [Hh Hr]. split; [exact Hh|].
  rewrite Hd, (queryResult_playlists E _ _ _ _ Hp). exact Hr.
Qed.

(** [quiet_prim] proves that a step written with [getState],
    [modifyState] on a field other than the queries, [getDb], [getFs],
    [choose] and [ret] is quiet. *)
Ltac quiet_prim := intros ?w; repeat split; reflexivity.

Create HintDb frames.

#[local] Hint Resolve Frame_quietStep Frame_sameDb Frame_sameFs Frame_sameQueries
  Frame_sameState Frame_emitsOnly Frame_keepsFresh : frames.

#[local] Hint Resolve quiet_sameDb quiet_sameFs quiet_sameQueries quiet_emitsOnly
  quiet_keepsFresh : frames.

(** [frame tac] follows a handler through its binds, branches and [try]
    blocks; [tac] proves the steps that are not quiet. *)
Ltac frame tac :=
  lazymatch goal with
  | |- keeps _ (bind _ _) =>
      apply keeps_bind; [auto 1 with frames | frame tac | intros; frame tac]
  | |- keeps _ (try_catch _ _) =>
      apply keeps_try; [auto 1 with frames | frame tac | intros; frame tac]
  | |- keeps _ (match ?x with _ => _ end) => destruct x; frame tac
  | |- keeps _ ?m =>
      first [ solve [apply keeps_quiet; [auto 1 with frames | quiet_prim]]
            | solve [apply keeps_quiet; [auto 1 with frames | auto 1 with quietloops]]
            | solve [tac]
            | let h := head_of m in unfold h; frame tac ]
  end.

Create HintDb quietloops.

Section QuietLoops.

Variable E : Env.t.

Lemma quiet_findAllPlatforms libraries platforms :
  keeps quietStep (findAllPlatforms E libraries platforms).
Proof.
  revert platforms. induction libraries as [|l ls IH]; intros platforms;
    cbn [findAllPlatforms].
  - quiet_prim.
  - apply (keeps_bind _ Frame_quietStep); [quiet_prim | intros; apply IH].
Qed.

Lemma quiet_initListenLoop target keys done :
  keeps quietStep (initListenLoop target keys done).
Proof.
  revert done. induction keys as [|[init isDone] keys IH]; intros done;
    cbn [initListenLoop].
  - quiet_prim.
  - destruct isDone; [apply IH|].
    apply (keeps_bind _ Frame_quietStep); [quiet_prim | intros; apply IH].
Qed.

Lemma quiet_copyAddApps addApps : keeps quietStep (copyAddApps E addApps).
Proof.
  induction addApps as [|a l IH]; cbn [copyAddApps].
  - quiet_prim.
  - apply (keeps_bind _ Frame_quietStep); [quiet_prim | intros].
    apply (keeps_bind _ Frame_quietStep); [exact IH | intros; quiet_prim].
Qed.

Lemma quiet_pickGames count allGames pickedGames :
  keeps quietStep (pickGames count allGames pickedGames).
Proof.
  revert allGames pickedGames.
  induction count as [|n IH]; intros allGames pickedGames; cbn [pickGames].
  - quiet_prim.
  - apply (keeps_bind _ Frame_quietStep); [quiet_prim | intros r].
    destruct (allGames !! _); apply IH.
Qed.

Lemma quiet_probe fuel folder part0 part1 n :
  keeps quietStep (probe E fuel folder part0 part1 n).
Proof.
  revert n. induction fuel as [|f IH]; intros n; cbn [probe].
  - quiet_prim.
  - destruct (n <? 100); [|quiet_prim].
    apply (keeps_bind _ Frame_quietStep); [quiet_prim | intros taken].
    destruct taken; [apply IH | quiet_prim].
Qed.

End QuietLoops.

#[local] Hint Resolve quiet_findAllPlatforms quiet_initListenLoop quiet_copyAddApps
  quiet_pickGames quiet_probe : quietloops.

Ltac same_step := intros ?w; reflexivity.

Ltac emits_step :=
  intros ?w; first [ exists []; split; [symmetry; apply app_nil_r | reflexivity]
                   | eexists [_]; split; reflexivity ].

Section Footprints.

Variable E : Env.t.
Variable target : Channel.

Lemma newTrace_emitsOnly {A : Type} (P : Effect -> bool) (m : M A) (w : World.t) :
  emitsOnly P w (exec m w) -> forallb P (newTrace m w) = true.
Proof.
  intros [tr [Htr HP]]. unfold newTrace. fold (exec m w). rewrite Htr.
  now rewrite drop_app_length.
Qed.

(** X3. Of the requests whose handlers call no code outside the sources
    ([callsUnknown]: not ADD_LOG, LAUNCH_ADDAPP, LAUNCH_GAME, SAVE_IMAGE,
    UPDATE_CONFIG, SERVICE_ACTION, IMPORT_CURATION, LAUNCH_CURATION,
    LAUNCH_CURATION_ADDAPP, QUIT), every one other than SAVE_GAME,
    DELETE_GAME and DUPLICATE_GAME leaves the catalog of games as it was,
    whether its handler returns or throws. Nothing is said of
    IMPORT_CURATION, whose importer is handed the catalog. *)
Theorem catalog_written_by_three_requests (req : WrappedRequest.t) (w : World.t) :
  callsUnknown (WrappedRequest.data req) = false ->
  writesCatalog (WrappedRequest.data req) = false ->
  World.db (exec (registerRequestCallbacks E target req) w) = World.db w.
Proof.
  intros Hu Hd. revert w.
  change (keeps sameDb (registerRequestCallbacks E target req)).
  destruct req as [id d]. unfold registerRequestCallbacks.
  cbn [WrappedRequest.data WrappedRequest.id] in *.
  destruct d; try discriminate Hd; try discriminate Hu; frame same_step.
Qed.

(** X4. Of the requests whose handlers call no code outside the sources
    ([callsUnknown]), every one other than DUPLICATE_GAME, EXPORT_GAME,
    DELETE_IMAGE, UPDATE_PREFERENCES, SAVE_PLAYLIST and DELETE_PLAYLIST
    leaves the set of files as it was and calls none of [writeFile],
    [copyFile], [mkdir], [unlink], whether its handler returns or throws.
    Nothing is said of IMPORT_CURATION, whose importer is handed the paths
    of the folders, nor of SAVE_IMAGE and UPDATE_CONFIG, which write a file
    and call [log]. *)
Theorem files_written_by_eight_requests (req : WrappedRequest.t) (w : World.t) :
  callsUnknown (WrappedRequest.data req) = false ->
  writesFiles (WrappedRequest.data req) = false ->
  World.fs (exec (registerRequestCallbacks E target req) w) = World.fs w /\
  forallb notFileEffect (newTrace (registerRequestCallbacks E target req) w) = true.
Proof.
  intros Hu Hd. split.
  - revert w. change (keeps sameFs (registerRequestCallbacks E target req)).
    destruct req as [id d]. unfold registerRequestCallbacks.
    cbn [WrappedRequest.data WrappedRequest.id] in *.
    destruct d; try discriminate Hd; try discriminate Hu; frame same_step.
  - apply newTrace_emitsOnly. revert w.
    change (keeps (emitsOnly notFileEffect) (registerRequestCallbacks E target req)).
    destruct req as [id d]. unfold registerRequestCallbacks.
    cbn [WrappedRequest.data WrappedRequest.id] in *.
    destruct d; try discriminate Hd; try discriminate Hu;
      frame emits_step.
Qed.

Lemma still_pickGames (count : nat) (allGames pickedGames : list Game.t) :
  keeps sameState (pickGames count allGames pickedGames).
Proof.
  revert allGames pickedGames.
  induction count as [|n IH]; intros allGames pickedGames; cbn [pickGames].
  - same_step.
  - apply (keeps_bind _ Frame_sameState); [same_step | intros r].
    destruct (allGames !! _); apply IH.
Qed.

Lemma still_probe (fuel : nat) (folder part0 part1 : string) (n : Z) :
  keeps sameState (probe E fuel folder part0 part1 n).
Proof.
  revert n. induction fuel as [|f IH]; intros n; cbn [probe].
  - same_step.
  - destruct (n <? 100); [|same_step].
    apply (keeps_bind _ Frame_sameState); [same_step | intros taken].
    destruct taken; [apply IH | same_step].
Qed.

(** X5. Of the requests whose handlers call no code outside the sources
    ([callsUnknown]: [log] appends to [state.log], and the launcher, the
    importer, the managed processes and [exit] are handed the state or a
    part of it), every one other than GET_RENDERER_INIT_DATA, INIT_LISTEN,
    SET_LOCALE, UPDATE_PREFERENCES, the three browse requests and the three
    requests that change the catalog leaves the state of the back end as it
    was, whether its handler returns or throws. These are
    GET_MAIN_INIT_DATA, GET_SUGGESTIONS, GET_GAMES_TOTAL, GET_EXEC,
    EXPORT_GAME, GET_GAME, GET_ALL_GAMES, RANDOM_GAMES, DELETE_IMAGE,
    GET_PLAYLISTS, SAVE_PLAYLIST and DELETE_PLAYLIST; the last two leave
    [state.playlists] alone. *)
Theorem state_written_by_ten_requests (req : WrappedRequest.t) (w : World.t) :
  callsUnknown (WrappedRequest.data req) = false ->
  writesState (WrappedRequest.data req) = false ->
  World.state (exec (registerRequestCallbacks E target req) w) = World.state w.
Proof.
  intros Hu Hd. revert w.
  change (keeps sameState (registerRequestCallbacks E target req)).
  destruct req as [id d]. unfold registerRequestCallbacks.
  cbn [WrappedRequest.data WrappedRequest.id] in *.
  destruct d; try discriminate Hd; try discriminate Hu;
    frame ltac:(first [ apply still_pickGames | apply still_probe | same_step ]).
Qed.

(** X6. A request other than the three browse requests and the three
    requests that change the catalog leaves the cache of the queries as it
    was, whether its handler returns or throws. *)
Theorem cache_written_by_six_requests (req : WrappedRequest.t) (w : World.t) :
  writesQueries (WrappedRequest.data req) = false ->
  BackState.queries (World.state (exec (registerRequestCallbacks E target req) w)) =
  BackState.queries (World.state w).
Proof.
  intros Hd. revert w. change (keeps sameQueries (registerRequestCallbacks E target req)).
  destruct req as [id d]. unfold registerRequestCallbacks.
  cbn [WrappedRequest.data WrappedRequest.id] in *.
  destruct d; try discriminate Hd; frame same_step.
Qed.

End Footprints.

Lemma catalog_written_by_three_requests_witness :
  World.db (exec (registerRequestCallbacks exampleEnv 1%nat
                    (WrappedRequest.mk "r1" (BackIn.EXPORT_GAME "g1" "out" true)))
                 oneGameWorld)
  = World.db oneGameWorld.
Proof.
  apply (catalog_written_by_three_requests exampleEnv 1%nat
           (WrappedRequest.mk "r1" (BackIn.EXPORT_GAME "g1" "out" true)) oneGameWorld);
    reflexivity.
Defined.

Lemma files_written_by_eight_requests_witness :
  World.fs (exec (registerRequestCallbacks exampleEnv 1%nat
                    (WrappedRequest.mk "r1" (BackIn.GET_GAME "g1"))) oneGameWorld)
  = World.fs oneGameWorld /\
  forallb notFileEffect
    (newTrace (registerRequestCallbacks exampleEnv 1%nat
                 (WrappedRequest.mk "r1" (BackIn.GET_GAME "g1"))) oneGameWorld) = true.
Proof.
  apply (files_written_by_eight_requests exampleEnv 1%nat
           (WrappedRequest.mk "r1" (BackIn.GET_GAME "g1")) oneGameWorld);
    reflexivity.
Defined.

Lemma state_written_by_ten_requests_witness :
  World.state (exec (registerRequestCallbacks exampleEnv 1%nat
                       (WrappedRequest.mk "r1" (BackIn.SAVE_PLAYLIST
                          (GamePlaylist.mk "a.json" "A" []) None)))
                    oneGameWorld)
  = World.state oneGameWorld.
Proof.
  apply (state_written_by_ten_requests exampleEnv 1%nat
           (WrappedRequest.mk "r1" (BackIn.SAVE_PLAYLIST
              (GamePlaylist.mk "a.json" "A" []) None)) oneGameWorld);
    reflexivity.
Defined.

Lemma cache_written_by_six_requests_witness :
  BackState.queries (World.state
    (exec (registerRequestCallbacks exampleEnv 1%nat
             (WrappedRequest.mk "r1" (BackIn.SAVE_PLAYLIST
                (GamePlaylist.mk "a.json" "A" []) None))) oneGameWorld))
  = BackState.queries (World.state oneGameWorld).
Proof.
  apply (cache_written_by_six_requests exampleEnv 1%nat
           (WrappedRequest.mk "r1" (BackIn.SAVE_PLAYLIST
              (GamePlaylist.mk "a.json" "A" []) None)) oneGameWorld).
  reflexivity.
Defined.

(** ** The cache is never stale *)

Section Fresh.

Variable E : Env.t.

Lemma cacheFresh_empty (w : World.t) :
  BackState.queries (World.state w) = ∅ -> cacheFresh E w.
Proof. intros Hq h c. rewrite Hq, lookup_empty. discriminate. Qed.

Lemma keepsFresh_cachedQuery (hash : string) (query : BackQuery.t) :
  hash = Env.sha256_base64 E (JSON_stringify_query query) ->
  keeps (keepsFresh E) (cachedQuery E hash query).
Proof.
  intros Hh w Hf. unfold exec.
  destruct (BackState.queries (World.state w) !! hash) as [c|] eqn:Hl.
  - rewrite (cachedQuery_hit E hash query w c Hl). exact Hf.
  - rewrite (cachedQuery_miss E hash query w Hl). cbn [snd]. intros h c.
    cbn [World.state World.db]. unfold BackState.set_queries at 1.
    cbn [BackState.queries].
    destruct (decide (h = hash)) as [->|Hne].
    + rewrite lookup_insert_eq. intros [= <-]. split; [exact Hh | reflexivity].
    + rewrite lookup_insert_ne by congruence. intros Hc.
      destruct (Hf h c Hc) as [H1 H2]. split; [exact H1 | exact H2].
Qed.

Ltac fresh_step :=
  first [ apply keepsFresh_cachedQuery; reflexivity
        | intros ?w ?H; exact H ].

(** X7. The cache is not left stale by a handler that awaits what it
    does to the catalog. If every entry of the cache is stored under the
    hash of its own query and is what [queryGames] computes for it from the
    catalog as it is, the same holds after a request, whether its handler
    returns or throws, when the request is not DUPLICATE_GAME (which does
    not await the update of the copy) and its handler calls no code outside
    the sources ([unsettled]: IMPORT_CURATION, whose importer is handed the
    catalog, is not covered). *)
Theorem cache_never_stale (target : Channel) (req : WrappedRequest.t) (w : World.t) :
  unsettled (WrappedRequest.data req) = false ->
  cacheFresh E w -> cacheFresh E (exec (registerRequestCallbacks E target req) w).
Proof.
  intros Hu. revert w.
  change (keeps (keepsFresh E) (registerRequestCallbacks E target req)).
  destruct req as [id d]. unfold registerRequestCallbacks.
  cbn [WrappedRequest.data WrappedRequest.id] in *.
  destruct d; try discriminate Hu;
    try (frame fresh_step; fail).
  - intros w _. apply cacheFresh_empty, clears_SAVE_GAME.
  - intros w _. apply cacheFresh_empty, clears_DELETE_GAME.
Qed.

End Fresh.

Lemma cache_never_stale_witness :
  cacheFresh exampleEnv
    (exec (registerRequestCallbacks exampleEnv 1%nat
             (WrappedRequest.mk "r1" (BackIn.BROWSE_VIEW_PAGE exampleQuery 0 10)))
          (exampleWorld exampleState [exampleGame "g1" "Alpha"] ∅)).
Proof.
  apply (cache_never_stale exampleEnv 1%nat
           (WrappedRequest.mk "r1" (BackIn.BROWSE_VIEW_PAGE exampleQuery 0 10))
           (exampleWorld exampleState [exampleGame "g1" "Alpha"] ∅)).
  - reflexivity.
  - apply cacheFresh_empty. reflexivity.
Defined.

(** ** One cache for the three browse handlers *)

Section SharedCache.

Variable E : Env.t.

Lemma cachedQuery_run (hash : string) (query : BackQuery.t) (w : World.t) :
  exists (c : BackQueryChache.t) (w1 : World.t) (pre : list Effect),
    cachedQuery E hash query w = (Ok c, w1) /\
    BackState.queries (World.state w1) !! hash = Some c /\
    World.trace w1 = World.trace w ++ pre /\ forallb isSearch pre = true.
Proof.
  destruct (BackState.queries (World.state w) !! hash) as [c|] eqn:Hl.
  - exists c, w, []. rewrite (cachedQuery_hit E hash query w c Hl).
    rewrite app_nil_r. auto.
  - rewrite (cachedQuery_miss E hash query w Hl).
    eexists _, _, [_]. split; [reflexivity|]. split; [apply lookup_insert_eq|].
    split; reflexivity.
Qed.

Lemma browse_hit_run (target : Channel) (req : WrappedRequest.t) (q : BackQuery.t)
  (w : World.t) (c : BackQueryChache.t) :
  browseQuery req = Some q ->
  BackState.queries (World.state w) !! hash_BROWSE_VIEW_PAGE E q = Some c ->
  exists data : ResponseData,
    registerRequestCallbacks E target req w =
    (Ok tt, World.mk (World.state w) (World.db w) (World.fs w)
              (World.trace w ++ [Sent target
                 (WrappedResponse.mk (WrappedRequest.id req)
                    match WrappedRequest.data req with
                    | BackIn.BROWSE_VIEW_PAGE _ _ _ => BackOut.BROWSE_VIEW_PAGE_RESPONSE
                    | _ => BackOut.GENERIC_RESPONSE
                    end data)])
              (World.oracle w) (World.tick w)).
Proof.
  destruct req as [id data]. unfold browseQuery, registerRequestCallbacks.
  cbn [WrappedRequest.id WrappedRequest.data].
  destruct data; try discriminate; intros Hq Hc; injection Hq as ->.
  - unfold on_BROWSE_VIEW_PAGE, bind.
    rewrite (cachedQuery_hit E _ _ w c Hc). eexists. reflexivity.
  - unfold on_BROWSE_VIEW_INDEX, bind, hash_BROWSE_VIEW_INDEX.
    unfold hash_BROWSE_VIEW_PAGE in Hc.
    rewrite (cachedQuery_hit E _ _ w c Hc). eexists. reflexivity.
  - unfold on_QUICK_SEARCH, bind, hash_QUICK_SEARCH.
    unfold hash_BROWSE_VIEW_PAGE in Hc.
    rewrite (cachedQuery_hit E _ _ w c Hc).
    destruct (quickSearch (BackQueryChache.games c) search 0) as [result index].
    eexists. reflexivity.
Qed.

Lemma browse_stores (target : Channel) (req : WrappedRequest.t) (q : BackQuery.t)
  (w : World.t) :
  browseQuery req = Some q ->
  is_Some (BackState.queries (World.state (exec (registerRequestCallbacks E target req) w))
           !! hash_BROWSE_VIEW_PAGE E q).
Proof.
  intros Hb.
  destruct (BackState.queries (World.state w) !! hash_BROWSE_VIEW_PAGE E q) as [c|] eqn:Hl.
  - destruct (browse_hit_run target req q w c Hb Hl) as [data Hrun].
    unfold exec. rewrite Hrun. cbn [snd World.state]. rewrite Hl. now exists c.
  - destruct (lookup_recomputes E target req q w Hb Hl) as [_ Hs].
    rewrite Hs. eexists. reflexivity.
Qed.

(** X8. The three browse handlers share one cache. After a browse-page,
    browse-index or quick-search request for a query, a request of any of
    the three kinds for the same query, from any client, is answered from
    the cache: its handler sends its one answer, does not search the
    catalog, and leaves the state of the back end as it was. *)
Theorem browse_requests_share_cache (target target' : Channel)
  (first next : WrappedRequest.t) (q : BackQuery.t) (w : World.t) :
  browseQuery first = Some q -> browseQuery next = Some q ->
  let w1 := exec (registerRequestCallbacks E target first) w in
  let lookup := registerRequestCallbacks E target' next in
  (exists r : WrappedResponse.t, newTrace lookup w1 = [Sent target' r]) /\
  World.state (exec lookup w1) = World.state w1 /\
  World.db (exec lookup w1) = World.db w1.
Proof.
  intros Hf Hn w1 lookup.
  destruct (browse_stores target first q w Hf) as [c Hc]. fold w1 in Hc.
  destruct (browse_hit_run target' next q w1 c Hn Hc) as [data Hrun].
  subst lookup. split; [|unfold exec; rewrite Hrun; split; reflexivity].
  eexists. eapply newTrace_of_run; [exact Hrun | reflexivity].
Qed.

End SharedCache.

Lemma browse_requests_share_cache_witness :
  let w1 := exec (registerRequestCallbacks exampleEnv 1%nat
                    (WrappedRequest.mk "r1" (BackIn.BROWSE_VIEW_PAGE exampleQuery 0 10)))
                 (exampleWorld exampleState threeGames ∅) in
  exists r : WrappedResponse.t,
    newTrace (registerRequestCallbacks exampleEnv 2%nat
                (WrappedRequest.mk "r2" (BackIn.QUICK_SEARCH exampleQuery "me"))) w1
    = [Sent 2%nat r].
Proof.
  intros w1.
  destruct (browse_requests_share_cache exampleEnv 1%nat 2%nat
              (WrappedRequest.mk "r1" (BackIn.BROWSE_VIEW_PAGE exampleQuery 0 10))
              (WrappedRequest.mk "r2" (BackIn.QUICK_SEARCH exampleQuery "me"))
              exampleQuery (exampleWorld exampleState threeGames ∅))
    as [Hr _]; [reflexivity | reflexivity |].
  exact Hr.
Defined.

(** ** The index of a quick search is an index into the pages *)

Section QuickSearchPage.

Variable E : Env.t.

(** X9. The index that a quick search answers with addresses the game it
    found in the pages of the same query. If the cache is not stale and
    the quick-search handler answers with the id of a game and an index, a
    browse-page request for the same query with that index as its offset
    and a limit of one answers with one entry: the game with that id, whose
    title in lower case starts with the text searched for. *)
Theorem quick_search_index_addresses_page (target target' : Channel) (id id' : string)
  (q : BackQuery.t) (search : string) (w : World.t) (gid : string) (i : Z) :
  cacheFresh E w ->
  let w1 := exec (on_QUICK_SEARCH E target id q search) w in
  In (Sent target (response id BackOut.GENERIC_RESPONSE (DQuickSearch (Some gid) (Some i))))
     (newTrace (on_QUICK_SEARCH E target id q search) w) ->
  exists (v : ViewGame.t) (total : Z),
    newTrace (on_BROWSE_VIEW_PAGE E target' id' q i 1) w1 =
      [Sent target' (response id' BackOut.BROWSE_VIEW_PAGE_RESPONSE
                       (DBrowseViewPage [v] i total))] /\
    ViewGame.id v = gid /\
    JS.startsWith (JS.toLowerCase (ViewGame.title v)) search = true.
Proof.
  intros Hfresh w1 Hin.
  destruct (cachedQuery_run E (hash_QUICK_SEARCH E q) (copyQuery q) w)
    as [c [w0 [pre [Hrun [Hc [Htr Hpre]]]]]].
  assert (Hfresh0 : cacheFresh E w0).
  { pose proof (keepsFresh_cachedQuery E (hash_QUICK_SEARCH E q) (copyQuery q)
                  eq_refl w Hfresh) as H.
    unfold exec in H. now rewrite Hrun in H. }
  destruct (Hfresh0 _ _ Hc) as [_ Hres].
  assert (Hview : BackQueryChache.viewGames c = map viewGame (BackQueryChache.games c)).
  { rewrite Hres at 1. rewrite Hres at 2. reflexivity. }
  destruct (quickSearch (BackQueryChache.games c) search 0) as [result index] eqn:Hqs.
  assert (Hq : on_QUICK_SEARCH E target id q search w =
               (Ok tt, World.mk (World.state w0) (World.db w0) (World.fs w0)
                         (World.trace w0 ++
                            [Sent target (response id BackOut.GENERIC_RESPONSE
                                            (DQuickSearch result index))])
                         (World.oracle w0) (World.tick w0))).
  { unfold on_QUICK_SEARCH, bind. rewrite Hrun, Hqs. reflexivity. }
  assert (Hnew : newTrace (on_QUICK_SEARCH E target id q search) w =
                 pre ++ [Sent target (response id BackOut.GENERIC_RESPONSE
                                        (DQuickSearch result index))]).
  { eapply newTrace_of_run; [exact Hq|]. cbn [World.trace]. rewrite Htr.
    now rewrite <- app_assoc. }
  rewrite Hnew in Hin. apply in_app_or in Hin. destruct Hin as [Hin|[Heq|[]]].
  { rewrite forallb_forall in Hpre. specialize (Hpre _ Hin). discriminate Hpre. }
  injection Heq as -> ->.
  pose proof (quickSearch_first (BackQueryChache.games c) search 0) as Hfirst.
  rewrite Hqs in Hfirst. destruct Hfirst as [n [g [Hi [Hn [Hid [Htitle _]]]]]].
  assert (Hc1 : BackState.queries (World.state w1) !! hash_BROWSE_VIEW_PAGE E q = Some c).
  { subst w1. unfold exec. rewrite Hq. exact Hc. }
  exists (viewGame g), (Z.of_nat (length (BackQueryChache.games c))). split.
  - unfold on_BROWSE_VIEW_PAGE. eapply newTrace_of_run.
    + unfold bind. rewrite (cachedQuery_hit E _ _ w1 c Hc1). reflexivity.
    + cbn [World.trace]. do 4 f_equal.
      rewrite slice_window_take_drop by lia. rewrite Hview.
      assert (Hv : map viewGame (BackQueryChache.games c) !! n = Some (viewGame g)).
      { rewrite list_lookup_fmap, Hn. reflexivity. }
      replace (Z.to_nat i) with n by lia.
      rewrite (drop_S _ _ _ Hv). reflexivity.
  - split; [now rewrite Hid | exact Htitle].
Qed.

End QuickSearchPage.

Lemma quick_search_index_addresses_page_witness :
  let w := exampleWorld exampleState threeGames ∅ in
  let w1 := exec (on_QUICK_SEARCH exampleEnv 1%nat "r1" exampleQuery "me") w in
  exists (v : ViewGame.t) (total : Z),
    newTrace (on_BROWSE_VIEW_PAGE exampleEnv 2%nat "r2" exampleQuery 2 1) w1 =
      [Sent 2%nat (response "r2" BackOut.BROWSE_VIEW_PAGE_RESPONSE
                     (DBrowseViewPage [v] 2 total))] /\
    ViewGame.id v = "g3".
Proof.
  intros w w1.
  destruct (quick_search_index_addresses_page exampleEnv 1%nat 2%nat "r1" "r2"
              exampleQuery "me" w "g3" 2) as [v [total [Ht [Hid _]]]].
  - apply cacheFresh_empty. reflexivity.
  - vm_compute. right. left. reflexivity.
  - exists v, total. split; [exact Ht | exact Hid].
Defined.

(** ** Who is sent what *)

Ltac sends_step :=
  intros ?w;
  first [ exists []; split; [symmetry; apply app_nil_r | reflexivity]
        | eexists [_]; split; [reflexivity | cbn; rewrite ?Nat.eqb_refl; reflexivity] ].

(** X10. A handler that calls no code outside the sources ([callsUnknown]:
    not [log], the launcher, the importer, a managed process or [exit],
    which may send on their own) sends responses to the socket of its
    request and to no other, broadcasts only when the request is
    UPDATE_PREFERENCES, launches nothing, acts on no service and does not
    exit. This holds whether the handler returns or throws. *)
Theorem effects_by_request (E : Env.t) (target : Channel) (req : WrappedRequest.t)
  (w : World.t) :
  callsUnknown (WrappedRequest.data req) = false ->
  forallb (mayEmit target (WrappedRequest.data req))
          (newTrace (registerRequestCallbacks E target req) w) = true.
Proof.
  intros Hu. apply newTrace_emitsOnly. revert w.
  change (keeps (emitsOnly (mayEmit target (WrappedRequest.data req)))
                (registerRequestCallbacks E target req)).
  destruct req as [id d]. unfold registerRequestCallbacks.
  cbn [WrappedRequest.data WrappedRequest.id] in *.
  destruct d; try discriminate Hu; frame sends_step.
Qed.

Lemma effects_by_request_witness :
  forallb (mayEmit 1%nat (BackIn.UPDATE_PREFERENCES (VObj [])))
          (newTrace (registerRequestCallbacks exampleEnv 1%nat
                       (WrappedRequest.mk "r1" (BackIn.UPDATE_PREFERENCES (VObj []))))
                    oneGameWorld) = true.
Proof.
  apply (effects_by_request exampleEnv 1%nat
           (WrappedRequest.mk "r1" (BackIn.UPDATE_PREFERENCES (VObj []))) oneGameWorld).
  reflexivity.
Defined.

(** ** The image folder (lines 428-481) *)

Lemma Frame_confined (ok : string -> bool) : Frame (confined ok).
Proof.
  pose proof (Frame_emitsOnly (fileEffectWithin ok)) as [Hr Ht].
  split; unfold confined, filesWithin.
  - intros w. split; [tauto | apply Hr].
  - intros a b c [F1 E1] [F2 E2]. split; [|eapply Ht; eauto].
    intros p Hp. rewrite (F2 p Hp). apply (F1 p Hp).
Qed.

Lemma quiet_confined (ok : string -> bool) : admitsQuiet (confined ok).
Proof.
  intros w w' Hs. split; [|now apply quiet_emitsOnly].
  destruct Hs as [_ [Hfs _]]. intros p _. now rewrite Hfs.
Qed.

#[local] Hint Resolve Frame_confined quiet_confined : frames.

Section Confined.

Variable ok : string -> bool.

Lemma confined_writeFile (p : string) : ok p = true -> keeps (confined ok) (writeFile p).
Proof.
  intros Hp w. split.
  - intros p' Hp'. cbn. assert (Hne : p' <> p) by congruence.
    rewrite elem_of_union, elem_of_singleton. tauto.
  - exists [WroteFile p]. split; [reflexivity | cbn; now rewrite Hp].
Qed.

Lemma confined_copyFile (src dst : string) :
  ok dst = true -> keeps (confined ok) (copyFile src dst).
Proof.
  intros Hp w. split.
  - intros p' Hp'. cbn. assert (Hne : p' <> dst) by congruence.
    rewrite elem_of_union, elem_of_singleton. tauto.
  - exists [CopiedFile src dst]. split; [reflexivity | cbn; now rewrite Hp].
Qed.

Lemma confined_unlink (p : string) : ok p = true -> keeps (confined ok) (unlink p).
Proof.
  intros Hp w. unfold exec, unlink, bind, emit, getFs, setFs, throw.
  cbn [fst snd World.fs].
  destruct (bool_decide (p ∈ World.fs w)); cbn [fst snd]; split.
  - intros p' Hp'. cbn. assert (Hne : p' <> p) by congruence.
    rewrite elem_of_difference, elem_of_singleton. tauto.
  - exists [Unlinked p]. split; [reflexivity | cbn; now rewrite Hp].
  - intros p' Hp'. reflexivity.
  - exists [Unlinked p]. split; [reflexivity | cbn; now rewrite Hp].
Qed.

End Confined.

Ltac other_step :=
  intros ?w; split;
  [ intros ?p _; reflexivity
  | first [ exists []; split; [symmetry; apply app_nil_r | reflexivity]
          | eexists [_]; split; reflexivity ] ].

(** X11. The image requests stay in the image folder. Whatever the folder
    and the id of a SAVE_IMAGE or DELETE_IMAGE request, and whether the
    calls of its handler succeed or fail, every file the handler writes or
    deletes has a path that starts with the path of the image folder, and
    a path that does not start with it is a file after the request if and
    only if it was one before. *)
Theorem image_requests_stay_in_image_folder (E : Env.t) (target : Channel)
  (req : WrappedRequest.t) (w : World.t) :
  isImageRequest (WrappedRequest.data req) = true ->
  let inFolder := fun p => JS.startsWith p (imageFolderOf E (World.state w)) in
  let run := registerRequestCallbacks E target req in
  forallb (fileEffectWithin inFolder) (newTrace run w) = true /\
  forall p : string,
    inFolder p = false -> (p ∈ World.fs (exec run w) <-> p ∈ World.fs w).
Proof.
  intros Hd inFolder run.
  assert (H : confined inFolder w (exec run w)).
  { subst run inFolder. destruct req as [id d]. unfold registerRequestCallbacks.
    cbn [WrappedRequest.data WrappedRequest.id] in *.
    destruct d; try discriminate Hd.
    - unfold on_SAVE_IMAGE.
      lazymatch goal with
      | |- confined _ _ (exec (bind getState ?k) _) =>
          assert (Hk : forall s, keeps (confined (fun p => JS.startsWith p (imageFolderOf E s)))
                                       (k s))
      end.
      { intros s. cbv beta. unfold imagePath. cbv zeta. cbv iota.
        fold (imageFolderOf E s).
        destruct (JS.startsWith _ (imageFolderOf E s)) eqn:Hs;
          frame ltac:(first [ apply confined_writeFile; exact Hs | other_step ]). }
      exact (Hk (World.state w) w).
    - unfold on_DELETE_IMAGE.
      lazymatch goal with
      | |- confined _ _ (exec (bind getState ?k) _) =>
          assert (Hk : forall s, keeps (confined (fun p => JS.startsWith p (imageFolderOf E s)))
                                       (k s))
      end.
      { intros s. cbv beta. unfold imagePath. cbv zeta. cbv iota.
        fold (imageFolderOf E s).
        destruct (JS.startsWith _ (imageFolderOf E s)) eqn:Hs;
          frame ltac:(first [ apply confined_unlink; exact Hs | other_step ]). }
      exact (Hk (World.state w) w). }
  destruct H as [Hf He]. split; [now apply newTrace_emitsOnly | exact Hf].
Qed.

Lemma image_requests_stay_in_image_folder_witness :
  let w := exampleWorld exampleState [] ∅ in
  let run := registerRequestCallbacks exampleEnv 1%nat
               (WrappedRequest.mk "r1" (BackIn.SAVE_IMAGE "Logos" "abcdef" "")) in
  forallb (fileEffectWithin (fun p => JS.startsWith p "fp/Images")) (newTrace run w) = true.
Proof.
  intros w run.
  destruct (image_requests_stay_in_image_folder exampleEnv 1%nat
              (WrappedRequest.mk "r1" (BackIn.SAVE_IMAGE "Logos" "abcdef" "")) w)
    as [H _]; [reflexivity|].
  exact H.
Defined.

(** ** What a query asks the catalog (lines 796-806, 820-851) *)

Section Search.

Variable E : Env.t.

Lemma queryOpts_sameSearch (s : BackState.t) (q1 q2 : BackQuery.t) :
  sameSearch q1 q2 -> queryOpts s (copyQuery q1) = queryOpts s (copyQuery q2).
Proof.
  intros [Hs [He [Hb Hp]]]. unfold queryOpts, copyQuery.
  cbn [BackQuery.search BackQuery.extreme BackQuery.broken BackQuery.playlistId].
  now rewrite Hs, He, Hb, Hp.
Qed.

Lemma page_miss_run (target : Channel) (id : string) (q : BackQuery.t) (offset limit : Z)
  (w : World.t) :
  BackState.queries (World.state w) !! hash_BROWSE_VIEW_PAGE E q = None ->
  let opts := queryOpts (World.state w) (copyQuery q) in
  let games := Env.filterGames E (Some opts) (World.db w) in
  newTrace (on_BROWSE_VIEW_PAGE E target id q offset limit) w =
    [FoundGames (Some opts);
     Sent target (response id BackOut.BROWSE_VIEW_PAGE_RESPONSE
       (DBrowseViewPage (slice (map viewGame games) offset (offset + limit)) offset
                        (Z.of_nat (length games))))].
Proof.
  intros Hmiss opts games. unfold on_BROWSE_VIEW_PAGE. eapply newTrace_of_run.
  - unfold bind. rewrite (cachedQuery_miss E _ _ w Hmiss). reflexivity.
  - cbn [World.trace]. now rewrite <- app_assoc.
Qed.

(** X12. The order and the library of a query are not passed to the search
    of the catalog. Two browse-page requests whose queries have the same
    search text, the same extreme and broken flags and the same playlist
    make the same search and are answered with the same page and the same
    total, whatever their orderBy, orderReverse and library, when neither
    query is cached. *)
Theorem search_ignores_order_and_library (target : Channel) (id : string)
  (q1 q2 : BackQuery.t) (offset limit : Z) (w : World.t) :
  sameSearch q1 q2 ->
  BackState.queries (World.state w) !! hash_BROWSE_VIEW_PAGE E q1 = None ->
  BackState.queries (World.state w) !! hash_BROWSE_VIEW_PAGE E q2 = None ->
  newTrace (on_BROWSE_VIEW_PAGE E target id q1 offset limit) w =
  newTrace (on_BROWSE_VIEW_PAGE E target id q2 offset limit) w /\
  exists (opts : FilterGameOpts.t) (page : list ViewGame.t) (total : Z),
    newTrace (on_BROWSE_VIEW_PAGE E target id q1 offset limit) w =
      [FoundGames (Some opts);
       Sent target (response id BackOut.BROWSE_VIEW_PAGE_RESPONSE
                      (DBrowseViewPage page offset total))].
Proof.
  intros Hs H1 H2.
  rewrite (page_miss_run target id q1 offset limit w H1).
  rewrite (page_miss_run target id q2 offset limit w H2).
  rewrite (queryOpts_sameSearch (World.state w) q1 q2 Hs).
  split; [reflexivity | eexists _, _, _; reflexivity].
Qed.

End Search.

Lemma search_ignores_order_and_library_witness :
  let q1 := exampleQuery in
  let q2 := BackQuery.mk false false None "mario" "dateAdded" "descending" None in
  let w := exampleWorld exampleState threeGames ∅ in
  newTrace (on_BROWSE_VIEW_PAGE exampleEnv 1%nat "r1" q1 0 2) w =
  newTrace (on_BROWSE_VIEW_PAGE exampleEnv 1%nat "r1" q2 0 2) w.
Proof.
  intros q1 q2 w.
  destruct (search_ignores_order_and_library exampleEnv 1%nat "r1" q1 q2 0 2 w) as [H _].
  - repeat split.
  - reflexivity.
  - reflexivity.
  - exact H.
Defined.

(** ** The files of the playlists (lines 591-663, 808-818) *)

Section RunsAt.

Variable R : World.t -> World.t -> Prop.
Hypothesis HR : Frame R.


Lemma keepsAt_pure {A B : Type} (m : M A) (k : A -> M B) (w : World.t) (a : A) :
  m w = (Ok a, w) -> keepsAt R (k a) w -> keepsAt R (bind m k) w.
Proof. intros Hm Hk. unfold keepsAt, exec, bind in *. now rewrite Hm. Qed.

End RunsAt.

Section EmitsOnly.

Variable P : Effect -> bool.


Lemma emitsOnly_unlink (p : string) :
  P (Unlinked p) = true -> keeps (emitsOnly P) (unlink p).
Proof.
  intros Hp w. exists [Unlinked p]. unfold exec, unlink, bind, emit, getFs, setFs, throw.
  cbn [fst snd World.fs].
  destruct (bool_decide (p ∈ World.fs w)); (split; [reflexivity | cbn; now rewrite Hp]).
Qed.

Lemma emitsOnly_In {A : Type} (m : M A) (w : World.t) (e : Effect) :
  emitsOnly P w (exec m w) -> In e (newTrace m w) -> P e = true.
Proof.
  intros H Hin. apply newTrace_emitsOnly in H. rewrite forallb_forall in H. now apply H.
Qed.

End EmitsOnly.

Section Names.

Variable E : Env.t.

Lemma probe_first_free (fuel : nat) (folder part0 part1 : string) (n : Z) (w : World.t) :
  100 - n <= Z.of_nat fuel ->
  let cand := fun k => part0 +:+ JS.numberToString k +:+ part1 in
  (probe E fuel folder part0 part1 n w = (Ok "", w) /\
   forall k, n <= k < 100 -> path_join2 E folder (cand k) ∈ World.fs w) \/
  (exists k, n <= k < 100 /\
     probe E fuel folder part0 part1 n w = (Ok (cand k), w) /\
     (path_join2 E folder (cand k) ∉ World.fs w) /\
     forall j, n <= j < k -> path_join2 E folder (cand j) ∈ World.fs w).
Proof.
  intros Hfuel cand. revert n Hfuel.
  induction fuel as [|fuel IH]; intros n Hfuel; cbn [probe].
  - left. split; [reflexivity | intros k Hk; lia].
  - destruct (Z.ltb_spec n 100) as [Hlt|Hge];
      [|left; split; [reflexivity | intros k Hk; lia]].
    unfold bind. rewrite pathExists_run. fold (cand n).
    destruct (decide (path_join2 E folder (cand n) ∈ World.fs w)) as [Hin|Hout].
    + rewrite bool_decide_eq_true_2 by exact Hin.
      destruct (IH (n + 1)) as [[Hr Hall]|[k [Hk [Hr [Hfree Hbelow]]]]]; [lia | |].
      * left. split; [exact Hr|]. intros k Hk.
        destruct (Z.eq_dec k n) as [->|Hne]; [exact Hin | apply Hall; lia].
      * right. exists k. split; [lia|]. split; [exact Hr|]. split; [exact Hfree|].
        intros j Hj. destruct (Z.eq_dec j n) as [->|Hne]; [exact Hin | apply Hbelow; lia].
    + rewrite bool_decide_eq_false_2 by exact Hout.
      right. exists n. split; [lia|]. split; [reflexivity|]. split; [exact Hout|].
      intros j Hj. lia.
Qed.

Lemma matchTrailingNumber_match (s before m : string) :
  matchTrailingNumber s = Some (before, m) ->
  exists r, m = String " " r /\ nonEmpty r = true /\ allDigits r = true.
Proof.
  revert before. induction s as [|c s IH]; intros before; cbn [matchTrailingNumber];
    [discriminate|].
  destruct (Ascii.eqb c " " && nonEmpty s && allDigits s) eqn:Hc.
  - intros [= <- <-]. apply andb_prop in Hc as [Hc Hd]. apply andb_prop in Hc as [Hc Hn].
    apply Ascii.eqb_eq in Hc as ->. now exists s.
  - destruct (matchTrailingNumber s) as [[b m']|]; [|discriminate].
    intros [= <- <-]. now apply (IH b).
Qed.

Lemma parseDigits_le (s : string) (acc : Z) : 0 <= acc -> 0 <= parseDigits s acc.
Proof.
  revert acc. induction s as [|c s IH]; intros acc Hacc; cbn [parseDigits]; [exact Hacc|].
  destruct (JS.isDigit c); [|exact Hacc]. apply IH. unfold JS.digitValue. lia.
Qed.

Lemma parseInt_of_match (r : string) :
  nonEmpty r = true -> allDigits r = true ->
  exists v, parseInt (String " " r) = Some v /\ 0 <= v.
Proof.
  intros Hn Hd. unfold parseInt. cbn [skipSpaces].
  destruct r as [|c r]; [discriminate Hn|].
  cbn [allDigits] in Hd. apply andb_prop in Hd as [Hc Hd].
  assert (Hsp : skipSpaces (String c r) = String c r).
  { cbn [skipSpaces]. destruct c as [[] [] [] [] [] [] [] []]; try reflexivity.
    discriminate Hc. }
  rewrite Hsp, Hc. eexists. split; [reflexivity|]. now apply parseDigits_le.
Qed.

(** The number that the loop starts from is never [NaN] and is one or
    more. *)
Lemma numberedParts_number (filename : string) :
  exists n part0 part1, numberedParts filename = (Some n, part0, part1) /\ 1 <= n.
Proof.
  unfold numberedParts.
  destruct (matchTrailingNumber (lastPart _)) as [[before m]|] eqn:Hm.
  - destruct (matchTrailingNumber_match _ _ _ Hm) as [r [-> [Hn Hd]]].
    destruct (parseInt_of_match r Hn Hd) as [v [-> Hv]]. cbn [option_map].
    eexists _, _, _. split; [reflexivity | lia].
  - eexists _, _, _. split; [reflexivity | lia].
Qed.


(** X13. The name that a new playlist is saved under. [coolFilename]
    returns without changing anything. It returns the name it is given
    when no file of the folder has it. Otherwise the number it starts from
    is a number, one or more, and it returns the first candidate from that
    number up to 99 that no file of the folder has, every candidate before
    it being taken, or the empty text when all of them are taken. *)
Theorem coolFilename_first_free (folder filename : string) (w : World.t) :
  exists name,
    coolFilename E folder filename w = (Ok name, w) /\
    (path_join2 E folder filename ∉ World.fs w -> name = filename) /\
    (path_join2 E folder filename ∈ World.fs w ->
     exists n part0 part1,
       numberedParts filename = (Some n, part0, part1) /\ 1 <= n /\
       let cand := fun k => part0 +:+ JS.numberToString k +:+ part1 in
       (name = "" /\ forall k, n <= k < 100 -> path_join2 E folder (cand k) ∈ World.fs w) \/
       (exists k, n <= k < 100 /\ name = cand k /\
          (path_join2 E folder (cand k) ∉ World.fs w) /\
          forall j, n <= j < k -> path_join2 E folder (cand j) ∈ World.fs w)).
Proof.
  unfold coolFilename, bind. rewrite pathExists_run.
  destruct (decide (path_join2 E folder filename ∈ World.fs w)) as [Hin|Hout].
  - rewrite bool_decide_eq_true_2 by exact Hin.
    destruct (numberedParts_number filename) as [n [part0 [part1 [Hp Hn]]]].
    rewrite Hp.
    destruct (probe_first_free (Z.to_nat (100 - n)) folder part0 part1 n w)
      as [[Hr Hall]|[k [Hk [Hr [Hfree Hbelow]]]]]; [lia | |].
    + exists "". split; [exact Hr|]. split; [contradiction|]. intros _.
      exists n, part0, part1. split; [reflexivity|]. split; [exact Hn|]. left. auto.
    + eexists. split; [exact Hr|]. split; [contradiction|]. intros _.
      exists n, part0, part1. split; [reflexivity|]. split; [exact Hn|]. right.
      exists k. auto.
  - rewrite bool_decide_eq_false_2 by exact Hout.
    exists filename. split; [reflexivity|]. split; [reflexivity | contradiction].
Qed.

Lemma keeps_deletePlaylist (s : BackState.t) (id folder : string) :
  usableFolder s = Some folder ->
  keeps (emitsOnly (unlinksOnly (deletable E s)))
        (deletePlaylist E id folder (BackState.playlists s)).
Proof.
  intros Hf. unfold deletePlaylist.
  destruct (nonEmpty id); [|apply keeps_ret, Frame_emitsOnly].
  destruct (find _ (BackState.playlists s)) as [pl|] eqn:Hfind;
    [|apply keeps_ret, Frame_emitsOnly].
  cbv zeta.
  destruct ((JS.strlen folder <? JS.strlen _) && JS.startsWith _ folder) eqn:Hg;
    [|apply keeps_ret, Frame_emitsOnly].
  apply emitsOnly_unlink. cbn [unlinksOnly]. unfold deletable. rewrite Hf.
  apply andb_prop in Hg as [Hlen Hstart]. rewrite Hlen, Hstart, !Bool.andb_true_r.
  apply existsb_exists. exists pl. split; [|apply String.eqb_refl].
  now apply find_some in Hfind as [Hin _].
Qed.

End Names.

Ltac note_step :=
  intros ?w;
  first [ exists []; split; [symmetry; apply app_nil_r | reflexivity]
        | eexists [_]; split; reflexivity ].



(** X15. The playlist requests delete inside the playlist folder. Every
    file that the handler of a SAVE_PLAYLIST or DELETE_PLAYLIST request
    deletes is the file of a playlist of the state, at a path that starts
    with the path of the playlist folder and is longer than it. *)
Theorem playlists_deleted_inside_folder (E : Env.t) (target : Channel)
  (req : WrappedRequest.t) (w : World.t) (p : string) :
  isPlaylistRequest (WrappedRequest.data req) = true ->
  In (Unlinked p) (newTrace (registerRequestCallbacks E target req) w) ->
  exists (folder : string) (playlist : GamePlaylist.t),
    usableFolder (World.state w) = Some folder /\
    In playlist (BackState.playlists (World.state w)) /\
    p = path_join2 E folder (GamePlaylist.filename playlist) /\
    JS.startsWith p folder = true /\
    JS.strlen folder < JS.strlen p.
Proof.
  intros Hd Hin.
  set (s := World.state w).
  assert (H : keepsAt (emitsOnly (unlinksOnly (deletable E s)))
                      (registerRequestCallbacks E target req) w).
  { destruct req as [id d]. unfold registerRequestCallbacks.
    cbn [WrappedRequest.data WrappedRequest.id] in *.
    destruct d; try discriminate Hd.
    - unfold on_SAVE_PLAYLIST.
      apply (keepsAt_pure _ getState _ w s eq_refl). cbv beta zeta.
      lazymatch goal with
      | |- keepsAt ?R ?m w => assert (Hk : keeps R m)
      end.
      { destruct (usableFolder s) as [folder|] eqn:Hf;
          frame ltac:(first [ apply keeps_deletePlaylist; exact Hf | note_step ]). }
      exact (Hk w).
    - unfold on_DELETE_PLAYLIST.
      apply (keepsAt_pure _ getState _ w s eq_refl). cbv beta zeta.
      lazymatch goal with
      | |- keepsAt ?R ?m w => assert (Hk : keeps R m)
      end.
      { destruct (usableFolder s) as [folder|] eqn:Hf;
          frame ltac:(first [ apply keeps_deletePlaylist; exact Hf | note_step ]). }
      exact (Hk w). }
  pose proof (emitsOnly_In _ _ w (Unlinked p) H Hin) as Hp.
  cbn [unlinksOnly] in Hp. unfold deletable in Hp.
  destruct (usableFolder s) as [folder|]; [|discriminate Hp].
  apply andb_prop in Hp as [Hp Hlen]. apply andb_prop in Hp as [Hex Hstart].
  apply existsb_exists in Hex as [pl [Hpl Heq]]. apply String.eqb_eq in Heq.
  exists folder, pl. repeat split; auto. now apply Z.ltb_lt.
Qed.

Lemma playlists_deleted_inside_folder_witness :
  let s := onePlaylistState in
  exists (folder : string) (playlist : GamePlaylist.t),
    usableFolder s = Some folder /\
    "Playlists/a.json" = path_join2 exampleEnv folder (GamePlaylist.filename playlist) /\
    JS.strlen folder < JS.strlen "Playlists/a.json".
Proof.
  intros s.
  destruct (playlists_deleted_inside_folder exampleEnv 1%nat
              (WrappedRequest.mk "r1" (BackIn.DELETE_PLAYLIST "a.json"))
              (exampleWorld s [] (folderOf ["a.json"])) "Playlists/a.json")
    as [folder [pl [Hf [_ [Hp [_ Hl]]]]]].
  - reflexivity.
  - vm_compute. left. reflexivity.
  - exists folder, pl. auto.
Defined.

(** ** The files of an export (lines 293-330) *)

Ltac export_step :=
  intros ?w;
  first [ exists []; split; [symmetry; apply app_nil_r | reflexivity]
        | eexists [_]; split;
          [ reflexivity
          | cbn; rewrite ?String.eqb_refl, ?Bool.orb_true_r; reflexivity ] ].

(** X16. An export writes its own files and no other. The handler of
    EXPORT_GAME deletes nothing and makes no directory; with [metaOnly] it
    writes at most the file at the location of the request and copies
    nothing; without it, it writes at most [meta.txt] and copies at most to
    [logo.png] and [ss.png], all three in the location of the request.
    This holds whether the calls of the handler succeed or fail. *)
Theorem export_writes_its_own_files (E : Env.t) (target : Channel) (id : string)
  (gameId location : string) (metaOnly : bool) (w : World.t) :
  forallb (exportEffect E location metaOnly)
          (newTrace (on_EXPORT_GAME E target id gameId location metaOnly) w) = true.
Proof.
  apply newTrace_emitsOnly. revert w.
  change (keeps (emitsOnly (exportEffect E location metaOnly))
                (on_EXPORT_GAME E target id gameId location metaOnly)).
  unfold on_EXPORT_GAME. destruct metaOnly; cbn [negb]; frame export_step.
Qed.

(** X17. An export of a game that is not in the catalog, or to a place that
    does not exist, does nothing but answer. *)
Theorem export_of_nothing_writes_nothing (E : Env.t) (target : Channel) (id : string)
  (gameId location : string) (metaOnly : bool) (w : World.t) :
  (if metaOnly then Env.path_dirname E location else location) ∉ World.fs w \/
  find (fun g => String.eqb (Game.id g) gameId) (World.db w) = None ->
  let run := on_EXPORT_GAME E target id gameId location metaOnly in
  newTrace run w = [Sent target (response id BackOut.GENERIC_RESPONSE DUndefined)] /\
  World.fs (exec run w) = World.fs w.
Proof.
  intros Hno run.
  assert (Hrun : run w = respond target (response id BackOut.GENERIC_RESPONSE DUndefined) w).
  { subst run. unfold on_EXPORT_GAME. unfold bind at 1. rewrite pathExists_run.
    destruct (bool_decide _) eqn:Hfound; [|reflexivity].
    destruct Hno as [Hno|Hno]; [now apply bool_decide_eq_true_1 in Hfound|].
    unfold when, GameManager.findGame, bind, getDb, ret. rewrite Hno. reflexivity. }
  split.
  - eapply newTrace_of_run; [exact Hrun | reflexivity].
  - unfold exec. rewrite Hrun. reflexivity.
Qed.

Lemma export_of_nothing_writes_nothing_witness :
  newTrace (on_EXPORT_GAME exampleEnv 1%nat "r1" "g9" "out" false) oneGameWorld
  = [Sent 1%nat (response "r1" BackOut.GENERIC_RESPONSE DUndefined)].
Proof.
  destruct (export_of_nothing_writes_nothing exampleEnv 1%nat "r1" "g9" "out" false
              oneGameWorld) as [H _].
  - right. reflexivity.
  - exact H.
Defined.

(** ** An image that is not there (lines 456-481) *)

(** X18. Deleting an image that is not there is not an error. When the
    file of the image does not exist and [stat] fails for no other reason,
    the handler of DELETE_IMAGE writes nothing to the console: it does
    nothing but answer, and the files are as they were. *)
Theorem delete_of_missing_image_is_silent (E : Env.t) (target : Channel) (id : string)
  (reqFolder reqId : string) (w : World.t) :
  let folder := Env.sanitizeFilename E reqFolder in
  let imageId := Env.sanitizeFilename E reqId in
  snd (imagePath E (World.state w) folder imageId) ∉ World.fs w ->
  World.oracle w (World.tick w) = 0%nat ->
  let run := on_DELETE_IMAGE E target id reqFolder reqId in
  returns run w = true /\
  newTrace run w
  = [Sent target (response id BackOut.IMAGE_CHANGE (DImageChange imageId folder))] /\
  World.fs (exec run w) = World.fs w.
Proof.
  intros folder imageId Hmissing Hstat run.
  assert (Hrun : exists w1,
            run w = respond target
                      (response id BackOut.IMAGE_CHANGE (DImageChange imageId folder)) w1 /\
            World.trace w1 = World.trace w /\ World.fs w1 = World.fs w).
  { subst run. unfold on_DELETE_IMAGE. unfold bind at 1. cbn [getState].
    fold folder imageId. unfold imagePath in *. cbn [snd] in Hmissing. cbv zeta.
    destruct (JS.startsWith _ _).
    - unfold when, try_catch, mayThrow, statIsFile, bind, choose, getFs.
      cbn [World.fs World.oracle World.tick]. rewrite Hstat.
      rewrite bool_decide_eq_false_2 by exact Hmissing.
      eexists. split; [reflexivity|]. split; reflexivity.
    - exists w. split; [reflexivity|]. split; reflexivity. }
  destruct Hrun as [w1 [Hrun [Ht Hf]]].
  unfold returns, exec. rewrite Hrun. cbn. repeat split; [|exact Hf].
  eapply newTrace_of_run; [exact Hrun|]. cbn. now rewrite Ht.
Qed.

Lemma delete_of_missing_image_is_silent_witness :
  newTrace (on_DELETE_IMAGE exampleEnv 1%nat "r1" "Logos" "abcdef") oneGameWorld
  = [Sent 1%nat (response "r1" BackOut.IMAGE_CHANGE (DImageChange "abcdef" "Logos"))].
Proof.
  destruct (delete_of_missing_image_is_silent exampleEnv 1%nat "r1" "Logos" "abcdef"
              oneGameWorld) as [_ [H _]].
  - apply not_elem_of_empty.
  - reflexivity.
  - exact H.
Defined.

(** ** The preferences (lines 531-557) *)

Section Preferences.

Variable E : Env.t.

Lemma difKeys_nothing (aprops bprops : list (string * value)) :
  namesNoChange aprops bprops ->
  forall (keys : list (string * value)) (dif : option (list (string * value))),
    (forall k tk, In (k, tk) keys -> matchesShape tk (lookupProp aprops k) = true) ->
    difKeys (Env.sameObject E) (VObj aprops) (VObj bprops) keys dif = Some (difValue dif).
Proof.
  intros Hno. induction keys as [|[k tk] keys IH]; intros dif Hall; [reflexivity|].
  assert (Hrest : forall k tk, In (k, tk) keys ->
                    matchesShape tk (lookupProp aprops k) = true)
    by (intros; apply Hall; now right).
  destruct (Hno k) as [Hu|He].
  - rewrite difKeys_skip_undefined by exact Hu. now apply IH.
  - rewrite difKeys_skip_equal by (try exact He; apply Hall; now left).
    now apply IH.
Qed.

Lemma difObjects_nothing (t : value) (aprops bprops : list (string * value)) :
  matchesShape t (VObj aprops) = true -> namesNoChange aprops bprops ->
  difObjects (Env.sameObject E) t (VObj aprops) (VObj bprops) = Some VUndefined.
Proof.
  intros Hm Hno. destruct (matchesShape_object _ _ Hm) as [tprops ->].
  rewrite difObjects_keys. apply (difKeys_nothing aprops bprops Hno tprops None).
  intros k tk. now apply matchesShape_props.
Qed.

Lemma defined_In (props : list (string * value)) (k : string) :
  defined (lookupProp props k) = true -> In k (map fst props).
Proof.
  induction props as [|[k1 v1] props IH]; cbn [lookupProp map fst In]; [discriminate|].
  destruct (String.eqb_spec k1 k) as [->|Hne]; [now left | right; now apply IH].
Qed.

Lemma difObjects_defined_key (t : value) (aprops bprops props : list (string * value))
  (k : string) :
  matchesShape t (VObj aprops) = true ->
  difObjects (Env.sameObject E) t (VObj aprops) (VObj bprops) = Some (VObj props) ->
  defined (lookupProp props k) = true ->
  lookupProp bprops k <> VUndefined /\ lookupProp bprops k <> lookupProp aprops k.
Proof.
  intros Hm Hd Hk. destruct (matchesShape_object _ _ Hm) as [tprops ->].
  rewrite difObjects_keys in Hd.
  destruct (difKeys_changed (Env.sameObject E) aprops bprops tprops None (VObj props))
    with (k := k) as [[]|H]; auto.
  - intros k0 tk. now apply matchesShape_props.
  - cbn [keysOf]. now apply defined_In.
Qed.

End Preferences.

(** X19. Preferences that name no change change nothing. When every
    property of the data of an UPDATE_PREFERENCES request is [undefined] or
    has the value of the current preferences, the handler writes no file
    and broadcasts nothing: it answers with the current preferences and
    leaves the state and the files as they were. *)
Theorem unchanged_preferences_write_nothing (E : Env.t) (target : Channel) (id : string)
  (bprops : list (string * value)) (w : World.t) :
  let preferences := BackState.preferences (World.state w) in
  matchesShape (Env.defaultPreferencesData E) (VObj preferences) = true ->
  namesNoChange preferences bprops ->
  let run := on_UPDATE_PREFERENCES E target id (VObj bprops) in
  returns run w = true /\
  newTrace run w
  = [Sent target (response id BackOut.UPDATE_PREFERENCES_RESPONSE
                    (DPreferences (VObj preferences)))] /\
  World.state (exec run w) = World.state w /\
  World.fs (exec run w) = World.fs w.
Proof.
  intros preferences Hm Hno run.
  pose proof (difObjects_nothing E _ preferences bprops Hm Hno) as Hd.
  assert (Hrun : run w =
                 respond target (response id BackOut.UPDATE_PREFERENCES_RESPONSE
                                   (DPreferences (VObj preferences))) w).
  { subst run. unfold on_UPDATE_PREFERENCES. unfold bind at 1. cbn [getState].
    unfold bind at 1. fold preferences. rewrite Hd. reflexivity. }
  unfold returns, exec. rewrite Hrun. cbn. repeat split.
  eapply newTrace_of_run; [exact Hrun | reflexivity].
Qed.

Lemma unchanged_preferences_write_nothing_witness :
  newTrace (on_UPDATE_PREFERENCES exampleEnv 1%nat "r1"
              (VObj [("currentLanguage", VStr "en")])) oneGameWorld
  = [Sent 1%nat (response "r1" BackOut.UPDATE_PREFERENCES_RESPONSE
                   (DPreferences (VObj examplePreferences)))].
Proof.
  destruct (unchanged_preferences_write_nothing exampleEnv 1%nat "r1"
              [("currentLanguage", VStr "en")] oneGameWorld) as [_ [H _]].
  - reflexivity.
  - intros k. unfold oneGameWorld, exampleWorld, staleState. cbn [lookupProp].
    destruct (String.eqb_spec "currentLanguage" k) as [<-|_]; [right; reflexivity | now left].
  - exact H.
Defined.

(** X20. The language is broadcast only when it changes. When the handler
    of UPDATE_PREFERENCES broadcasts, the data of the request has a defined
    [currentLanguage] or [fallbackLanguage] that is not the current one. *)
Theorem language_broadcast_only_on_change (E : Env.t) (target : Channel) (id : string)
  (bprops : list (string * value)) (w : World.t) (r : WrappedResponse.t) :
  let preferences := BackState.preferences (World.state w) in
  matchesShape (Env.defaultPreferencesData E) (VObj preferences) = true ->
  In (Broadcast r) (newTrace (on_UPDATE_PREFERENCES E target id (VObj bprops)) w) ->
  exists k : string,
    (k = "currentLanguage" \/ k = "fallbackLanguage") /\
    lookupProp bprops k <> VUndefined /\
    lookupProp bprops k <> lookupProp preferences k.
Proof.
  intros preferences Hm Hin.
  assert (H : (exists k : string,
                 (k = "currentLanguage" \/ k = "fallbackLanguage") /\
                 lookupProp bprops k <> VUndefined /\
                 lookupProp bprops k <> lookupProp preferences k) \/
              keepsAt (emitsOnly notBroadcast)
                      (on_UPDATE_PREFERENCES E target id (VObj bprops)) w).
  { destruct (difObjects (Env.sameObject E) (Env.defaultPreferencesData E)
                         (VObj preferences) (VObj bprops)) as [dif|] eqn:Hd.
    - destruct dif as [| | | | |props];
        try (right; unfold on_UPDATE_PREFERENCES;
             apply (keepsAt_pure _ getState _ w (World.state w) eq_refl);
             fold preferences; rewrite Hd; cbn [liftOption];
             apply (keepsAt_pure _ (ret _) _ w _ eq_refl); cbv beta iota;
             lazymatch goal with
             | |- keepsAt ?R ?m w => assert (Hk : keeps R m) by frame note_step;
                                     exact (Hk w)
             end).
      destruct (defined (lookupProp props "currentLanguage")) eqn:Hc;
        [left; exists "currentLanguage"; split; [now left|];
         exact (difObjects_defined_key E _ _ _ _ _ Hm Hd Hc)|].
      destruct (defined (lookupProp props "fallbackLanguage")) eqn:Hf;
        [left; exists "fallbackLanguage"; split; [now right|];
         exact (difObjects_defined_key E _ _ _ _ _ Hm Hd Hf)|].
      right. unfold on_UPDATE_PREFERENCES.
      apply (keepsAt_pure _ getState _ w (World.state w) eq_refl).
      fold preferences. rewrite Hd. cbn [liftOption].
      apply (keepsAt_pure _ (ret _) _ w _ eq_refl). cbv beta iota zeta.
      rewrite Hc, Hf. cbn [andb orb]. unfold when at 1.
      lazymatch goal with
      | |- keepsAt ?R ?m w => assert (Hk : keeps R m) by frame note_step;
                              exact (Hk w)
      end.
    - right. unfold on_UPDATE_PREFERENCES.
      apply (keepsAt_pure _ getState _ w (World.state w) eq_refl).
      fold preferences. rewrite Hd. cbn [liftOption].
      apply (frame_refl _ (Frame_emitsOnly notBroadcast)). }
  destruct H as [H|H]; [exact H|].
  pose proof (emitsOnly_In _ _ w (Broadcast r) H Hin) as Hp. discriminate Hp.
Qed.

Lemma language_broadcast_only_on_change_witness :
  exists k : string,
    (k = "currentLanguage" \/ k = "fallbackLanguage") /\
    lookupProp [("currentLanguage", VStr "fr")] k <> VUndefined.
Proof.
  destruct (language_broadcast_only_on_change exampleEnv 1%nat "r1"
              [("currentLanguage", VStr "fr")] oneGameWorld
              (response "" BackOut.LANGUAGE_CHANGE (DLanguageChange VUndefined)))
    as [k [Hk [Hd _]]].
  - reflexivity.
  - vm_compute. left. reflexivity.
  - exists k. split; [exact Hk | exact Hd].
Defined.

(** ** Random games (lines 351-370) *)

Section Random.

Lemma pickGames_run (count : nat) :
  forall (allGames pickedGames : list Game.t) (w : World.t),
  exists (new rest : list Game.t) (w1 : World.t),
    pickGames count allGames pickedGames w = (Ok (pickedGames ++ new), w1) /\
    new ++ rest ≡ₚ allGames /\
    length new = Nat.min count (length allGames) /\
    World.trace w1 = World.trace w.
Proof.
  induction count as [|count IH]; intros allGames pickedGames w; cbn [pickGames].
  - exists [], allGames, w. rewrite app_nil_r. repeat split; reflexivity.
  - unfold bind at 1. cbn [choose].
    set (w' := World.mk _ _ _ _ _ _).
    set (index := (World.oracle w (World.tick w) mod length allGames)%nat).
    destruct (allGames !! index) as [game|] eqn:Hg.
    + destruct (IH (delete index allGames) (pickedGames ++ [game]) w')
        as [new [rest [w1 [Hr [Hp [Hl Ht]]]]]].
      exists (game :: new), rest, w1. split; [|split; [|split]].
      * rewrite Hr. now rewrite <- app_assoc.
      * cbn [app]. rewrite Hp. symmetry. now apply delete_Permutation.
      * cbn [length]. rewrite Hl, length_delete by eauto.
        apply lookup_lt_Some in Hg. lia.
      * exact Ht.
    + assert (Hnil : allGames = []).
      { destruct allGames as [|g l]; [reflexivity|]. exfalso.
        apply lookup_ge_None in Hg. subst index.
        pose proof (Nat.mod_upper_bound (World.oracle w (World.tick w)) (length (g :: l))) as Hb.
        cbn [length] in *. lia. }
      destruct (IH allGames pickedGames w') as [new [rest [w1 [Hr [Hp [Hl Ht]]]]]].
      exists new, rest, w1. split; [exact Hr|]. split; [exact Hp|]. split; [|exact Ht].
      rewrite Hl, Hnil. cbn [length]. lia.
Qed.

End Random.

(** X21. The random games are distinct games of the catalog. Whatever
    [Math.random] returns, the handler of RANDOM_GAMES searches the catalog
    once and answers with [min(count, N)] of the [N] games found, none of
    them taken twice: the games of the answer, with the games left over,
    are a rearrangement of the games found. *)
Theorem random_games_are_distinct (E : Env.t) (target : Channel) (id : string)
  (count : Z) (w : World.t) :
  let found := Env.filterGames E None (World.db w) in
  exists picked rest : list Game.t,
    newTrace (on_RANDOM_GAMES E target id count) w =
      [FoundGames None;
       Sent target (response id BackOut.GENERIC_RESPONSE (DRandomGames picked))] /\
    picked ++ rest ≡ₚ found /\
    length picked = Nat.min (Z.to_nat count) (length found).
Proof.
  intros found.
  set (w0 := World.mk (World.state w) (World.db w) (World.fs w)
                      (World.trace w ++ [FoundGames None]) (World.oracle w) (World.tick w)).
  destruct (pickGames_run (Z.to_nat count) found [] w0)
    as [picked [rest [w1 [Hr [Hp [Hl Ht]]]]]].
  exists picked, rest. split; [|split; [exact Hp | exact Hl]].
  unfold on_RANDOM_GAMES. eapply newTrace_of_run.
  - unfold bind at 1. unfold GameManager.findGames, bind at 1, getDb, emit, ret, bind at 1.
    fold found. fold w0. unfold bind. rewrite Hr. reflexivity.
  - cbn [app World.trace]. rewrite Ht. subst w0. cbn [World.trace].
    now rewrite <- app_assoc.
Qed.

(** ** The data for the renderer (lines 57-93) *)

Section Records.

Context {V : Type}.

Lemma setProp_fst (ps : list (string * V)) (key : string) (x : V) :
  map fst (setProp ps key x)
  = if bool_decide (key ∈ map fst ps) then map fst ps else map fst ps ++ [key].
Proof.
  induction ps as [|[k v] ps IH]; cbn [setProp map fst].
  - rewrite bool_decide_eq_false_2 by apply not_elem_of_nil. reflexivity.
  - destruct (String.eqb_spec k key) as [->|Hne]; cbn [map fst].
    + rewrite bool_decide_eq_true_2 by apply list_elem_of_here. reflexivity.
    + rewrite IH. destruct (decide (key ∈ map fst ps)) as [Hin|Hout].
      * rewrite !bool_decide_eq_true_2; [reflexivity | now apply list_elem_of_further | exact Hin].
      * rewrite !bool_decide_eq_false_2; [reflexivity | | exact Hout].
        intros Hin. apply elem_of_cons in Hin as [->|Hin]; [now apply Hne | now apply Hout].
Qed.

Lemma setProp_NoDup (ps : list (string * V)) (key : string) (x : V) :
  NoDup (map fst ps) -> NoDup (map fst (setProp ps key x)).
Proof.
  intros Hnd. rewrite setProp_fst.
  destruct (decide (key ∈ map fst ps)) as [Hin|Hout].
  - now rewrite bool_decide_eq_true_2.
  - rewrite bool_decide_eq_false_2 by exact Hout.
    apply NoDup_app. split; [exact Hnd|]. split; [|apply NoDup_singleton].
    intros k Hk Hk'. apply list_elem_of_singleton in Hk' as ->. now apply Hout.
Qed.

Lemma setProp_In (ps : list (string * V)) (key : string) (x : V) (k : string) (v : V) :
  NoDup (map fst ps) ->
  In (k, v) (setProp ps key x) <-> (k = key /\ v = x) \/ (k <> key /\ In (k, v) ps).
Proof.
  induction ps as [|[k1 v1] ps IH]; intros Hnd; cbn [setProp In].
  - split.
    + intros [[= <- <-]|[]]. now left.
    + intros [[-> ->]|[_ []]]. now left.
  - cbn [map fst] in Hnd. apply NoDup_cons in Hnd as [Hk1 Hnd].
    destruct (String.eqb_spec k1 key) as [->|Hne]; cbn [In].
    + split.
      * intros [[= <- <-]|Hin]; [now left|].
        right. split; [|now right]. intros ->. apply Hk1.
        apply list_elem_of_In, in_map_iff. now exists (key, v).
      * intros [[-> ->]|[Hne [[= Hk _]|Hin]]]; [now left | now destruct Hne | now right].
    + rewrite (IH Hnd). split.
      * intros [[= <- <-]|[[-> ->]|[Hk Hin]]]; [right; split; [exact Hne | now left]
                                                | now left | right; split; [exact Hk | now right]].
      * intros [[-> ->]|[Hk [[= <- <-]|Hin]]]; [right; now left | now left | right; right; auto].
Qed.

End Records.

Section Renderer.

Variable E : Env.t.

Lemma findAllPlatforms_run (libraries : list string) :
  forall (platforms : list (string * list string)) (w : World.t),
    findAllPlatforms E libraries platforms w
    = (Ok (platformsRecord E (World.db w) libraries platforms), w).
Proof.
  induction libraries as [|l libraries IH]; intros platforms w;
    cbn [findAllPlatforms platformsRecord fold_left]; [reflexivity|].
  unfold bind at 1, GameManager.findPlatforms, bind, getDb, ret. apply IH.
Qed.

Lemma setRecord_NoDup (ps : list (string * list string)) (key : string) (x : list string) :
  NoDup (map fst ps) -> NoDup (map fst (setRecord ps key x)).
Proof.
  intros Hnd. unfold setRecord. destruct (String.eqb key "__proto__"); [exact Hnd|].
  now apply setProp_NoDup.
Qed.

Lemma setRecord_In (ps : list (string * list string)) (key : string) (x : list string)
  (k : string) (v : list string) :
  NoDup (map fst ps) ->
  In (k, v) (setRecord ps key x) <->
  (k = key /\ key <> "__proto__" /\ v = x) \/
  ((k <> key \/ key = "__proto__") /\ In (k, v) ps).
Proof.
  intros Hnd. unfold setRecord. destruct (String.eqb_spec key "__proto__") as [Hp|Hp].
  - tauto.
  - rewrite (setProp_In ps key x k v Hnd). tauto.
Qed.

Lemma platformsRecord_spec (d : list Game.t) (libraries : list string) :
  forall platforms : list (string * list string),
    NoDup (map fst platforms) ->
    NoDup (map fst (platformsRecord E d libraries platforms)) /\
    forall l p,
      In (l, p) (platformsRecord E d libraries platforms) <->
      (In l libraries /\ l <> "__proto__" /\ p = Env.platformsOf E d l) \/
      ((~ In l libraries \/ l = "__proto__") /\ In (l, p) platforms).
Proof.
  induction libraries as [|l0 libraries IH]; intros platforms Hnd;
    cbn [platformsRecord fold_left].
  - split; [exact Hnd|]. intros l p. cbn [In]. tauto.
  - destruct (IH (setRecord platforms l0 (Env.platformsOf E d l0))
                 (setRecord_NoDup _ _ _ Hnd)) as [Hnd' Hin].
    split; [exact Hnd'|].
    intros l p. unfold platformsRecord in Hin. rewrite Hin.
    rewrite (setRecord_In platforms l0 _ l p Hnd). cbn [In].
    destruct (String.string_dec l0 l) as [->|Hne];
      destruct (in_dec String.string_dec l libraries) as [Hl|Hl];
      destruct (String.string_dec l "__proto__") as [Hp|Hp];
      intuition congruence.
Qed.

(** X22. The platforms sent to the renderer. The answer to
    GET_RENDERER_INIT_DATA carries the libraries of the catalog and a
    record of platforms with one entry for each library other than
    [__proto__] and no other, the entry of a library being the platforms of
    that library; it carries the playlists if and only if the playlists
    stage of the start is done. A library named [__proto__] gets no entry:
    the assignment [platforms[library] = ...] sets the prototype of the
    record. *)
Theorem renderer_init_platforms (target : Channel) (id : string) (w : World.t) :
  exists d : RendererInitData.t,
    newTrace (on_GET_RENDERER_INIT_DATA E target id) w
    = [Sent target (response id BackOut.GENERIC_RESPONSE (DRendererInit d))] /\
    RendererInitData.libraries d = Env.librariesOf E (World.db w) /\
    NoDup (map fst (RendererInitData.platforms d)) /\
    (forall l p,
       In (l, p) (RendererInitData.platforms d) <->
       In l (RendererInitData.libraries d) /\ l <> "__proto__" /\
       p = Env.platformsOf E (World.db w) l) /\
    RendererInitData.playlists d
    = (if initDone (World.state w) (Env.BackInit_PLAYLISTS E)
       then Some (BackState.playlists (World.state w)) else None).
Proof.
  eexists. split; [|split; [|split; [|split]]].
  - unfold on_GET_RENDERER_INIT_DATA. eapply newTrace_of_run.
    + unfold bind at 1. cbn [getState]. unfold bind at 1. cbn [modifyState].
      unfold bind at 1, GameManager.findLibraries, bind at 1, getDb, ret.
      unfold bind at 1. rewrite findAllPlatforms_run. reflexivity.
    + reflexivity.
  - reflexivity.
  - cbn [RendererInitData.platforms World.db]. apply platformsRecord_spec. constructor.
  - intros l p. cbn [RendererInitData.platforms RendererInitData.libraries World.db].
    destruct (platformsRecord_spec (World.db w) (Env.librariesOf E (World.db w)) [])
      as [_ H]; [constructor|].
    rewrite H. cbn [In]. tauto.
  - reflexivity.
Qed.

End Renderer.

(** ** The shape of a diff (lines 762-780) *)

Section DiffShape.

Variable sameObject : value -> value -> bool.

Lemma setProp_not_nil {V : Type} (d : list (string * V)) (k : string) (v : V) :
  setProp d k v <> [].
Proof.
  destruct d as [|[k1 v1] d]; cbn [setProp]; [discriminate|].
  destruct (String.eqb k1 k); discriminate.
Qed.

Lemma difKeys_shape (a b : value) :
  forall (keys : list (string * value)) (dif : option (list (string * value))) (r : value),
    difStarted dif ->
    difKeys sameObject a b keys dif = Some r ->
    (exists dif', r = difValue dif' /\ difStarted dif') /\
    forall k, In k (keysOf r) -> In k (keysOf (difValue dif)) \/ In k (map fst keys).
Proof.
  induction keys as [|[k0 tk] rest IH]; intros dif r Hs Hr.
  - cbn [difKeys] in Hr. injection Hr as <-. split; [now exists dif | now left].
  - destruct (difKeys_step sameObject a b k0 tk rest dif r Hr) as [dif' [Hr' Hd]].
    assert (Hs' : difStarted dif').
    { destruct Hd as [->|[v ->]]; [exact Hs|]. cbn [assign difStarted].
      apply setProp_not_nil. }
    destruct (IH dif' r Hs' Hr') as [Hshape Hkeys]. split; [exact Hshape|].
    intros k Hk. cbn [map fst In].
    destruct (Hkeys k Hk) as [Hin|Hin]; [|right; now right].
    destruct Hd as [->|[v ->]]; [now left|].
    cbn [assign difValue keysOf] in Hin. apply setProp_keys in Hin as [->|Hin].
    + right. now left.
    + left. destruct dif; [exact Hin | destruct Hin].
Qed.

(** X23. A diff is never an empty object. When [difObjects] returns, it
    returns [undefined] or an object with at least one property, and every
    key of that object is a key of the template: the test [if (dif)] of
    the handler of UPDATE_PREFERENCES sees an object only when a property
    was copied into it. *)
Theorem difObjects_never_empty (template a b r : value) :
  difObjects sameObject template a b = Some r ->
  r = VUndefined \/
  exists props : list (string * value),
    r = VObj props /\ props <> [] /\
    forall k, In k (map fst props) -> In k (keysOf template).
Proof.
  intros Hr. destruct template as [| | | | |tprops];
    try (cbn [difObjects] in Hr; injection Hr as <-; now left).
  rewrite difObjects_keys in Hr.
  destruct (difKeys_shape a b tprops None r I Hr) as [[dif' [-> Hs]] Hkeys].
  destruct dif' as [props|]; [right | now left].
  exists props. split; [reflexivity|]. split; [exact Hs|].
  intros k Hk. destruct (Hkeys k Hk) as [[]|Hin]. exact Hin.
Qed.

End DiffShape.

Lemma difObjects_never_empty_witness :
  exists props : list (string * value),
    VObj [("nested", VObj [("leaf", VNum 2)])] = VObj props /\ props <> [].
Proof.
  destruct (difObjects_never_empty (fun _ _ => false) (VObj examplePreferences)
              (VObj examplePreferences) (VObj changedPreferences)
              (VObj [("nested", VObj [("leaf", VNum 2)])])) as [H|[props [Hp [Hn _]]]].
  - vm_compute. reflexivity.
  - discriminate H.
  - exists props. split; [exact Hp | exact Hn].
Defined.
